(** * SimInf: the multithreaded direct-SSA solver

    A shallow embedding of [SimInf_solver_ssa] and [SimInf_run_solver_ssa]
    (src/core/siminf_run.c, second translation unit) and the properties of
    the per-node Gillespie step, the dependency-graph rate refresh, the
    post-time-step phase, the dense sampler and the static node partition.

    Conventions of the embedding.
    - A C [double] is a binary64 float (Rocq's primitive [float]); the
      comparisons are the IEEE ones, so every comparison with a NaN is
      false, exactly as in the C source.
    - A C [int] holding a count or an error code is a [Z]; [int_add] is
      [+=] on a 32-bit two's complement [int].  Sizes, loop counters and
      array indices are [nat]: the source only ever uses them in range.
    - An array is a [list]; [a[i]] is [a !!! i] and [a[i] = x] is
      [<[i:=x]> a].  Reading or writing outside the array is undefined
      in C; here a read yields the default element and a write leaves
      the list as it is.
    - A pointer into an array ([&sa.u[node * sa.Nc]]) is the suffix of
      the list from that offset ([drop]).
    - Each worker's [SimInf_thread_args] holds its own slice of the
      shared buffers [uu], [vv_1], [vv_2] and [update_node]; the
      caller's dense matrices [U] and [V], which all workers alias, are
      the separate store [SimInf_output]. *)

From Stdlib Require Import ZArith Lia Floats Uint63.
From stdpp Require Import base tactics option list.

(** ** C scalars *)

Abbreviation double := float (only parsing).

#[global] Instance double_inhabited : Inhabited float := populate 0%float.

(** The value a 32-bit two's complement [int] holds after an operation
    whose mathematical result is [z]. *)
Definition int_wrap (z : Z) : Z := ((z + 2 ^ 31) mod 2 ^ 32 - 2 ^ 31)%Z.

(** [a += b] on [int]. *)
Definition int_add (a b : Z) : Z := int_wrap (a + b).

(** [isfinite(x)]: neither a NaN nor an infinity. *)
Definition isfinite (x : double) : bool := is_finite x.

(** The test [!isfinite(rate) || rate < 0.0] applied to every propensity. *)
Definition invalid_rate (rate : double) : bool :=
  negb (isfinite rate) || (rate <? 0)%float.

(** ** External collaborators

    The GSL generator, libm, the error constants of SimInf.h and the
    representation of an event queue are not part of the translation
    unit; the solver is parametric in them. *)
Class SimInf_platform := {
  gsl_rng : Type;
  (** [gsl_rng_alloc(gsl_rng_mt19937)] followed by [gsl_rng_set]. *)
  gsl_rng_set : Z -> gsl_rng;
  gsl_rng_max : gsl_rng -> Z;
  gsl_rng_uniform_int : gsl_rng -> Z -> Z * gsl_rng;
  gsl_rng_uniform_pos : gsl_rng -> double * gsl_rng;
  log : double -> double;
  floor : double -> double;
  SIMINF_ERR_NEGATIVE_STATE : Z;
  SIMINF_ERR_INVALID_RATE : Z;
  SimInf_scheduled_events : Type;
  empty_events : SimInf_scheduled_events;
  (** GSL's contract for [gsl_rng_uniform_pos]: the variate lies in the
      open interval (0,1), both ends excluded. *)
  gsl_rng_uniform_pos_open : forall g,
    (0 <? fst (gsl_rng_uniform_pos g))%float = true /\
    (fst (gsl_rng_uniform_pos g) <? 1)%float = true
}.

(** [double f(const int *u, const double *v, const double *ldata,
              const double *gdata, double t)] *)
Definition PropensityFun : Type :=
  list Z -> list double -> list double -> list double -> double -> double.

(** [int f(double *v_new, const int *u, const double *v,
           const double *ldata, const double *gdata, int node, double t)];
    the second component of the result is what the callback leaves in
    [v_new]. *)
Definition PostTimeStepFun : Type :=
  list double -> list Z -> list double -> list double -> list double ->
  nat -> double -> Z * list double.

Section ThreadArgs.
Context {P : SimInf_platform}.

(** ** Per-worker state: [SimInf_thread_args] *)
Record SimInf_thread_args := mk_thread_args {
  rng : gsl_rng;
  Ntot : nat;
  Ni : nat;
  Nn : nat;
  Nt : nat;
  Nc : nat;
  Nd : nat;
  Nld : nat;
  irG : list nat;
  jcG : list nat;
  irS : list nat;
  jcS : list nat;
  prS : list Z;
  tr_fun : list PropensityFun;
  pts_fun : PostTimeStepFun;
  tt : double;
  next_day : double;
  tspan : list double;
  tlen : nat;
  U_it : nat;
  V_it : nat;
  u : list Z;
  v : list double;
  v_new : list double;
  ldata : list double;
  gdata : list double;
  update_node : list Z;
  E1 : SimInf_scheduled_events;
  E2 : SimInf_scheduled_events;
  t_rate : list double;
  sum_t_rate : list double;
  t_time : list double;
  errcode : Z
}.

Definition set_rng (sa : SimInf_thread_args) (x : gsl_rng) : SimInf_thread_args :=
  mk_thread_args x (sa.(Ntot)) (sa.(Ni)) (sa.(Nn)) (sa.(Nt)) (sa.(Nc))
    (sa.(Nd)) (sa.(Nld)) (sa.(irG)) (sa.(jcG)) (sa.(irS)) (sa.(jcS))
    (sa.(prS)) (sa.(tr_fun)) (sa.(pts_fun)) (sa.(tt)) (sa.(next_day))
    (sa.(tspan)) (sa.(tlen)) (sa.(U_it)) (sa.(V_it)) (sa.(u)) (sa.(v))
    (sa.(v_new)) (sa.(ldata)) (sa.(gdata)) (sa.(update_node)) (sa.(E1))
    (sa.(E2)) (sa.(t_rate)) (sa.(sum_t_rate)) (sa.(t_time)) (sa.(errcode)).

Definition set_tt (sa : SimInf_thread_args) (x : double) : SimInf_thread_args :=
  mk_thread_args (sa.(rng)) (sa.(Ntot)) (sa.(Ni)) (sa.(Nn)) (sa.(Nt))
    (sa.(Nc)) (sa.(Nd)) (sa.(Nld)) (sa.(irG)) (sa.(jcG)) (sa.(irS))
    (sa.(jcS)) (sa.(prS)) (sa.(tr_fun)) (sa.(pts_fun)) x (sa.(next_day))
    (sa.(tspan)) (sa.(tlen)) (sa.(U_it)) (sa.(V_it)) (sa.(u)) (sa.(v))
    (sa.(v_new)) (sa.(ldata)) (sa.(gdata)) (sa.(update_node)) (sa.(E1))
    (sa.(E2)) (sa.(t_rate)) (sa.(sum_t_rate)) (sa.(t_time)) (sa.(errcode)).

Definition set_next_day (sa : SimInf_thread_args) (x : double) : SimInf_thread_args :=
  mk_thread_args (sa.(rng)) (sa.(Ntot)) (sa.(Ni)) (sa.(Nn)) (sa.(Nt))
    (sa.(Nc)) (sa.(Nd)) (sa.(Nld)) (sa.(irG)) (sa.(jcG)) (sa.(irS))
    (sa.(jcS)) (sa.(prS)) (sa.(tr_fun)) (sa.(pts_fun)) (sa.(tt)) x
    (sa.(tspan)) (sa.(tlen)) (sa.(U_it)) (sa.(V_it)) (sa.(u)) (sa.(v))
    (sa.(v_new)) (sa.(ldata)) (sa.(gdata)) (sa.(update_node)) (sa.(E1))
    (sa.(E2)) (sa.(t_rate)) (sa.(sum_t_rate)) (sa.(t_time)) (sa.(errcode)).

Definition set_U_it (sa : SimInf_thread_args) (x : nat) : SimInf_thread_args :=
  mk_thread_args (sa.(rng)) (sa.(Ntot)) (sa.(Ni)) (sa.(Nn)) (sa.(Nt))
    (sa.(Nc)) (sa.(Nd)) (sa.(Nld)) (sa.(irG)) (sa.(jcG)) (sa.(irS))
    (sa.(jcS)) (sa.(prS)) (sa.(tr_fun)) (sa.(pts_fun)) (sa.(tt))
    (sa.(next_day)) (sa.(tspan)) (sa.(tlen)) x (sa.(V_it)) (sa.(u)) (sa.(v))
    (sa.(v_new)) (sa.(ldata)) (sa.(gdata)) (sa.(update_node)) (sa.(E1))
    (sa.(E2)) (sa.(t_rate)) (sa.(sum_t_rate)) (sa.(t_time)) (sa.(errcode)).

Definition set_V_it (sa : SimInf_thread_args) (x : nat) : SimInf_thread_args :=
  mk_thread_args (sa.(rng)) (sa.(Ntot)) (sa.(Ni)) (sa.(Nn)) (sa.(Nt))
    (sa.(Nc)) (sa.(Nd)) (sa.(Nld)) (sa.(irG)) (sa.(jcG)) (sa.(irS))
    (sa.(jcS)) (sa.(prS)) (sa.(tr_fun)) (sa.(pts_fun)) (sa.(tt))
    (sa.(next_day)) (sa.(tspan)) (sa.(tlen)) (sa.(U_it)) x (sa.(u)) (sa.(v))
    (sa.(v_new)) (sa.(ldata)) (sa.(gdata)) (sa.(update_node)) (sa.(E1))
    (sa.(E2)) (sa.(t_rate)) (sa.(sum_t_rate)) (sa.(t_time)) (sa.(errcode)).

Definition set_u (sa : SimInf_thread_args) (x : list Z) : SimInf_thread_args :=
  mk_thread_args (sa.(rng)) (sa.(Ntot)) (sa.(Ni)) (sa.(Nn)) (sa.(Nt))
    (sa.(Nc)) (sa.(Nd)) (sa.(Nld)) (sa.(irG)) (sa.(jcG)) (sa.(irS))
    (sa.(jcS)) (sa.(prS)) (sa.(tr_fun)) (sa.(pts_fun)) (sa.(tt))
    (sa.(next_day)) (sa.(tspan)) (sa.(tlen)) (sa.(U_it)) (sa.(V_it)) x
    (sa.(v)) (sa.(v_new)) (sa.(ldata)) (sa.(gdata)) (sa.(update_node))
    (sa.(E1)) (sa.(E2)) (sa.(t_rate)) (sa.(sum_t_rate)) (sa.(t_time))
    (sa.(errcode)).

Definition set_v (sa : SimInf_thread_args) (x : list double) : SimInf_thread_args :=
  mk_thread_args (sa.(rng)) (sa.(Ntot)) (sa.(Ni)) (sa.(Nn)) (sa.(Nt))
    (sa.(Nc)) (sa.(Nd)) (sa.(Nld)) (sa.(irG)) (sa.(jcG)) (sa.(irS))
    (sa.(jcS)) (sa.(prS)) (sa.(tr_fun)) (sa.(pts_fun)) (sa.(tt))
    (sa.(next_day)) (sa.(tspan)) (sa.(tlen)) (sa.(U_it)) (sa.(V_it))
    (sa.(u)) x (sa.(v_new)) (sa.(ldata)) (sa.(gdata)) (sa.(update_node))
    (sa.(E1)) (sa.(E2)) (sa.(t_rate)) (sa.(sum_t_rate)) (sa.(t_time))
    (sa.(errcode)).

Definition set_v_new (sa : SimInf_thread_args) (x : list double) : SimInf_thread_args :=
  mk_thread_args (sa.(rng)) (sa.(Ntot)) (sa.(Ni)) (sa.(Nn)) (sa.(Nt))
    (sa.(Nc)) (sa.(Nd)) (sa.(Nld)) (sa.(irG)) (sa.(jcG)) (sa.(irS))
    (sa.(jcS)) (sa.(prS)) (sa.(tr_fun)) (sa.(pts_fun)) (sa.(tt))
    (sa.(next_day)) (sa.(tspan)) (sa.(tlen)) (sa.(U_it)) (sa.(V_it))
    (sa.(u)) (sa.(v)) x (sa.(ldata)) (sa.(gdata)) (sa.(update_node))
    (sa.(E1)) (sa.(E2)) (sa.(t_rate)) (sa.(sum_t_rate)) (sa.(t_time))
    (sa.(errcode)).

Definition set_update_node (sa : SimInf_thread_args) (x : list Z) : SimInf_thread_args :=
  mk_thread_args (sa.(rng)) (sa.(Ntot)) (sa.(Ni)) (sa.(Nn)) (sa.(Nt))
    (sa.(Nc)) (sa.(Nd)) (sa.(Nld)) (sa.(irG)) (sa.(jcG)) (sa.(irS))
    (sa.(jcS)) (sa.(prS)) (sa.(tr_fun)) (sa.(pts_fun)) (sa.(tt))
    (sa.(next_day)) (sa.(tspan)) (sa.(tlen)) (sa.(U_it)) (sa.(V_it))
    (sa.(u)) (sa.(v)) (sa.(v_new)) (sa.(ldata)) (sa.(gdata)) x (sa.(E1))
    (sa.(E2)) (sa.(t_rate)) (sa.(sum_t_rate)) (sa.(t_time)) (sa.(errcode)).

Definition set_t_rate (sa : SimInf_thread_args) (x : list double) : SimInf_thread_args :=
  mk_thread_args (sa.(rng)) (sa.(Ntot)) (sa.(Ni)) (sa.(Nn)) (sa.(Nt))
    (sa.(Nc)) (sa.(Nd)) (sa.(Nld)) (sa.(irG)) (sa.(jcG)) (sa.(irS))
    (sa.(jcS)) (sa.(prS)) (sa.(tr_fun)) (sa.(pts_fun)) (sa.(tt))
    (sa.(next_day)) (sa.(tspan)) (sa.(tlen)) (sa.(U_it)) (sa.(V_it))
    (sa.(u)) (sa.(v)) (sa.(v_new)) (sa.(ldata)) (sa.(gdata))
    (sa.(update_node)) (sa.(E1)) (sa.(E2)) x (sa.(sum_t_rate)) (sa.(t_time))
    (sa.(errcode)).

Definition set_sum_t_rate (sa : SimInf_thread_args) (x : list double) : SimInf_thread_args :=
  mk_thread_args (sa.(rng)) (sa.(Ntot)) (sa.(Ni)) (sa.(Nn)) (sa.(Nt))
    (sa.(Nc)) (sa.(Nd)) (sa.(Nld)) (sa.(irG)) (sa.(jcG)) (sa.(irS))
    (sa.(jcS)) (sa.(prS)) (sa.(tr_fun)) (sa.(pts_fun)) (sa.(tt))
    (sa.(next_day)) (sa.(tspan)) (sa.(tlen)) (sa.(U_it)) (sa.(V_it))
    (sa.(u)) (sa.(v)) (sa.(v_new)) (sa.(ldata)) (sa.(gdata))
    (sa.(update_node)) (sa.(E1)) (sa.(E2)) (sa.(t_rate)) x (sa.(t_time))
    (sa.(errcode)).

Definition set_t_time (sa : SimInf_thread_args) (x : list double) : SimInf_thread_args :=
  mk_thread_args (sa.(rng)) (sa.(Ntot)) (sa.(Ni)) (sa.(Nn)) (sa.(Nt))
    (sa.(Nc)) (sa.(Nd)) (sa.(Nld)) (sa.(irG)) (sa.(jcG)) (sa.(irS))
    (sa.(jcS)) (sa.(prS)) (sa.(tr_fun)) (sa.(pts_fun)) (sa.(tt))
    (sa.(next_day)) (sa.(tspan)) (sa.(tlen)) (sa.(U_it)) (sa.(V_it))
    (sa.(u)) (sa.(v)) (sa.(v_new)) (sa.(ldata)) (sa.(gdata))
    (sa.(update_node)) (sa.(E1)) (sa.(E2)) (sa.(t_rate)) (sa.(sum_t_rate)) x
    (sa.(errcode)).

Definition set_errcode (sa : SimInf_thread_args) (x : Z) : SimInf_thread_args :=
  mk_thread_args (sa.(rng)) (sa.(Ntot)) (sa.(Ni)) (sa.(Nn)) (sa.(Nt))
    (sa.(Nc)) (sa.(Nd)) (sa.(Nld)) (sa.(irG)) (sa.(jcG)) (sa.(irS))
    (sa.(jcS)) (sa.(prS)) (sa.(tr_fun)) (sa.(pts_fun)) (sa.(tt))
    (sa.(next_day)) (sa.(tspan)) (sa.(tlen)) (sa.(U_it)) (sa.(V_it))
    (sa.(u)) (sa.(v)) (sa.(v_new)) (sa.(ldata)) (sa.(gdata))
    (sa.(update_node)) (sa.(E1)) (sa.(E2)) (sa.(t_rate)) (sa.(sum_t_rate))
    (sa.(t_time)) x.


(** ** The SSA kernel (steps 1a-1d of the main loop) *)

(** [sa.tr_fun[j](&sa.u[node * sa.Nc], &vv[node * sa.Nd],
                     &sa.ldata[node * sa.Nld], sa.gdata, t)] *)
Definition call_tr_fun (sa : SimInf_thread_args) (j node : nat)
    (vv : list double) (t : double) : double :=
  (sa.(tr_fun) !!! j)
    (drop (node * sa.(Nc)) sa.(u)) (drop (node * sa.(Nd)) vv)
    (drop (node * sa.(Nld)) sa.(ldata)) sa.(gdata) t.

(** [sa.t_rate[node * sa.Nt + k]] *)
Definition rate_of (sa : SimInf_thread_args) (node k : nat) : double :=
  sa.(t_rate) !!! (node * sa.(Nt) + k).

(** [if (!isfinite(rate) || rate < 0.0) sa.errcode = SIMINF_ERR_INVALID_RATE;] *)
Definition check_rate (sa : SimInf_thread_args) (rate : double)
    : SimInf_thread_args :=
  if invalid_rate rate then set_errcode sa SIMINF_ERR_INVALID_RATE else sa.

(** Body of the loop over [j] in the initialisation. *)
Definition init_rate (node : nat) (sa : SimInf_thread_args) (j : nat)
    : SimInf_thread_args :=
  let rate := call_tr_fun sa j node sa.(v) sa.(tt) in
  let sa := set_t_rate sa (<[node * sa.(Nt) + j := rate]> sa.(t_rate)) in
  let sa := set_sum_t_rate sa
    (<[node := (sa.(sum_t_rate) !!! node + rate)%float]> sa.(sum_t_rate)) in
  check_rate sa rate.

(** Body of the loop over [node] in the initialisation. *)
Definition init_node (sa : SimInf_thread_args) (node : nat)
    : SimInf_thread_args :=
  let sa := set_sum_t_rate sa (<[node := 0%float]> sa.(sum_t_rate)) in
  let sa := foldl (init_rate node) sa (seq 0 sa.(Nt)) in
  set_t_time sa (<[node := sa.(tt)]> sa.(t_time)).

(** The initialisation a worker performs on its nodes. *)
Definition init_worker (sa : SimInf_thread_args) : SimInf_thread_args :=
  foldl init_node sa (seq 0 sa.(Nn)).

(** The cumulative scan
    [for (tr = 0, cum = t_rate[0]; tr < Nt && rand > cum;
          tr++, cum += t_rate[tr]);]
    on the rates [rates] of one node; [fuel] bounds the number of
    increments of [tr], which never exceeds [Nt]. *)
Fixpoint scan_transition (rates : nat -> double) (Nt : nat) (rand : double)
    (fuel tr : nat) (cum : double) : nat :=
  match fuel with
  | 0 => tr
  | S fuel' =>
      if (tr <? Nt) && (cum <? rand)%float
      then scan_transition rates Nt rand fuel' (S tr) (cum + rates (S tr))%float
      else tr
  end.

(** [for ( ; tr > 0 && t_rate[tr] == 0.0; tr--);] *)
Fixpoint walk_back (rates : nat -> double) (tr : nat) : nat :=
  match tr with
  | 0 => 0
  | S tr' => if (rates tr =? 0)%float then walk_back rates tr' else tr
  end.

(** Step 1b with the floating point fix: the transition that fires, or
    [None] for the nil event.  (With [Nt = 0] the source would index
    [t_rate[-1]]; every model has at least one transition.) *)
Definition draw_transition (rates : nat -> double) (Nt : nat) (rand : double)
    : option nat :=
  let tr := scan_transition rates Nt rand Nt 0 (rates 0) in
  let tr := if Nt <=? tr then Nt - 1 else tr in
  if (rates tr =? 0)%float then
    let tr := walk_back rates tr in
    if (rates tr =? 0)%float then None else Some tr
  else Some tr.

(** [rates[0] + ... + rates[k]], added from the left as the scan adds
    them: the value of [cum] when the scan stands at index [k]. *)
Fixpoint cum_rate (rates : nat -> double) (k : nat) : double :=
  match k with
  | 0 => rates 0
  | S k' => (cum_rate rates k' + rates k)%float
  end.

(** Body of the loop of step 1c over the entries [j] of column [tr] of
    the state-change matrix [(irS, jcS, prS)]. *)
Definition update_state_entry (node : nat) (sa : SimInf_thread_args) (j : nat)
    : SimInf_thread_args :=
  let i := node * sa.(Nc) + sa.(irS) !!! j in
  let sa := set_u sa (<[i := int_add (sa.(u) !!! i) (sa.(prS) !!! j)]> sa.(u)) in
  if (sa.(u) !!! i <? 0)%Z then set_errcode sa SIMINF_ERR_NEGATIVE_STATE else sa.

(** The indices [j] with [jc[col] <= j < jc[col + 1]]. *)
Definition column (jc : list nat) (col : nat) : list nat :=
  seq (jc !!! col) (jc !!! (S col) - jc !!! col).

(** Step 1c. *)
Definition update_state (sa : SimInf_thread_args) (node tr : nat)
    : SimInf_thread_args :=
  foldl (update_state_entry node) sa (column sa.(jcS) tr).

(** Body of the loop of step 1d over the entries [j] of column [tr] of
    the dependency graph [(irG, jcG)]; [delta] is threaded along. *)
Definition refresh_entry (node : nat) (acc : SimInf_thread_args * double)
    (j : nat) : SimInf_thread_args * double :=
  let sa := acc.1 in
  let i := sa.(irG) !!! j in
  let old := rate_of sa node i in
  let rate := call_tr_fun sa i node sa.(v) (sa.(t_time) !!! node) in
  let sa := set_t_rate sa (<[node * sa.(Nt) + i := rate]> sa.(t_rate)) in
  (check_rate sa rate, (acc.2 + (rate - old))%float).

(** Step 1d. *)
Definition refresh_rates (sa : SimInf_thread_args) (node tr : nat)
    : SimInf_thread_args :=
  let acc := foldl (refresh_entry node) (sa, 0%float) (column sa.(jcG) tr) in
  set_sum_t_rate acc.1
    (<[node := (acc.1.(sum_t_rate) !!! node + acc.2)%float]> acc.1.(sum_t_rate)).

(** How one pass through the body of the inner [for (;;)] ends. *)
Inductive loop_exit := Break | Continue.

(** Steps 1b-1d, entered once the node's clock has been advanced. *)
Definition fire_transition (sa : SimInf_thread_args) (node : nat)
    : loop_exit * SimInf_thread_args :=
  let draw := gsl_rng_uniform_pos sa.(rng) in
  let sa := set_rng sa draw.2 in
  let rand := (draw.1 * sa.(sum_t_rate) !!! node)%float in
  match draw_transition (rate_of sa node) sa.(Nt) rand with
  | None =>
      (Break, set_sum_t_rate sa (<[node := 0%float]> sa.(sum_t_rate)))
  | Some tr =>
      (Continue, refresh_rates (update_state sa node tr) node tr)
  end.

(** The waiting time [-log(gsl_rng_uniform_pos(sa.rng)) / sa.sum_t_rate[node]]. *)
Definition waiting_time (sa : SimInf_thread_args) (node : nat) : double :=
  (- log (gsl_rng_uniform_pos sa.(rng)).1 / sa.(sum_t_rate) !!! node)%float.

(** One pass through the body of the inner [for (;;)] of step (1). *)
Definition ssa_step (sa : SimInf_thread_args) (node : nat)
    : loop_exit * SimInf_thread_args :=
  if (sa.(sum_t_rate) !!! node <=? 0)%float then
    (Break, set_t_time sa (<[node := sa.(next_day)]> sa.(t_time)))
  else
    let tau := waiting_time sa node in
    let sa' := set_rng sa (gsl_rng_uniform_pos sa.(rng)).2 in
    if (sa.(next_day) <=? tau + sa.(t_time) !!! node)%float then
      (Break, set_t_time sa' (<[node := sa.(next_day)]> sa.(t_time)))
    else
      fire_transition
        (set_t_time sa'
           (<[node := (sa.(t_time) !!! node + tau)%float]> sa.(t_time)))
        node.

(** The inner [for (;;)] of step (1) for one node.  The C loop has no
    bound; [None] means that [fuel] passes did not reach a [break]. *)
Fixpoint ssa_node (fuel : nat) (sa : SimInf_thread_args) (node : nat)
    : option SimInf_thread_args :=
  match fuel with
  | 0 => None
  | S fuel' =>
      match ssa_step sa node with
      | (Break, sa') => Some sa'
      | (Continue, sa') => ssa_node fuel' sa' node
      end
  end.

(** [for (node = 0; node < sa.Nn && !sa.errcode; node++)], on the nodes
    still to visit. *)
Fixpoint ssa_nodes (fuel : nat) (sa : SimInf_thread_args) (nodes : list nat)
    : option SimInf_thread_args :=
  match nodes with
  | [] => Some sa
  | node :: rest =>
      if (sa.(errcode) =? 0)%Z then
        match ssa_node fuel sa node with
        | Some sa' => ssa_nodes fuel sa' rest
        | None => None
        end
      else Some sa
  end.

(** Step (1) of a worker. *)
Definition ssa_worker (fuel : nat) (sa : SimInf_thread_args)
    : option SimInf_thread_args :=
  ssa_nodes fuel sa (seq 0 sa.(Nn)).

(** ** The post-time-step phase (step 4) *)

(** Body of the loop over [j] of the full refresh: as [refresh_entry],
    but for every transition, reading [v_new] and the global time. *)
Definition refresh_all_entry (node : nat) (acc : SimInf_thread_args * double)
    (j : nat) : SimInf_thread_args * double :=
  let sa := acc.1 in
  let old := rate_of sa node j in
  let rate := call_tr_fun sa j node sa.(v_new) sa.(tt) in
  let sa := set_t_rate sa (<[node * sa.(Nt) + j := rate]> sa.(t_rate)) in
  (check_rate sa rate, (acc.2 + (rate - old))%float).

(** The branch [rc > 0 || sa.update_node[node]]. *)
Definition refresh_all (sa : SimInf_thread_args) (node : nat)
    : SimInf_thread_args :=
  let acc := foldl (refresh_all_entry node) (sa, 0%float) (seq 0 sa.(Nt)) in
  let sa := set_sum_t_rate acc.1
    (<[node := (acc.1.(sum_t_rate) !!! node + acc.2)%float]>
       acc.1.(sum_t_rate)) in
  set_update_node sa (<[node := 0%Z]> sa.(update_node)).

(** The call of [sa.pts_fun] for [node]: its return code, and the state
    with what the callback wrote to the node's [Nd] cells of [v_new]. *)
Definition call_pts_fun (sa : SimInf_thread_args) (node : nat)
    : Z * SimInf_thread_args :=
  let r := sa.(pts_fun)
    (drop (node * sa.(Nd)) sa.(v_new)) (drop (node * sa.(Nc)) sa.(u))
    (drop (node * sa.(Nd)) sa.(v)) (drop (node * sa.(Nld)) sa.(ldata))
    sa.(gdata) (sa.(Ni) + node) sa.(tt) in
  (r.1, set_v_new sa
          (list_inserts (node * sa.(Nd)) (take sa.(Nd) r.2) sa.(v_new))).

(** [for (node = 0; node < sa.Nn; node++)] of step (4), on the nodes
    still to visit. *)
Fixpoint post_nodes (sa : SimInf_thread_args) (nodes : list nat)
    : SimInf_thread_args :=
  match nodes with
  | [] => sa
  | node :: rest =>
      let r := call_pts_fun sa node in
      if (r.1 <? 0)%Z then set_errcode r.2 r.1
      else if (0 <? r.1)%Z || negb (r.2.(update_node) !!! node =? 0)%Z
      then post_nodes (refresh_all r.2 node) rest
      else post_nodes r.2 rest
  end.

(** ** The dense sampler (step 6a) *)

(** The caller's dense result matrices, column-major with [Ntot * Nc]
    (resp. [Ntot * Nd]) rows; [None] is the null pointer of a run that
    stores the matrix sparsely. *)
Record SimInf_output := mk_output {
  U : option (list Z);
  V : option (list double)
}.

(** [while (sa.U_it < sa.tlen && sa.tt > sa.tspan[sa.U_it])
       memcpy(&sa.U[sa.Nc * ((sa.Ntot * sa.U_it++) + sa.Ni)], sa.u,
              sa.Nn * sa.Nc * sizeof(int));]
    The cursor grows in every pass, so [tlen - U_it] passes suffice. *)
Fixpoint sample_U (fuel : nat) (sa : SimInf_thread_args) (Um : list Z)
    : SimInf_thread_args * list Z :=
  match fuel with
  | 0 => (sa, Um)
  | S fuel' =>
      if (sa.(U_it) <? sa.(tlen)) && (sa.(tspan) !!! sa.(U_it) <? sa.(tt))%float
      then sample_U fuel' (set_U_it sa (S sa.(U_it)))
             (list_inserts (sa.(Nc) * (sa.(Ntot) * sa.(U_it) + sa.(Ni)))
                (take (sa.(Nn) * sa.(Nc)) sa.(u)) Um)
      else (sa, Um)
  end.

(** The same loop for [V], which copies [sa.v_new]. *)
Fixpoint sample_V (fuel : nat) (sa : SimInf_thread_args) (Vm : list double)
    : SimInf_thread_args * list double :=
  match fuel with
  | 0 => (sa, Vm)
  | S fuel' =>
      if (sa.(V_it) <? sa.(tlen)) && (sa.(tspan) !!! sa.(V_it) <? sa.(tt))%float
      then sample_V fuel' (set_V_it sa (S sa.(V_it)))
             (list_inserts (sa.(Nd) * (sa.(Ntot) * sa.(V_it) + sa.(Ni)))
                (take (sa.(Nn) * sa.(Nd)) sa.(v_new)) Vm)
      else (sa, Vm)
  end.

(** Step 6a of a worker. *)
Definition store_dense (sa : SimInf_thread_args) (out : SimInf_output)
    : SimInf_thread_args * SimInf_output :=
  let ru := match out.(U) with
            | Some Um =>
                let r := sample_U (sa.(tlen) - sa.(U_it)) sa Um in
                (r.1, Some r.2)
            | None => (sa, None)
            end in
  let rv := match out.(V) with
            | Some Vm =>
                let r := sample_V (ru.1.(tlen) - ru.1.(V_it)) ru.1 Vm in
                (r.1, Some r.2)
            | None => (ru.1, None)
            end in
  (rv.1, mk_output ru.2 rv.2).

(** Steps (4)-(6a) of a worker. *)
Definition post_worker (sa : SimInf_thread_args) (out : SimInf_output)
    : SimInf_thread_args * SimInf_output :=
  let sa := post_nodes sa (seq 0 sa.(Nn)) in
  let sa := set_tt sa sa.(next_day) in
  let sa := set_next_day sa (sa.(next_day) + 1)%float in
  store_dense sa out.

End ThreadArgs.

(** ** The event processors

    [SimInf_split_events], [SimInf_process_E1_events],
    [SimInf_process_E2_events] and [SimInf_store_solution_sparse] are
    defined in another translation unit.  The E1 processor of a worker
    acts on that worker's state (its slice of [uu] and [update_node]);
    the E2 processor, run by the master between two barriers, and the
    sparse store act on the states of all workers. *)
Class SimInf_events {P : SimInf_platform} := {
  SimInf_split_events :
    list SimInf_thread_args -> Z * list SimInf_thread_args;
  SimInf_process_E1_events : SimInf_thread_args -> SimInf_thread_args;
  SimInf_process_E2_events :
    list SimInf_thread_args -> list SimInf_thread_args;
  SimInf_store_solution_sparse :
    list SimInf_thread_args -> list SimInf_thread_args
}.

Section Solver.
Context {P : SimInf_platform} {E : SimInf_events}.

(** ** The solver: [SimInf_solver_ssa] *)

(** Steps (1)-(2) of all workers (the first [omp for] of the main
    loop); the iterations touch disjoint worker states. *)
Fixpoint ssa_workers (fuel : nat) (sim_args : list SimInf_thread_args)
    : option (list SimInf_thread_args) :=
  match sim_args with
  | [] => Some []
  | sa :: rest =>
      match ssa_worker fuel sa, ssa_workers fuel rest with
      | Some sa', Some rest' => Some (SimInf_process_E1_events sa' :: rest')
      | _, _ => None
      end
  end.

(** Steps (4)-(6a) of all workers (the second [omp for]); the workers
    write disjoint rows of the dense matrices. *)
Fixpoint post_workers (sim_args : list SimInf_thread_args)
    (out : SimInf_output) : list SimInf_thread_args * SimInf_output :=
  match sim_args with
  | [] => ([], out)
  | sa :: rest =>
      let r := post_worker sa out in
      let r' := post_workers rest r.2 in
      (r.1 :: r'.1, r'.2)
  end.

(** The loop that swaps [v] and [v_new] of every worker and returns at
    the first worker with a non-zero [errcode]; the second component is
    that code, or 0 when the loop runs to its end. *)
Fixpoint swap_and_check (sim_args : list SimInf_thread_args)
    : list SimInf_thread_args * Z :=
  match sim_args with
  | [] => ([], 0%Z)
  | sa :: rest =>
      let sa' := set_v_new (set_v sa sa.(v_new)) sa.(v) in
      if (sa'.(errcode) =? 0)%Z then
        let r := swap_and_check rest in (sa' :: r.1, r.2)
      else (sa' :: rest, sa'.(errcode))
  end.

(** What one pass through the main loop yields: the states of the
    workers, the dense matrices, and the verdict of the pass. *)
Inductive day_result :=
  | Return (errcode : Z)
  | NextDay.

(** One pass through the body of the main loop.  [None]: some node's
    inner loop did not end within [fuel] passes, or [sim_args] is empty
    (the source then reads [sim_args[0]] of an empty array). *)
Definition solver_day (fuel : nat) (sim_args : list SimInf_thread_args)
    (out : SimInf_output)
    : option (day_result * list SimInf_thread_args * SimInf_output) :=
  match ssa_workers fuel sim_args with
  | None => None
  | Some s1 =>
      let s2 := SimInf_process_E2_events s1 in
      let r := post_workers s2 out in
      let s3 := SimInf_store_solution_sparse r.1 in
      let c := swap_and_check s3 in
      if negb (c.2 =? 0)%Z then Some (Return c.2, c.1, r.2)
      else
        match c.1 with
        | [] => None
        | sa0 :: _ =>
            if sa0.(tlen) <=? sa0.(U_it)
            then Some (Return 0%Z, c.1, r.2)
            else Some (NextDay, c.1, r.2)
        end
  end.

(** The main loop, for at most [days] passes. *)
Fixpoint main_loop (days fuel : nat) (sim_args : list SimInf_thread_args)
    (out : SimInf_output)
    : option (Z * list SimInf_thread_args * SimInf_output) :=
  match days with
  | 0 => None
  | S days' =>
      match solver_day fuel sim_args out with
      | None => None
      | Some (Return rc, s, o) => Some (rc, s, o)
      | Some (NextDay, s, o) => main_loop days' fuel s o
      end
  end.

(** [for (k = 0; k < Nthread; k++) if (sim_args[k].errcode) return ...]:
    the first non-zero [errcode], or 0. *)
Fixpoint first_error (sim_args : list SimInf_thread_args) : Z :=
  match sim_args with
  | [] => 0%Z
  | sa :: rest =>
      if (sa.(errcode) =? 0)%Z then first_error rest else sa.(errcode)
  end.

(** [SimInf_solver_ssa]. *)
Definition SimInf_solver_ssa (days fuel : nat)
    (sim_args : list SimInf_thread_args) (out : SimInf_output)
    : option (Z * list SimInf_thread_args * SimInf_output) :=
  let s0 := map init_worker sim_args in
  if negb (first_error s0 =? 0)%Z then Some (first_error s0, s0, out)
  else main_loop days fuel s0 out.

End Solver.

(** ** Set-up: [SimInf_run_solver_ssa] *)

(** [SimInf_solver_args], with the fields the set-up reads.  The event
    arrays are those [SimInf_split_events] consumes and the sparse
    result triples those [SimInf_store_solution_sparse] fills. *)
Module Args.
Record SimInf_solver_args := mk_solver_args {
  u0 : list Z;
  v0 : list double;
  irG : list nat;
  jcG : list nat;
  irS : list nat;
  jcS : list nat;
  prS : list Z;
  tspan : list double;
  tlen : nat;
  U : option (list Z);
  V : option (list double);
  ldata : list double;
  gdata : list double;
  Nn : nat;
  Nc : nat;
  Nt : nat;
  Nd : nat;
  Nld : nat;
  Nthread : nat;
  seed : Z;
  tr_fun : list PropensityFun;
  pts_fun : PostTimeStepFun
}.
End Args.

(** [sim_args[i].Ni = i * (args->Nn / args->Nthread)] *)
Definition partition_Ni (Nn Nthread i : nat) : nat := i * (Nn / Nthread).

(** [sim_args[i].Nn = args->Nn / args->Nthread], and for the last worker
    [sim_args[i].Nn += args->Nn % args->Nthread]. *)
Definition partition_Nn (Nn Nthread i : nat) : nat :=
  Nn / Nthread + (if i =? Nthread - 1 then Nn mod Nthread else 0).

Section Setup.
Context {P : SimInf_platform} {E : SimInf_events}.

(** The generators of workers [0 .. n-1]: each is seeded with the next
    [gsl_rng_uniform_int(rng, gsl_rng_max(rng))] of the master generator. *)
Fixpoint child_rngs (master : gsl_rng) (n : nat) : list gsl_rng :=
  match n with
  | 0 => []
  | S n' =>
      let d := gsl_rng_uniform_int master (gsl_rng_max master) in
      gsl_rng_set d.1 :: child_rngs d.2 n'
  end.

(** Body of the loop over [i] that fills [sim_args[i]].  Buffers that
    the source obtains from [malloc] and fills before their first use
    ([vv_2], [t_rate], [sum_t_rate], [t_time]) start as zeros. *)
Definition setup_thread (args : Args.SimInf_solver_args) (i : nat)
    (g : gsl_rng) : SimInf_thread_args :=
  let ni := partition_Ni args.(Args.Nn) args.(Args.Nthread) i in
  let nn := partition_Nn args.(Args.Nn) args.(Args.Nthread) i in
  let t0 := args.(Args.tspan) !!! 0 in
  {| rng := g;
     Ntot := args.(Args.Nn); Ni := ni; Nn := nn;
     Nt := args.(Args.Nt); Nc := args.(Args.Nc);
     Nd := args.(Args.Nd); Nld := args.(Args.Nld);
     irG := args.(Args.irG); jcG := args.(Args.jcG);
     irS := args.(Args.irS); jcS := args.(Args.jcS);
     prS := args.(Args.prS);
     tr_fun := args.(Args.tr_fun); pts_fun := args.(Args.pts_fun);
     tt := t0; next_day := (floor t0 + 1)%float;
     tspan := args.(Args.tspan); tlen := args.(Args.tlen);
     U_it := 1; V_it := 1;
     u := take (nn * args.(Args.Nc)) (drop (ni * args.(Args.Nc)) args.(Args.u0));
     v := take (nn * args.(Args.Nd)) (drop (ni * args.(Args.Nd)) args.(Args.v0));
     v_new := replicate (nn * args.(Args.Nd)) 0%float;
     ldata := drop (ni * args.(Args.Nld)) args.(Args.ldata);
     gdata := args.(Args.gdata);
     update_node := replicate nn 0%Z;
     E1 := empty_events; E2 := empty_events;
     t_rate := replicate (args.(Args.Nt) * nn) 0%float;
     sum_t_rate := replicate nn 0%float;
     t_time := replicate nn 0%float;
     errcode := 0%Z |}.

(** [sim_args] after the loop over [i]. *)
Definition setup_threads (args : Args.SimInf_solver_args)
    : list SimInf_thread_args :=
  zip_with (setup_thread args) (seq 0 args.(Args.Nthread))
    (child_rngs (gsl_rng_set args.(Args.seed)) args.(Args.Nthread)).

(** The dense matrices after [u0] and [v0] have been copied to their
    first columns. *)
Definition setup_output (args : Args.SimInf_solver_args) : SimInf_output :=
  {| U := option_map
            (list_inserts 0
               (take (args.(Args.Nn) * args.(Args.Nc)) args.(Args.u0)))
            args.(Args.U);
     V := option_map
            (list_inserts 0
               (take (args.(Args.Nn) * args.(Args.Nd)) args.(Args.v0)))
            args.(Args.V) |}.

(** [SimInf_run_solver_ssa], every allocation succeeding. *)
Definition SimInf_run_solver_ssa (days fuel : nat)
    (args : Args.SimInf_solver_args)
    : option (Z * list SimInf_thread_args * SimInf_output) :=
  let out := setup_output args in
  let r := SimInf_split_events (setup_threads args) in
  if negb (r.1 =? 0)%Z then Some (r.1, r.2, out)
  else SimInf_solver_ssa days fuel r.2 out.

End Setup.

(** ** A concrete platform and model for the examples

    The generator replays a list of variates (and yields 0.5 once the
    list is used up, or when an entry is not in (0,1)); [log] is the
    tangent of the natural logarithm at 1 and [floor] the identity, which
    is what [floor] is on the integral sample times used below.  The
    error constants are two distinct negative codes. *)
Definition replay_uniform_pos (g : list double) : double * list double :=
  match g with
  | [] => (0.5%float, [])
  | x :: g' =>
      (if (0 <? x)%float && (x <? 1)%float then x else 0.5%float, g')
  end.

Lemma replay_uniform_pos_open (g : list double) :
  (0 <? (replay_uniform_pos g).1)%float = true /\
  ((replay_uniform_pos g).1 <? 1)%float = true.
Proof.
  destruct g as [|x g]; simpl; [split; reflexivity|].
  destruct (0 <? x)%float eqn:H0; simpl; [|split; reflexivity].
  destruct (x <? 1)%float eqn:H1; simpl; [|split; reflexivity].
  split; assumption.
Qed.

#[local] Instance replay_platform : SimInf_platform := {|
  gsl_rng := list double;
  gsl_rng_set := fun _ => [];
  gsl_rng_max := fun _ => 4294967295%Z;
  gsl_rng_uniform_int := fun g _ => (0%Z, g);
  gsl_rng_uniform_pos := replay_uniform_pos;
  log := fun x => (x - 1)%float;
  floor := fun x => x;
  SIMINF_ERR_NEGATIVE_STATE := (-1)%Z;
  SIMINF_ERR_INVALID_RATE := (-11)%Z;
  SimInf_scheduled_events := unit;
  empty_events := ();
  gsl_rng_uniform_pos_open := replay_uniform_pos_open
|}.

(** No scheduled events: the event processors leave the state alone. *)
#[local] Instance no_events : SimInf_events := {|
  SimInf_split_events := fun l => (0%Z, l);
  SimInf_process_E1_events := fun sa => sa;
  SimInf_process_E2_events := fun l => l;
  SimInf_store_solution_sparse := fun l => l
|}.

(** The conversion of an [int] to [double]. *)
Definition int_to_double (z : Z) : double :=
  if (z <? 0)%Z then (- of_uint63 (Uint63.of_Z (- z)))%float
  else of_uint63 (Uint63.of_Z z).

(** The two propensities of the SISe model (src/models/SISe.c), with
    [u = (S, I)], [v = (phi)] and [gdata = (upsilon, gamma, ...)]. *)
Definition SISe_S_to_I : PropensityFun := fun u v ldata gdata t =>
  (gdata !!! 0%nat * v !!! 0%nat * int_to_double (u !!! 0%nat))%float.

Definition SISe_I_to_S : PropensityFun := fun u v ldata gdata t =>
  (gdata !!! 1%nat * int_to_double (u !!! 1%nat))%float.

(** A post-time-step callback that keeps [phi] and asks for no update. *)
Definition keep_phi : PostTimeStepFun := fun v_new u v ldata gdata node t =>
  (0%Z, v).

(** A post-time-step callback that halves [phi] and asks for an update
    of the rates. *)
Definition decay_phi : PostTimeStepFun := fun v_new u v ldata gdata node t =>
  (1%Z, [(v !!! 0%nat * 0.5)%float]).

(** A post-time-step callback that leaves a NaN in [phi] of node 0 and
    asks for an update there, and fails with code -1 in every other
    node. *)
Definition failing_phi : PostTimeStepFun := fun v_new u v ldata gdata node t =>
  if node =? 0 then (1%Z, [nan]) else ((-1)%Z, v_new).

(** One worker owning two nodes with compartments [counts = (S, I, S, I)]
    on day 0, with [phi = 0.5], [upsilon = 0.5], [gamma = 0.5], before
    the initialisation of the rates. *)
Definition sis_setup_with (pts : PostTimeStepFun) (variates : list double)
    (counts : list Z) : SimInf_thread_args :=
  {| rng := variates;
     Ntot := 2; Ni := 0; Nn := 2; Nt := 2; Nc := 2; Nd := 1; Nld := 0;
     irG := [0; 1; 0; 1]; jcG := [0; 2; 4];
     irS := [0; 1; 0; 1]; jcS := [0; 2; 4]; prS := [-1; 1; 1; -1]%Z;
     tr_fun := [SISe_S_to_I; SISe_I_to_S]; pts_fun := pts;
     tt := 0%float; next_day := 1%float;
     tspan := [0; 1; 2]%float; tlen := 3;
     U_it := 1; V_it := 1;
     u := counts; v := [0.5; 0.5]%float; v_new := [0; 0]%float;
     ldata := []; gdata := [0.5; 0.5]%float;
     update_node := [0; 0]%Z;
     E1 := (); E2 := ();
     t_rate := [0; 0; 0; 0]%float;
     sum_t_rate := [0; 0]%float;
     t_time := [0; 0]%float;
     errcode := 0%Z |}.

(** The worker with the callback that keeps [phi]. *)
Definition sis_setup (variates : list double) (counts : list Z)
    : SimInf_thread_args :=
  sis_setup_with keep_phi variates counts.

(** The same worker once its rates are initialised. *)
Definition sis_worker (variates : list double) (counts : list Z)
    : SimInf_thread_args :=
  init_worker (sis_setup variates counts).

Example sis_worker_rates :
  (sis_worker [] [4; 2; 5; 0]%Z).(t_rate) = [1; 1; 1.25; 0]%float /\
  (sis_worker [] [4; 2; 5; 0]%Z).(sum_t_rate) = [2; 1.25]%float.
Proof. split; reflexivity. Qed.

(** * Properties of the SSA kernel *)



Section KernelProperties.
Context {P : SimInf_platform}.


(** *** The draw of the transition *)

Lemma scan_transition_spec (rates : nat -> double) (Nt : nat) (rand : double)
    (fuel tr : nat) :
  tr <= Nt -> Nt - tr <= fuel ->
  let tr' := scan_transition rates Nt rand fuel tr (cum_rate rates tr) in
  tr <= tr' <= Nt /\
  (forall k, tr <= k < tr' -> (cum_rate rates k <? rand)%float = true) /\
  (tr' < Nt -> (cum_rate rates tr' <? rand)%float = false).
Proof.
  revert tr.
  induction fuel as [|fuel IH]; intros tr Hle Hfuel; cbn [scan_transition].
  - repeat split; lia.
  - destruct (tr <? Nt) eqn:Hlt; cbn [andb].
    + apply Nat.ltb_lt in Hlt.
      destruct (cum_rate rates tr <? rand)%float eqn:Hcum.
      * change (cum_rate rates tr + rates (S tr))%float
          with (cum_rate rates (S tr)).
        destruct (IH (S tr)) as (Hb & Hbelow & Hstop); [lia..|].
        split; [lia|]. split; [|exact Hstop].
        intros k Hk. destruct (decide (k = tr)) as [->|Hne]; [exact Hcum|].
        apply Hbelow. lia.
      * repeat split; try lia. intros _. exact Hcum.
    + apply Nat.ltb_ge in Hlt. repeat split; lia.
Qed.

Lemma walk_back_nearest (rates : nat -> double) (tr1 tr : nat) :
  tr <= tr1 -> (rates tr =? 0)%float = false ->
  (forall k, tr < k <= tr1 -> (rates k =? 0)%float = true) ->
  walk_back rates tr1 = tr.
Proof.
  induction tr1 as [|tr1 IH]; intros Hle Hnz Hz; cbn.
  - lia.
  - destruct (decide (tr = S tr1)) as [->|Hne].
    + rewrite Hnz. reflexivity.
    + rewrite Hz by lia. apply IH; [lia|exact Hnz|].
      intros k Hk. apply Hz. lia.
Qed.

Lemma walk_back_all_zero (rates : nat -> double) (tr1 : nat) :
  (forall k, k <= tr1 -> (rates k =? 0)%float = true) ->
  walk_back rates tr1 = 0.
Proof.
  induction tr1 as [|tr1 IH]; intros Hz; cbn; [reflexivity|].
  rewrite Hz by lia. apply IH. intros k Hk. apply Hz. lia.
Qed.

(** C2, as the code has it.  With [r = U2 * sum_t_rate[node]], the scan
    stops at the first index [tr0] at which [r > cum] no longer holds
    (the first cumulative sum that is at least [r], not the first that
    exceeds it), or at [Nt] when there is none.  Then: an index
    [tr0 >= Nt] is clamped to [Nt - 1]; a selected rate that is not zero
    is kept; a selected rate that is exactly zero makes the draw walk
    back to the nearest index below with a non-zero rate; and when no
    index up to the selected one has a non-zero rate the pass is a nil
    event: [sum_t_rate[node]] is set to 0 and the node's loop is left,
    the compartment counts, the rates and the error code being
    untouched. *)
Theorem draw_transition_floating_point_fix (sa : SimInf_thread_args)
    (node : nat) :
  0 < sa.(Nt) -> node < length sa.(sum_t_rate) ->
  let rates := rate_of sa node in
  let draw := gsl_rng_uniform_pos sa.(rng) in
  let r := (draw.1 * sa.(sum_t_rate) !!! node)%float in
  let tr0 := scan_transition rates sa.(Nt) r sa.(Nt) 0 (rates 0) in
  let tr1 := if sa.(Nt) <=? tr0 then sa.(Nt) - 1 else tr0 in
  (tr0 <= sa.(Nt) /\
   (forall k, k < tr0 -> (cum_rate rates k <? r)%float = true) /\
   (tr0 < sa.(Nt) -> (cum_rate rates tr0 <? r)%float = false)) /\
  (tr1 < sa.(Nt) /\ (tr0 < sa.(Nt) -> tr1 = tr0) /\
   (sa.(Nt) <= tr0 -> tr1 = sa.(Nt) - 1)) /\
  ((rates tr1 =? 0)%float = false ->
     draw_transition rates sa.(Nt) r = Some tr1) /\
  (forall tr, tr <= tr1 -> (rates tr =? 0)%float = false ->
     (forall k, tr < k <= tr1 -> (rates k =? 0)%float = true) ->
     draw_transition rates sa.(Nt) r = Some tr) /\
  ((forall k, k <= tr1 -> (rates k =? 0)%float = true) ->
     draw_transition rates sa.(Nt) r = None /\
     exists sa', fire_transition sa node = (Break, sa') /\
       sa'.(sum_t_rate) !!! node = 0%float /\
       sa'.(u) = sa.(u) /\ sa'.(t_rate) = sa.(t_rate) /\
       sa'.(t_time) = sa.(t_time) /\ sa'.(errcode) = sa.(errcode)).
Proof.
  intros HNt Hnode rates draw r tr0 tr1.
  destruct (scan_transition_spec rates sa.(Nt) r sa.(Nt) 0)
    as (Hb & Hbelow & Hstop); [lia..|].
  change (cum_rate rates 0) with (rates 0) in Hb, Hbelow, Hstop.
  fold tr0 in Hb, Hbelow, Hstop.
  assert (Hdraw : draw_transition rates sa.(Nt) r =
            if (rates tr1 =? 0)%float then
              if (rates (walk_back rates tr1) =? 0)%float then None
              else Some (walk_back rates tr1)
            else Some tr1) by reflexivity.
  split; [|split; [|split; [|split]]].
  - split; [lia|]. split; [|exact Hstop].
    intros k Hk. apply Hbelow. lia.
  - subst tr1. destruct (Nat.leb_spec sa.(Nt) tr0); repeat split; lia.
  - intros Hnz. rewrite Hdraw, Hnz. reflexivity.
  - intros tr Hle Hnz Hz. rewrite Hdraw.
    destruct (rates tr1 =? 0)%float eqn:Hsel.
    + rewrite (walk_back_nearest rates tr1 tr Hle Hnz Hz), Hnz. reflexivity.
    + destruct (decide (tr = tr1)) as [->|Hne]; [reflexivity|].
      rewrite Hz in Hsel by lia. discriminate.
  - intros Hz.
    assert (Hnone : draw_transition rates sa.(Nt) r = None).
    { rewrite Hdraw, (Hz tr1) by lia.
      rewrite (walk_back_all_zero rates tr1 Hz), (Hz 0) by lia.
      reflexivity. }
    split; [exact Hnone|].
    unfold fire_transition. cbn.
    change (rate_of _ node) with rates. fold draw r.
    rewrite Hnone. eexists. split; [reflexivity|]. cbn.
    rewrite list_lookup_total_insert_eq by assumption. auto.
Qed.

(** *** The state change (step 1c) *)

(** Without overflow, [+=] on [int] is the addition of integers. *)
Lemma int_add_exact (a b : Z) :
  (- 2 ^ 31 <= a + b < 2 ^ 31)%Z -> int_add a b = (a + b)%Z.
Proof.
  intros Hrange. unfold int_add, int_wrap.
  rewrite Z.mod_small by lia. lia.
Qed.

(** [sa] with other compartment counts and error code: all that step 1c
    writes. *)
Definition with_state (sa : SimInf_thread_args) (counts : list Z) (e : Z)
    : SimInf_thread_args :=
  set_errcode (set_u sa counts) e.

Lemma with_state_id (sa : SimInf_thread_args) :
  with_state sa sa.(u) sa.(errcode) = sa.
Proof. destruct sa; reflexivity. Qed.

(** The cell of [u] that entry [j] of the state-change matrix addresses
    in [node]. *)
Definition cell (sa : SimInf_thread_args) (node j : nat) : nat :=
  node * sa.(Nc) + sa.(irS) !!! j.

Lemma update_state_entry_with_state (sa : SimInf_thread_args)
    (node j : nat) (counts : list Z) (e : Z) :
  let i := cell sa node j in
  let counts' := <[i := int_add (counts !!! i) (sa.(prS) !!! j)]> counts in
  update_state_entry node (with_state sa counts e) j =
    with_state sa counts'
      (if (counts' !!! i <? 0)%Z then SIMINF_ERR_NEGATIVE_STATE else e).
Proof.
  cbv zeta. unfold update_state_entry, cell. cbn.
  destruct (_ <? 0)%Z; reflexivity.
Qed.

Lemma update_state_fold (sa : SimInf_thread_args) (node : nat)
    (js : list nat) (counts : list Z) (e : Z) :
  NoDup (cell sa node <$> js) ->
  (forall j, j ∈ js -> cell sa node j < length counts) ->
  exists counts' e',
    foldl (update_state_entry node) (with_state sa counts e) js
      = with_state sa counts' e' /\
    length counts' = length counts /\
    (forall j, j ∈ js ->
       counts' !!! cell sa node j
         = int_add (counts !!! cell sa node j) (sa.(prS) !!! j)) /\
    (forall i, (forall j, j ∈ js -> i <> cell sa node j) ->
       counts' !!! i = counts !!! i) /\
    e' = if existsb (fun j => (counts' !!! cell sa node j <? 0)%Z) js
         then SIMINF_ERR_NEGATIVE_STATE else e.
Proof.
  revert counts e.
  induction js as [|j js IH]; intros counts e Hdup Hin; cbn [foldl].
  - exists counts, e. repeat split; auto. intros j Hj. inversion Hj.
  - rewrite fmap_cons in Hdup. apply NoDup_cons in Hdup as [Hj Hdup].
    rewrite update_state_entry_with_state.
    set (i := cell sa node j) in *.
    set (c1 := <[i := int_add (counts !!! i) (sa.(prS) !!! j)]> counts).
    assert (Hi : i < length counts) by (apply Hin; left).
    assert (Hlen1 : length c1 = length counts) by apply length_insert.
    destruct (IH c1 (if (c1 !!! i <? 0)%Z
                     then SIMINF_ERR_NEGATIVE_STATE else e) Hdup)
      as (c' & e' & Heq & Hlen & Hadd & Hkeep & He).
    { intros j' Hj'. rewrite Hlen1. apply Hin. right. exact Hj'. }
    assert (Hci : c' !!! i = int_add (counts !!! i) (sa.(prS) !!! j)).
    { rewrite Hkeep.
      - subst c1. apply list_lookup_total_insert_eq. exact Hi.
      - intros j' Hj' ->. apply Hj. apply list_elem_of_fmap.
        exists j'. split; [reflexivity|exact Hj']. }
    exists c', e'. split; [exact Heq|]. split; [lia|]. split; [|split].
    + intros j' Hj'. apply elem_of_cons in Hj' as [->|Hj']; [exact Hci|].
      rewrite Hadd by exact Hj'. f_equal. subst c1.
      apply list_lookup_total_insert_ne. intros Heq'. apply Hj.
      fold i. rewrite Heq'. apply list_elem_of_fmap.
      exists j'. split; [reflexivity|exact Hj'].
    + intros k Hk. rewrite Hkeep.
      * subst c1. apply list_lookup_total_insert_ne.
        intros Hik. apply (Hk j); [left|symmetry; exact Hik].
      * intros j' Hj'. apply Hk. right. exact Hj'.
    + cbn [existsb]. fold i. rewrite He.
      assert (Hc1 : c1 !!! i = c' !!! i).
      { rewrite Hci. subst c1. apply list_lookup_total_insert_eq. exact Hi. }
      rewrite Hc1.
      destruct (c' !!! i <? 0)%Z; cbn [orb]; [|reflexivity].
      destruct (existsb _ js); reflexivity.
Qed.

(** C3.  Firing transition [tr] in [node] (step 1c) adds column [tr] of
    the state-change matrix, which the solver holds as the triple
    [(irS, jcS, prS)], to the node's counts: every entry [j] of the
    column adds [prS[j]] to the count of row [irS[j]], the other counts
    stay, and the error code becomes NEGATIVE_STATE if some resulting
    count is negative and stays as it was otherwise.  The column is the
    one of the drawn transition: a pass that draws [tr] ends with this
    state change followed by the rate refresh.  The triple of every
    worker is the one the caller passed to the solver. *)
Theorem update_state_adds_column (sa : SimInf_thread_args) (node tr : nat) :
  let js := column sa.(jcS) tr in
  NoDup (cell sa node <$> js) ->
  (forall j, j ∈ js -> cell sa node j < length sa.(u)) ->
  let sa' := update_state sa node tr in
  (forall j, j ∈ js ->
     sa'.(u) !!! cell sa node j
       = int_add (sa.(u) !!! cell sa node j) (sa.(prS) !!! j)) /\
  (forall i, (forall j, j ∈ js -> i <> cell sa node j) ->
     sa'.(u) !!! i = sa.(u) !!! i) /\
  length sa'.(u) = length sa.(u) /\
  ((exists j, j ∈ js /\ (sa'.(u) !!! cell sa node j < 0)%Z) ->
     sa'.(errcode) = SIMINF_ERR_NEGATIVE_STATE) /\
  ((forall j, j ∈ js -> (0 <= sa'.(u) !!! cell sa node j)%Z) ->
     sa'.(errcode) = sa.(errcode)) /\
  (sa'.(t_rate) = sa.(t_rate) /\ sa'.(sum_t_rate) = sa.(sum_t_rate) /\
   sa'.(t_time) = sa.(t_time)) /\
  (let draw := gsl_rng_uniform_pos sa.(rng) in
   draw_transition (rate_of sa node) sa.(Nt)
     (draw.1 * sa.(sum_t_rate) !!! node)%float = Some tr ->
   fire_transition sa node =
     (Continue,
      refresh_rates (update_state (set_rng sa draw.2) node tr) node tr)) /\
  (forall args i g,
     (setup_thread args i g).(irS) = args.(Args.irS) /\
     (setup_thread args i g).(jcS) = args.(Args.jcS) /\
     (setup_thread args i g).(prS) = args.(Args.prS)).
Proof.
  intros js Hdup Hin sa'.
  destruct (update_state_fold sa node js sa.(u) sa.(errcode) Hdup Hin)
    as (c' & e' & Heq & Hlen & Hadd & Hkeep & He).
  rewrite with_state_id in Heq.
  assert (Hsa' : sa' = with_state sa c' e') by exact Heq.
  rewrite Hsa'. cbn.
  split; [exact Hadd|]. split; [exact Hkeep|]. split; [exact Hlen|].
  split; [|split; [|split]].
  - intros (j & Hj & Hneg). rewrite He.
    replace (existsb _ js) with true; [reflexivity|].
    symmetry. apply existsb_exists. exists j.
    split; [apply list_elem_of_In; exact Hj|]. apply Z.ltb_lt. exact Hneg.
  - intros Hpos. rewrite He.
    replace (existsb _ js) with false; [reflexivity|].
    symmetry. apply not_true_is_false. intros Hex.
    apply existsb_exists in Hex as (j & Hj & Hneg).
    apply Z.ltb_lt in Hneg. apply list_elem_of_In in Hj.
    specialize (Hpos j Hj). lia.
  - auto.
  - split; [|intros args i g; repeat split].
    intros Hdraw. unfold fire_transition. cbn.
    change (rate_of _ node) with (rate_of sa node).
    rewrite Hdraw. reflexivity.
Qed.

(** *** Recomputing cached rates (steps 1d and 4) *)

(** [sa] with other cached rates and error code. *)
Definition with_rates (sa : SimInf_thread_args) (rates : list double) (e : Z)
    : SimInf_thread_args :=
  set_errcode (set_t_rate sa rates) e.

Lemma with_rates_id (sa : SimInf_thread_args) :
  with_rates sa sa.(t_rate) sa.(errcode) = sa.
Proof. destruct sa; reflexivity. Qed.

(** What one pass of a refresh loop does to the cached rates [acc.1.1]
    of a node whose rates start at [base], to the error code [acc.1.2]
    and to [delta], when it recomputes transition [i] and the propensity
    returns [new i]. *)
Definition recompute_step (new : nat -> double) (base : nat)
    (acc : list double * Z * double) (i : nat) : list double * Z * double :=
  (<[base + i := new i]> acc.1.1,
   if invalid_rate (new i) then SIMINF_ERR_INVALID_RATE else acc.1.2,
   (acc.2 + (new i - acc.1.1 !!! (base + i)%nat))%float).

Lemma recompute_fold_spec (new : nat -> double) (base : nat)
    (l : list nat) (rates : list double) (e : Z) (d : double) :
  let r := foldl (recompute_step new base) (rates, e, d) l in
  length r.1.1 = length rates /\
  (forall i, i ∈ l -> base + i < length rates ->
     r.1.1 !!! (base + i) = new i) /\
  (forall k, (forall i, i ∈ l -> k <> base + i) ->
     r.1.1 !!! k = rates !!! k) /\
  r.1.2 = (if existsb (fun i => invalid_rate (new i)) l
           then SIMINF_ERR_INVALID_RATE else e) /\
  (NoDup l ->
   r.2 = foldl (fun d i => (d + (new i - rates !!! (base + i)%nat))%float) d l).
Proof.
  revert rates e d.
  induction l as [|i0 l IH]; intros rates e d; cbv zeta; cbn [foldl].
  - cbn. repeat split; auto. intros i Hi. inversion Hi.
  - set (rates1 := <[base + i0 := new i0]> rates).
    set (e1 := if invalid_rate (new i0) then SIMINF_ERR_INVALID_RATE else e).
    set (d1 := (d + (new i0 - rates !!! (base + i0)%nat))%float).
    change (recompute_step new base (rates, e, d) i0) with (rates1, e1, d1).
    destruct (IH rates1 e1 d1) as (Hlen & Hnew & Hkeep & He & Hd).
    assert (Hlen1 : length rates1 = length rates) by apply length_insert.
    split; [lia|]. split; [|split; [|split]].
    + intros i Hi Hrange.
      destruct (decide (i ∈ l)) as [Hil|Hil].
      * apply Hnew; [exact Hil|lia].
      * apply elem_of_cons in Hi as [->|Hi]; [|contradiction].
        rewrite Hkeep.
        -- subst rates1. apply list_lookup_total_insert_eq. exact Hrange.
        -- intros i Hi Heq. apply Hil.
           replace i0 with i by lia. exact Hi.
    + intros k Hk. rewrite Hkeep.
      * subst rates1. apply list_lookup_total_insert_ne.
        intros Heq. apply (Hk i0); [left|symmetry; exact Heq].
      * intros i Hi. apply Hk. right. exact Hi.
    + rewrite He. cbn [existsb]. subst e1.
      destruct (invalid_rate (new i0)); cbn [orb]; [|reflexivity].
      destruct (existsb _ l); reflexivity.
    + intros Hdup. apply NoDup_cons in Hdup as [Hi0 Hdup].
      rewrite (Hd Hdup). generalize d1.
      clear -Hi0. revert Hi0.
      induction l as [|i l IHl]; intros Hi0 d'; cbn [foldl]; [reflexivity|].
      assert (i0 <> i) by (intros ->; apply Hi0; left).
      subst rates1. rewrite list_lookup_total_insert_ne by lia.
      apply IHl. intros Hin. apply Hi0. right. exact Hin.
Qed.

(** The value the propensity of transition [i] returns in step 1d. *)
Definition refreshed_rate (sa : SimInf_thread_args) (node i : nat) : double :=
  call_tr_fun sa i node sa.(v) (sa.(t_time) !!! node).

Lemma refresh_entry_step (sa : SimInf_thread_args) (node j : nat)
    (rates : list double) (e : Z) (d : double) :
  refresh_entry node (with_rates sa rates e, d) j =
    (with_rates sa
       (recompute_step (refreshed_rate sa node) (node * sa.(Nt))
          (rates, e, d) (sa.(irG) !!! j)).1.1
       (recompute_step (refreshed_rate sa node) (node * sa.(Nt))
          (rates, e, d) (sa.(irG) !!! j)).1.2,
     (recompute_step (refreshed_rate sa node) (node * sa.(Nt))
        (rates, e, d) (sa.(irG) !!! j)).2).
Proof.
  unfold refresh_entry, recompute_step, check_rate. cbn.
  destruct (invalid_rate _); reflexivity.
Qed.

Lemma refresh_fold (sa : SimInf_thread_args) (node : nat) (js : list nat)
    (rates : list double) (e : Z) (d : double) :
  foldl (refresh_entry node) (with_rates sa rates e, d) js =
    (with_rates sa
       (foldl (recompute_step (refreshed_rate sa node) (node * sa.(Nt)))
          (rates, e, d) ((sa.(irG) !!!.) <$> js)).1.1
       (foldl (recompute_step (refreshed_rate sa node) (node * sa.(Nt)))
          (rates, e, d) ((sa.(irG) !!!.) <$> js)).1.2,
     (foldl (recompute_step (refreshed_rate sa node) (node * sa.(Nt)))
        (rates, e, d) ((sa.(irG) !!!.) <$> js)).2).
Proof.
  revert rates e d. induction js as [|j js IH]; intros rates e d.
  - reflexivity.
  - rewrite fmap_cons. cbn [foldl].
    rewrite refresh_entry_step, IH. reflexivity.
Qed.

(** C4.  The refresh after transition [tr] has fired in [node] (step
    1d) recomputes, at the node's current time [t_time[node]], exactly
    the propensities whose row indices [irG[j]] are listed in column
    [tr] of the dependency graph [(irG, jcG)]: each new value replaces
    the cached rate, every other cached rate stays, and the sum of the
    differences new minus old over the listed entries, accumulated from
    0.0 in the order of the column, is added to [sum_t_rate[node]]. *)
Theorem refresh_rates_dependency_graph (sa : SimInf_thread_args)
    (node tr : nat) :
  let rows := (sa.(irG) !!!.) <$> column sa.(jcG) tr in
  NoDup rows ->
  (forall i, i ∈ rows -> node * sa.(Nt) + i < length sa.(t_rate)) ->
  node < length sa.(sum_t_rate) ->
  let sa' := refresh_rates sa node tr in
  (forall i, i ∈ rows -> rate_of sa' node i = refreshed_rate sa node i) /\
  (forall k, (forall i, i ∈ rows -> k <> node * sa.(Nt) + i) ->
     sa'.(t_rate) !!! k = sa.(t_rate) !!! k) /\
  (forall i, i ∉ rows -> rate_of sa' node i = rate_of sa node i) /\
  sa'.(sum_t_rate) !!! node =
    (sa.(sum_t_rate) !!! node +
     foldl (fun d i => (d + (refreshed_rate sa node i - rate_of sa node i))%float)
       0%float rows)%float /\
  (forall m, m <> node -> sa'.(sum_t_rate) !!! m = sa.(sum_t_rate) !!! m) /\
  (sa'.(u) = sa.(u) /\ sa'.(v) = sa.(v) /\ sa'.(t_time) = sa.(t_time)).
Proof.
  intros rows Hdup Hrange Hnode sa'.
  assert (Hsa' : sa' =
    let r := foldl (recompute_step (refreshed_rate sa node) (node * sa.(Nt)))
               (sa.(t_rate), sa.(errcode), 0%float) rows in
    set_sum_t_rate (with_rates sa r.1.1 r.1.2)
      (<[node := (sa.(sum_t_rate) !!! node + r.2)%float]> sa.(sum_t_rate))).
  { subst sa'. unfold refresh_rates.
    pose proof (refresh_fold sa node (column sa.(jcG) tr)
                  sa.(t_rate) sa.(errcode) 0%float) as Hfold.
    rewrite with_rates_id in Hfold. rewrite Hfold. reflexivity. }
  cbv zeta in Hsa'.
  destruct (recompute_fold_spec (refreshed_rate sa node) (node * sa.(Nt))
              rows sa.(t_rate) sa.(errcode) 0%float)
    as (Hlen & Hnew & Hkeep & He & Hd).
  rewrite Hsa'. unfold rate_of. cbn.
  split; [|split; [|split; [|split; [|split]]]].
  - intros i Hi. apply Hnew; [exact Hi|]. apply Hrange. exact Hi.
  - exact Hkeep.
  - intros i Hi. apply Hkeep. intros i' Hi' Heq.
    apply Hi. replace i with i' by lia. exact Hi'.
  - rewrite list_lookup_total_insert_eq by exact Hnode.
    rewrite (Hd Hdup). reflexivity.
  - intros m Hm. apply list_lookup_total_insert_ne. auto.
  - auto.
Qed.

(** *** The post-time-step phase (step 4) *)

(** The value the propensity of transition [j] returns in the full
    refresh of step (4): it reads [v_new] and the global time. *)
Definition post_rate (sa : SimInf_thread_args) (node j : nat) : double :=
  call_tr_fun sa j node sa.(v_new) sa.(tt).

Lemma refresh_all_entry_step (sa : SimInf_thread_args) (node j : nat)
    (rates : list double) (e : Z) (d : double) :
  refresh_all_entry node (with_rates sa rates e, d) j =
    (with_rates sa
       (recompute_step (post_rate sa node) (node * sa.(Nt))
          (rates, e, d) j).1.1
       (recompute_step (post_rate sa node) (node * sa.(Nt))
          (rates, e, d) j).1.2,
     (recompute_step (post_rate sa node) (node * sa.(Nt))
        (rates, e, d) j).2).
Proof.
  unfold refresh_all_entry, recompute_step, check_rate. cbn.
  destruct (invalid_rate _); reflexivity.
Qed.

Lemma refresh_all_fold (sa : SimInf_thread_args) (node : nat)
    (js : list nat) (rates : list double) (e : Z) (d : double) :
  foldl (refresh_all_entry node) (with_rates sa rates e, d) js =
    (with_rates sa
       (foldl (recompute_step (post_rate sa node) (node * sa.(Nt)))
          (rates, e, d) js).1.1
       (foldl (recompute_step (post_rate sa node) (node * sa.(Nt)))
          (rates, e, d) js).1.2,
     (foldl (recompute_step (post_rate sa node) (node * sa.(Nt)))
        (rates, e, d) js).2).
Proof.
  revert rates e d. induction js as [|j js IH]; intros rates e d.
  - reflexivity.
  - cbn [foldl]. rewrite refresh_all_entry_step, IH. reflexivity.
Qed.

Lemma refresh_all_eq (sa : SimInf_thread_args) (node : nat) :
  refresh_all sa node =
    set_update_node
      (set_sum_t_rate
         (with_rates sa
            (foldl (recompute_step (post_rate sa node) (node * sa.(Nt)))
               (sa.(t_rate), sa.(errcode), 0%float) (seq 0 sa.(Nt))).1.1
            (foldl (recompute_step (post_rate sa node) (node * sa.(Nt)))
               (sa.(t_rate), sa.(errcode), 0%float) (seq 0 sa.(Nt))).1.2)
         (<[node := (sa.(sum_t_rate) !!! node +
                     (foldl (recompute_step (post_rate sa node)
                               (node * sa.(Nt)))
                        (sa.(t_rate), sa.(errcode), 0%float)
                        (seq 0 sa.(Nt))).2)%float]> sa.(sum_t_rate)))
      (<[node := 0%Z]> sa.(update_node)).
Proof.
  unfold refresh_all.
  pose proof (refresh_all_fold sa node (seq 0 sa.(Nt))
                sa.(t_rate) sa.(errcode) 0%float) as Hfold.
  rewrite with_rates_id in Hfold. rewrite Hfold. reflexivity.
Qed.

(** C9.  The post-time-step phase at [node], the first of the nodes
    still to visit.  With [rc] the return code of the callback:
    [rc < 0] makes [rc] the worker's error code and ends the loop over
    the nodes (the nodes [rest] are not visited); otherwise [rc > 0] or
    a set [update_node[node]] recomputes all [Nt] propensities of the
    node, adds the accumulated differences new minus old to
    [sum_t_rate[node]] and resets [update_node[node]] to 0; and
    [rc = 0] with a clear flag leaves the cached rates, their sum and
    the flag as they were.  In the last two cases the loop goes on with
    the next node. *)
Theorem post_nodes_callback (sa : SimInf_thread_args) (node : nat)
    (rest : list nat) :
  let rc := (call_pts_fun sa node).1 in
  let sa1 := (call_pts_fun sa node).2 in
  (forall j, j < sa.(Nt) -> node * sa.(Nt) + j < length sa.(t_rate)) ->
  node < length sa.(sum_t_rate) ->
  node < length sa.(update_node) ->
  ((rc < 0)%Z ->
     post_nodes sa (node :: rest) = set_errcode sa1 rc /\
     (post_nodes sa (node :: rest)).(errcode) = rc /\
     (post_nodes sa (node :: rest)).(t_rate) = sa.(t_rate) /\
     (post_nodes sa (node :: rest)).(sum_t_rate) = sa.(sum_t_rate)) /\
  ((0 <= rc)%Z -> (0 < rc)%Z \/ sa.(update_node) !!! node <> 0%Z ->
     let sa2 := refresh_all sa1 node in
     post_nodes sa (node :: rest) = post_nodes sa2 rest /\
     (forall j, j < sa.(Nt) -> rate_of sa2 node j = post_rate sa1 node j) /\
     sa2.(sum_t_rate) !!! node =
       (sa.(sum_t_rate) !!! node +
        foldl (fun d j => (d + (post_rate sa1 node j - rate_of sa node j))%float)
          0%float (seq 0 sa.(Nt)))%float /\
     sa2.(update_node) !!! node = 0%Z /\
     sa2.(u) = sa.(u) /\ sa2.(v_new) = sa1.(v_new)) /\
  (rc = 0%Z -> sa.(update_node) !!! node = 0%Z ->
     post_nodes sa (node :: rest) = post_nodes sa1 rest /\
     sa1.(t_rate) = sa.(t_rate) /\ sa1.(sum_t_rate) = sa.(sum_t_rate) /\
     sa1.(update_node) = sa.(update_node) /\ sa1.(errcode) = sa.(errcode)).
Proof.
  intros rc sa1 Hrange Hnode Hflag.
  assert (Hstep : post_nodes sa (node :: rest) =
            if (rc <? 0)%Z then set_errcode sa1 rc
            else if (0 <? rc)%Z || negb (sa.(update_node) !!! node =? 0)%Z
                 then post_nodes (refresh_all sa1 node) rest
                 else post_nodes sa1 rest) by reflexivity.
  assert (Hframe : sa1.(Nt) = sa.(Nt) /\ sa1.(t_rate) = sa.(t_rate) /\
            sa1.(sum_t_rate) = sa.(sum_t_rate) /\
            sa1.(update_node) = sa.(update_node) /\
            sa1.(errcode) = sa.(errcode) /\ sa1.(u) = sa.(u))
    by (repeat split; reflexivity).
  destruct Hframe as (HNt & Hrates & Hsum & Hupdn & Herr & Hu).
  clearbody sa1 rc.
  split; [|split].
  - intros Hrc. rewrite Hstep.
    replace (rc <? 0)%Z with true by (symmetry; apply Z.ltb_lt; exact Hrc).
    cbn. auto.
  - intros Hrc Hupd. cbv zeta. rewrite Hstep.
    replace (rc <? 0)%Z with false by (symmetry; apply Z.ltb_ge; exact Hrc).
    replace ((0 <? rc)%Z || negb (sa.(update_node) !!! node =? 0)%Z)
      with true.
    2:{ symmetry. apply orb_true_iff. destruct Hupd as [Hpos|Hset].
        - left. apply Z.ltb_lt. exact Hpos.
        - right. apply negb_true_iff, Z.eqb_neq. exact Hset. }
    split; [reflexivity|].
    rewrite refresh_all_eq.
    destruct (recompute_fold_spec (post_rate sa1 node) (node * sa1.(Nt))
                (seq 0 sa1.(Nt)) sa1.(t_rate) sa1.(errcode) 0%float)
      as (Hlen & Hnew & Hkeep & He & Hd).
    unfold rate_of. cbn. rewrite HNt, Hrates, Hsum, Hupdn in *.
    split; [|split; [|split]].
    + intros j Hj. apply Hnew; [apply elem_of_seq; lia|].
      apply Hrange. exact Hj.
    + rewrite list_lookup_total_insert_eq by exact Hnode.
      rewrite (Hd (NoDup_seq _ _)). reflexivity.
    + apply list_lookup_total_insert_eq. exact Hflag.
    + auto.
  - intros Hrc Hclear. rewrite Hstep, Hrc, Hclear. cbn. auto.
Qed.

End KernelProperties.

(** * The static node partition *)

Section Partition.
Context {P : SimInf_platform}.

Lemma length_child_rngs (master : gsl_rng) (n : nat) :
  length (child_rngs master n) = n.
Proof.
  revert master. induction n as [|n IH]; intros master; cbn; [reflexivity|].
  rewrite IH. reflexivity.
Qed.

Lemma setup_threads_lookup (args : Args.SimInf_solver_args) (i : nat) :
  i < args.(Args.Nthread) ->
  exists g, setup_threads args !! i = Some (setup_thread args i g).
Proof.
  intros Hi. unfold setup_threads.
  destruct (lookup_lt_is_Some_2
              (child_rngs (gsl_rng_set args.(Args.seed)) args.(Args.Nthread)) i)
    as [g Hg]; [rewrite length_child_rngs; exact Hi|].
  exists g. apply lookup_zip_with_Some. exists i, g.
  split; [reflexivity|]. split; [|exact Hg].
  apply lookup_seq. split; [reflexivity|exact Hi].
Qed.

(** The generators of the workers are those derived, in the order of
    the workers, from the master generator seeded with [seed]: they
    depend on the seed and on the number of workers only. *)
Lemma setup_threads_rngs (args : Args.SimInf_solver_args) :
  rng <$> setup_threads args =
    child_rngs (gsl_rng_set args.(Args.seed)) args.(Args.Nthread).
Proof.
  assert (Hzip : forall n start (l : list gsl_rng), length l = n ->
            rng <$> zip_with (setup_thread args) (seq start n) l = l).
  { intros n. induction n as [|n IH]; intros start l Hlen.
    - destruct l; [reflexivity|discriminate].
    - destruct l as [|g l]; [discriminate|]. cbn.
      f_equal. apply IH. cbn in Hlen. lia. }
  apply Hzip, length_child_rngs.
Qed.

(** C8.  The set-up gives worker [i] of [Nthread >= 1] workers the
    nodes from [Ni = i * (Nn / Nthread)] up to, but not including,
    [Ni + Nn_i]: for every worker but the last this is the range
    [[i * (Nn / Nthread), (i + 1) * (Nn / Nthread))] of
    [Nn / Nthread] nodes (the quotient of the integer division), and the
    last worker also takes the [Nn % Nthread] remaining nodes, so that
    its range ends at [Nn].  The ranges start at 0, each begins where
    the previous one ends, they are pairwise disjoint, and every node of
    [[0, Nn)] lies in the range of exactly one worker. *)
Theorem node_partition (args : Args.SimInf_solver_args) :
  let n := args.(Args.Nn) in
  let nthread := args.(Args.Nthread) in
  let lo := partition_Ni n nthread in
  let hi := fun i => lo i + partition_Nn n nthread i in
  0 < nthread ->
  (length (setup_threads args) = nthread /\
   forall i, i < nthread ->
     exists sa, setup_threads args !! i = Some sa /\
       sa.(Ni) = lo i /\ sa.(Ni) + sa.(Nn) = hi i) /\
  (forall i, i < nthread - 1 ->
     lo i = i * (n / nthread) /\ hi i = (i + 1) * (n / nthread)) /\
  (lo (nthread - 1) = (nthread - 1) * (n / nthread) /\
   partition_Nn n nthread (nthread - 1) = n / nthread + n mod nthread /\
   hi (nthread - 1) = n) /\
  lo 0 = 0 /\
  (forall i, i + 1 < nthread -> hi i = lo (i + 1)) /\
  (forall i i', i < i' < nthread -> hi i <= lo i') /\
  (forall node, node < n ->
     exists i, i < nthread /\ lo i <= node < hi i /\
       forall i', i' < nthread -> lo i' <= node < hi i' -> i' = i).
Proof.
  intros n nthread lo hi Hpos.
  pose proof (Nat.div_mod_eq n nthread) as Hdm.
  pose proof (Nat.mod_upper_bound n nthread ltac:(lia)) as Hmod.
  set (q := n / nthread) in *. set (r := n mod nthread) in *.
  assert (Hlo : forall i, lo i = i * q) by reflexivity.
  assert (Hhi_inner : forall i, i < nthread - 1 -> hi i = (i + 1) * q).
  { intros i Hi. unfold hi, partition_Nn. fold q. rewrite Hlo.
    destruct (Nat.eqb_spec i (nthread - 1)); lia. }
  assert (Hhi_last : hi (nthread - 1) = n).
  { unfold hi, partition_Nn. fold q r. rewrite Hlo, Nat.eqb_refl. nia. }
  assert (Hdisj : forall i i', i < i' < nthread -> hi i <= lo i').
  { intros i i' Hii. rewrite Hhi_inner, Hlo by lia. nia. }
  assert (Hle : forall i, i < nthread -> lo i <= hi i) by (intros; unfold hi; lia).
  split; [|split; [|split; [|split; [|split; [|split]]]]].
  - split.
    + unfold setup_threads. rewrite length_zip_with, length_seq.
      rewrite length_child_rngs. apply Nat.min_id.
    + intros i Hi. destruct (setup_threads_lookup args i Hi) as [g Hg].
      eexists. split; [exact Hg|]. split; reflexivity.
  - intros i Hi. split; [apply Hlo|apply Hhi_inner; exact Hi].
  - split; [apply Hlo|]. split; [|exact Hhi_last].
    unfold partition_Nn. rewrite Nat.eqb_refl. reflexivity.
  - apply Hlo.
  - intros i Hi. rewrite Hhi_inner, Hlo by lia. reflexivity.
  - exact Hdisj.
  - intros node Hnode.
    assert (Hex : exists i, i < nthread /\ lo i <= node < hi i).
    { destruct (decide (node < (nthread - 1) * q)) as [Hin|Hin].
      - exists (node / q). assert (0 < q) by nia.
        pose proof (Nat.div_mod_eq node q).
        pose proof (Nat.mod_upper_bound node q ltac:(lia)).
        assert (node / q < nthread - 1) by (apply Nat.Div0.div_lt_upper_bound; nia).
        rewrite Hhi_inner, Hlo by lia. split; [lia|]. nia.
      - exists (nthread - 1). rewrite Hhi_last, Hlo. split; [lia|]. lia. }
    destruct Hex as (i & Hi & Hrange). exists i.
    split; [exact Hi|]. split; [exact Hrange|].
    intros i' Hi' Hrange'.
    destruct (Nat.lt_trichotomy i' i) as [Hlt|[Heq|Hgt]]; [|exact Heq|].
    + pose proof (Hdisj i' i ltac:(lia)). lia.
    + pose proof (Hdisj i i' ltac:(lia)). lia.
Qed.

End Partition.

(** * The dense sampler and the main loop *)

Section SamplerProperties.
Context {P : SimInf_platform}.

(** The fields no step of the solver itself writes, but the sampler's
    cursors. *)
Definition layout (sa : SimInf_thread_args)
    : nat * nat * nat * nat * nat * nat * list double * nat :=
  (sa.(Ntot), sa.(Ni), sa.(Nn), sa.(Nt), sa.(Nc), sa.(Nd),
   sa.(tspan), sa.(tlen)).

(** The sampler's cursors. *)
Definition cursors (sa : SimInf_thread_args) : nat * nat :=
  (sa.(U_it), sa.(V_it)).

Lemma foldl_invariant {A B : Type} (I : A -> Prop) (f : A -> B -> A)
    (l : list B) (a : A) :
  (forall a b, I a -> I (f a b)) -> I a -> I (foldl f a l).
Proof.
  intros Hf. revert a. induction l as [|b l IH]; intros a Ha; cbn; auto.
Qed.

Lemma check_rate_frame (sa : SimInf_thread_args) (rate : double) :
  layout (check_rate sa rate) = layout sa /\
  cursors (check_rate sa rate) = cursors sa /\
  (check_rate sa rate).(u) = sa.(u) /\
  (check_rate sa rate).(v) = sa.(v) /\
  (check_rate sa rate).(v_new) = sa.(v_new).
Proof. unfold check_rate. destruct (invalid_rate rate); auto. Qed.

(** What the SSA phase leaves alone: the layout, the cursors and the
    continuous state. *)
Definition ssa_frame (sa sa' : SimInf_thread_args) : Prop :=
  layout sa' = layout sa /\ cursors sa' = cursors sa /\
  sa'.(v) = sa.(v) /\ sa'.(v_new) = sa.(v_new).

Lemma ssa_frame_refl (sa : SimInf_thread_args) : ssa_frame sa sa.
Proof. repeat split. Qed.

Lemma ssa_frame_trans (sa1 sa2 sa3 : SimInf_thread_args) :
  ssa_frame sa1 sa2 -> ssa_frame sa2 sa3 -> ssa_frame sa1 sa3.
Proof.
  intros (H1 & H2 & H3 & H4) (H1' & H2' & H3' & H4').
  repeat split; congruence.
Qed.

Lemma init_worker_frame (sa : SimInf_thread_args) :
  ssa_frame sa (init_worker sa).
Proof.
  unfold init_worker. apply foldl_invariant; [|apply ssa_frame_refl].
  intros a node Ha. eapply ssa_frame_trans; [exact Ha|].
  unfold init_node.
  set (a0 := set_sum_t_rate a _).
  assert (H0 : ssa_frame a (foldl (init_rate node) a0 (seq 0 a0.(Nt)))).
  { apply foldl_invariant; [|repeat split].
    intros b j Hb. eapply ssa_frame_trans; [exact Hb|].
    unfold init_rate.
    destruct (check_rate_frame
      (set_sum_t_rate (set_t_rate b
         (<[node * b.(Nt) + j := call_tr_fun b j node b.(v) b.(tt)]> b.(t_rate)))
         (<[node := (b.(sum_t_rate) !!! node +
                     call_tr_fun b j node b.(v) b.(tt))%float]> b.(sum_t_rate)))
      (call_tr_fun b j node b.(v) b.(tt))) as (H1 & H2 & _ & H3 & H4).
    repeat split; assumption. }
  destruct H0 as (H1 & H2 & H3 & H4). repeat split; assumption.
Qed.

Lemma update_state_frame (sa : SimInf_thread_args) (node tr : nat) :
  ssa_frame sa (update_state sa node tr).
Proof.
  unfold update_state. apply foldl_invariant; [|apply ssa_frame_refl].
  intros a j Ha. eapply ssa_frame_trans; [exact Ha|].
  unfold update_state_entry. destruct (_ <? 0)%Z; repeat split.
Qed.

Lemma refresh_rates_frame (sa : SimInf_thread_args) (node tr : nat) :
  ssa_frame sa (refresh_rates sa node tr).
Proof.
  unfold refresh_rates.
  assert (H0 : ssa_frame sa
            (foldl (refresh_entry node) (sa, 0%float) (column sa.(jcG) tr)).1).
  { apply (foldl_invariant (fun acc => ssa_frame sa acc.1));
      [|apply ssa_frame_refl].
    intros a j Ha. eapply ssa_frame_trans; [exact Ha|].
    unfold refresh_entry. cbn [fst].
    match goal with |- ssa_frame _ (check_rate ?x ?r) =>
      destruct (check_rate_frame x r) as (H1 & H2 & _ & H3 & H4) end.
    repeat split; assumption. }
  destruct H0 as (H1 & H2 & H3 & H4). repeat split; assumption.
Qed.

Lemma ssa_step_frame (sa : SimInf_thread_args) (node : nat) :
  ssa_frame sa (ssa_step sa node).2.
Proof.
  unfold ssa_step. destruct (_ <=? 0)%float; [repeat split|].
  destruct (_ <=? _)%float; [repeat split|].
  unfold fire_transition. destruct (draw_transition _ _ _); [|repeat split].
  cbn [snd]. eapply ssa_frame_trans; [|apply refresh_rates_frame].
  eapply ssa_frame_trans; [|apply update_state_frame]. repeat split.
Qed.

Lemma ssa_node_frame (fuel : nat) (sa sa' : SimInf_thread_args)
    (node : nat) :
  ssa_node fuel sa node = Some sa' -> ssa_frame sa sa'.
Proof.
  revert sa. induction fuel as [|fuel IH]; intros sa; cbn; [discriminate|].
  pose proof (ssa_step_frame sa node) as Hstep.
  destruct (ssa_step sa node) as [[|] sa1]; cbn [snd] in Hstep.
  - intros [= <-]. exact Hstep.
  - intros Hrun. eapply ssa_frame_trans; [exact Hstep|]. apply IH. exact Hrun.
Qed.

Lemma ssa_nodes_frame (fuel : nat) (nodes : list nat)
    (sa sa' : SimInf_thread_args) :
  ssa_nodes fuel sa nodes = Some sa' -> ssa_frame sa sa'.
Proof.
  revert sa. induction nodes as [|node nodes IH]; intros sa; cbn.
  - intros [= <-]. apply ssa_frame_refl.
  - destruct (_ =? 0)%Z; [|intros [= <-]; apply ssa_frame_refl].
    destruct (ssa_node fuel sa node) as [sa1|] eqn:Hnode; [|discriminate].
    intros Hrun. eapply ssa_frame_trans.
    + eapply ssa_node_frame. exact Hnode.
    + apply IH. exact Hrun.
Qed.

(** What the post-time-step phase leaves alone: the layout, the
    cursors, the counts, the current continuous state, the clock and the
    size of [v_new]. *)
Definition post_frame (sa sa' : SimInf_thread_args) : Prop :=
  layout sa' = layout sa /\ cursors sa' = cursors sa /\
  sa'.(u) = sa.(u) /\ sa'.(v) = sa.(v) /\
  sa'.(tt) = sa.(tt) /\ sa'.(next_day) = sa.(next_day) /\
  length sa'.(v_new) = length sa.(v_new).

Lemma post_frame_refl (sa : SimInf_thread_args) : post_frame sa sa.
Proof. repeat split. Qed.

Lemma post_frame_trans (sa1 sa2 sa3 : SimInf_thread_args) :
  post_frame sa1 sa2 -> post_frame sa2 sa3 -> post_frame sa1 sa3.
Proof.
  intros (H1 & H2 & H3 & H4 & H5 & H6 & H7)
         (H1' & H2' & H3' & H4' & H5' & H6' & H7').
  repeat split; congruence.
Qed.

Lemma call_pts_fun_frame (sa : SimInf_thread_args) (node : nat) :
  post_frame sa (call_pts_fun sa node).2.
Proof.
  unfold call_pts_fun. cbn. repeat split. apply length_inserts.
Qed.

Lemma refresh_all_frame (sa : SimInf_thread_args) (node : nat) :
  post_frame sa (refresh_all sa node) /\
  (refresh_all sa node).(v_new) = sa.(v_new).
Proof.
  rewrite refresh_all_eq. cbn. repeat split.
Qed.

Lemma post_nodes_frame (nodes : list nat) (sa : SimInf_thread_args) :
  post_frame sa (post_nodes sa nodes).
Proof.
  revert sa. induction nodes as [|node nodes IH]; intros sa; cbn [post_nodes].
  - apply post_frame_refl.
  - pose proof (call_pts_fun_frame sa node) as Hcall.
    destruct (call_pts_fun sa node) as [rc sa1]. cbn [fst snd] in *.
    destruct (rc <? 0)%Z.
    + eapply post_frame_trans; [exact Hcall|]. repeat split.
    + destruct (_ || _).
      * eapply post_frame_trans; [exact Hcall|].
        eapply post_frame_trans; [apply refresh_all_frame|]. apply IH.
      * eapply post_frame_trans; [exact Hcall|]. apply IH.
Qed.

(** *** The sampling loops *)

(** The loop of [sample_U] and [sample_V] on its own: the cursor [it]
    and the matrix [M], to which the rows [src] of the worker are copied
    at offset [base it] of column [it]. *)
Fixpoint sample_loop {A : Type} (tspan : list double) (tlen : nat)
    (tt : double) (base : nat -> nat) (src : list A) (fuel it : nat)
    (M : list A) : nat * list A :=
  match fuel with
  | 0 => (it, M)
  | S fuel' =>
      if (it <? tlen) && (tspan !!! it <? tt)%float
      then sample_loop tspan tlen tt base src fuel' (S it)
             (list_inserts (base it) src M)
      else (it, M)
  end.

Lemma sample_U_loop (fuel : nat) (sa : SimInf_thread_args) (it : nat)
    (Um : list Z) :
  sample_U fuel (set_U_it sa it) Um =
    (set_U_it sa
       (sample_loop sa.(tspan) sa.(tlen) sa.(tt)
          (fun k => sa.(Nc) * (sa.(Ntot) * k + sa.(Ni)))
          (take (sa.(Nn) * sa.(Nc)) sa.(u)) fuel it Um).1,
     (sample_loop sa.(tspan) sa.(tlen) sa.(tt)
        (fun k => sa.(Nc) * (sa.(Ntot) * k + sa.(Ni)))
        (take (sa.(Nn) * sa.(Nc)) sa.(u)) fuel it Um).2).
Proof.
  revert it Um. induction fuel as [|fuel IH]; intros it Um.
  - reflexivity.
  - cbn [sample_U sample_loop].
    change ((set_U_it sa it).(U_it)) with it.
    change ((set_U_it sa it).(tlen)) with sa.(tlen).
    change ((set_U_it sa it).(tspan)) with sa.(tspan).
    change ((set_U_it sa it).(tt)) with sa.(tt).
    destruct ((it <? sa.(tlen)) && (sa.(tspan) !!! it <? sa.(tt))%float);
      [|reflexivity].
    apply (IH (S it)).
Qed.

Lemma sample_V_loop (fuel : nat) (sa : SimInf_thread_args) (it : nat)
    (Vm : list double) :
  sample_V fuel (set_V_it sa it) Vm =
    (set_V_it sa
       (sample_loop sa.(tspan) sa.(tlen) sa.(tt)
          (fun k => sa.(Nd) * (sa.(Ntot) * k + sa.(Ni)))
          (take (sa.(Nn) * sa.(Nd)) sa.(v_new)) fuel it Vm).1,
     (sample_loop sa.(tspan) sa.(tlen) sa.(tt)
        (fun k => sa.(Nd) * (sa.(Ntot) * k + sa.(Ni)))
        (take (sa.(Nn) * sa.(Nd)) sa.(v_new)) fuel it Vm).2).
Proof.
  revert it Vm. induction fuel as [|fuel IH]; intros it Vm.
  - reflexivity.
  - cbn [sample_V sample_loop].
    change ((set_V_it sa it).(V_it)) with it.
    change ((set_V_it sa it).(tlen)) with sa.(tlen).
    change ((set_V_it sa it).(tspan)) with sa.(tspan).
    change ((set_V_it sa it).(tt)) with sa.(tt).
    destruct ((it <? sa.(tlen)) && (sa.(tspan) !!! it <? sa.(tt))%float);
      [|reflexivity].
    apply (IH (S it)).
Qed.

Lemma set_U_it_id (sa : SimInf_thread_args) : set_U_it sa sa.(U_it) = sa.
Proof. destruct sa; reflexivity. Qed.

Lemma set_V_it_id (sa : SimInf_thread_args) : set_V_it sa sa.(V_it) = sa.
Proof. destruct sa; reflexivity. Qed.

Lemma sample_loop_spec {A : Type} `{!Inhabited A} (tspan : list double)
    (tlen : nat) (tt : double) (base : nat -> nat) (src : list A)
    (fuel it : nat) (M : list A) :
  (forall k, base k + length src <= base (S k)) ->
  let r := sample_loop tspan tlen tt base src fuel it M in
  it <= r.1 /\
  length r.2 = length M /\
  (forall k, it <= k < r.1 ->
     k < tlen /\ (tspan !!! k <? tt)%float = true) /\
  (tlen - it <= fuel ->
     (r.1 <? tlen) && (tspan !!! r.1 <? tt)%float = false) /\
  (forall i, i < base it -> r.2 !!! i = M !!! i) /\
  (forall k i, it <= k < r.1 -> i < length src ->
     base k + length src <= length M ->
     r.2 !!! (base k + i) = src !!! i).
Proof.
  intros Hbase. revert it M.
  induction fuel as [|fuel IH]; intros it M; cbv zeta; cbn [sample_loop].
  - cbn. repeat split; try lia.
    intros Hfuel. apply andb_false_iff. left. apply Nat.ltb_ge. lia.
  - destruct ((it <? tlen) && (tspan !!! it <? tt)%float) eqn:Hcond.
    + apply andb_true_iff in Hcond as [Hlt Hpast]. apply Nat.ltb_lt in Hlt.
      destruct (IH (S it) (list_inserts (base it) src M))
        as (Hle & Hlen & Hcols & Hexit & Hlow & Hcopy).
      rewrite length_inserts in Hlen.
      split; [lia|]. split; [exact Hlen|]. split; [|split; [|split]].
      * intros k Hk. destruct (decide (k = it)) as [->|Hne]; [auto|].
        apply Hcols. lia.
      * intros Hfuel. apply Hexit. lia.
      * intros i Hi. rewrite Hlow by (specialize (Hbase it); lia).
        apply list_lookup_total_inserts_lt. exact Hi.
      * intros k i Hk Hi Hfit.
        destruct (decide (k = it)) as [->|Hne].
        -- rewrite Hlow by (specialize (Hbase it); lia).
           rewrite list_lookup_total_inserts by lia.
           f_equal. lia.
        -- apply Hcopy; [lia|exact Hi|]. rewrite length_inserts. exact Hfit.
    + cbn. repeat split; try lia. intros _. exact Hcond.
Qed.

(** The sampling loop of a worker for [U], from its cursor on. *)
Definition loop_U (sa : SimInf_thread_args) (Um : list Z) : nat * list Z :=
  sample_loop sa.(tspan) sa.(tlen) sa.(tt)
    (fun k => sa.(Nc) * (sa.(Ntot) * k + sa.(Ni)))
    (take (sa.(Nn) * sa.(Nc)) sa.(u)) (sa.(tlen) - sa.(U_it)) sa.(U_it) Um.

(** The sampling loop of a worker for [V], from its cursor on. *)
Definition loop_V (sa : SimInf_thread_args) (Vm : list double)
    : nat * list double :=
  sample_loop sa.(tspan) sa.(tlen) sa.(tt)
    (fun k => sa.(Nd) * (sa.(Ntot) * k + sa.(Ni)))
    (take (sa.(Nn) * sa.(Nd)) sa.(v_new)) (sa.(tlen) - sa.(V_it)) sa.(V_it) Vm.

Lemma store_dense_eq (sa : SimInf_thread_args) (out : SimInf_output) :
  store_dense sa out =
    (set_V_it
       (set_U_it sa
          (match out.(U) with
           | Some Um => (loop_U sa Um).1
           | None => sa.(U_it)
           end))
       (match out.(V) with
        | Some Vm => (loop_V sa Vm).1
        | None => sa.(V_it)
        end),
     mk_output ((fun Um => (loop_U sa Um).2) <$> out.(U))
       ((fun Vm => (loop_V sa Vm).2) <$> out.(V))).
Proof.
  assert (HU : forall Um,
            sample_U (sa.(tlen) - sa.(U_it)) sa Um
              = (set_U_it sa (loop_U sa Um).1, (loop_U sa Um).2)).
  { intros Um.
    pose proof (sample_U_loop (sa.(tlen) - sa.(U_it)) sa sa.(U_it) Um) as H.
    rewrite set_U_it_id in H. exact H. }
  assert (HV : forall k Vm,
            sample_V (sa.(tlen) - sa.(V_it)) (set_U_it sa k) Vm
              = (set_V_it (set_U_it sa k) (loop_V sa Vm).1, (loop_V sa Vm).2)).
  { intros k Vm.
    pose proof (sample_V_loop (sa.(tlen) - sa.(V_it)) (set_U_it sa k)
                  sa.(V_it) Vm) as H.
    change sa.(V_it) with (set_U_it sa k).(V_it) in H at 2.
    rewrite set_V_it_id in H. exact H. }
  unfold store_dense. destruct out as [[Um|] [Vm|]]; cbn [U V fmap option_fmap option_map].
  - rewrite HU. cbn [fst snd].
    change ((set_U_it sa (loop_U sa Um).1).(tlen)) with sa.(tlen).
    change ((set_U_it sa (loop_U sa Um).1).(V_it)) with sa.(V_it).
    rewrite HV. reflexivity.
  - rewrite HU. cbn [fst snd].
    rewrite <- (set_V_it_id (set_U_it sa (loop_U sa Um).1)) at 1.
    reflexivity.
  - cbn [fst snd]. pose proof (HV sa.(U_it) Vm) as H.
    rewrite set_U_it_id in *. rewrite H. reflexivity.
  - cbn [fst snd]. rewrite set_U_it_id, set_V_it_id. reflexivity.
Qed.

Lemma layout_eq (sa sa' : SimInf_thread_args) :
  layout sa' = layout sa ->
  sa'.(Ntot) = sa.(Ntot) /\ sa'.(Ni) = sa.(Ni) /\ sa'.(Nn) = sa.(Nn) /\
  sa'.(Nt) = sa.(Nt) /\ sa'.(Nc) = sa.(Nc) /\ sa'.(Nd) = sa.(Nd) /\
  sa'.(tspan) = sa.(tspan) /\ sa'.(tlen) = sa.(tlen).
Proof. unfold layout. intros [= -> -> -> -> -> -> -> ->]. repeat split. Qed.

Lemma cursors_eq (sa sa' : SimInf_thread_args) :
  cursors sa' = cursors sa ->
  sa'.(U_it) = sa.(U_it) /\ sa'.(V_it) = sa.(V_it).
Proof. unfold cursors. intros [= -> ->]. split; reflexivity. Qed.

(** C10.  In the pass of a worker through steps (4)-(6a), with dense
    [U] and [V]: every column [k] the sampler writes has
    [tspan[k] < tt] for the new global time [tt]; the worker's rows of
    column [k] of [V] are the contents of [v_new] as the post-time-step
    callbacks of this day have left it, not those of [v], and its rows
    of column [k] of [U] are the compartment counts [u].  The pass
    leaves [v] and [v_new] in place; the swap comes after it and makes
    this [v_new] the next day's [v]. *)
Theorem dense_columns_copy_v_new (sa : SimInf_thread_args) (Um : list Z)
    (Vm : list double) :
  let sa1 := post_nodes sa (seq 0 sa.(Nn)) in
  let r := post_worker sa (mk_output (Some Um) (Some Vm)) in
  sa.(Nn) <= sa.(Ntot) ->
  sa.(Nn) * sa.(Nc) <= length sa.(u) ->
  sa.(Nn) * sa.(Nd) <= length sa.(v_new) ->
  exists Um' Vm',
    r.2 = mk_output (Some Um') (Some Vm') /\
    (r.1.(v) = sa.(v) /\ r.1.(v_new) = sa1.(v_new) /\ r.1.(u) = sa.(u) /\
     r.1.(tt) = sa.(next_day)) /\
    (forall k, sa.(V_it) <= k < r.1.(V_it) ->
       (sa.(tspan) !!! k <? r.1.(tt))%float = true /\
       forall i, i < sa.(Nn) * sa.(Nd) ->
         sa.(Nd) * (sa.(Ntot) * k + sa.(Ni)) + sa.(Nn) * sa.(Nd)
           <= length Vm ->
         Vm' !!! (sa.(Nd) * (sa.(Ntot) * k + sa.(Ni)) + i)
           = sa1.(v_new) !!! i) /\
    (forall k, sa.(U_it) <= k < r.1.(U_it) ->
       (sa.(tspan) !!! k <? r.1.(tt))%float = true /\
       forall i, i < sa.(Nn) * sa.(Nc) ->
         sa.(Nc) * (sa.(Ntot) * k + sa.(Ni)) + sa.(Nn) * sa.(Nc)
           <= length Um ->
         Um' !!! (sa.(Nc) * (sa.(Ntot) * k + sa.(Ni)) + i) = sa.(u) !!! i) /\
    (forall rest,
       exists sa', (swap_and_check (r.1 :: rest)).1 !! 0 = Some sa' /\
         sa'.(v) = sa1.(v_new) /\ sa'.(v_new) = sa.(v)).
Proof.
  intros sa1 r HNn Hu Hv.
  destruct (post_nodes_frame (seq 0 sa.(Nn)) sa)
    as (Hlay & Hcur & Hu1 & Hv1 & Htt & Hnext & Hlen).
  fold sa1 in Hlay, Hcur, Hu1, Hv1, Htt, Hnext, Hlen.
  apply layout_eq in Hlay as (HNtot & HNi & HNn' & HNt & HNc & HNd & Hts & Htl).
  apply cursors_eq in Hcur as (HUit & HVit).
  set (sa2 := set_next_day (set_tt sa1 sa1.(next_day))
                (sa1.(next_day) + 1)%float).
  assert (Hr : r = store_dense sa2 (mk_output (Some Um) (Some Vm)))
    by reflexivity.
  rewrite store_dense_eq in Hr. cbn [U V fmap option_fmap option_map] in Hr.
  assert (HlenU : length (take (sa.(Nn) * sa.(Nc)) sa.(u)) = sa.(Nn) * sa.(Nc))
    by (rewrite length_take; lia).
  assert (HlenV : length (take (sa.(Nn) * sa.(Nd)) sa1.(v_new))
                    = sa.(Nn) * sa.(Nd))
    by (rewrite length_take; lia).
  assert (HloopU : loop_U sa2 Um =
            sample_loop sa.(tspan) sa.(tlen) sa.(next_day)
              (fun k => sa.(Nc) * (sa.(Ntot) * k + sa.(Ni)))
              (take (sa.(Nn) * sa.(Nc)) sa.(u))
              (sa.(tlen) - sa.(U_it)) sa.(U_it) Um).
  { unfold loop_U. cbn.
    rewrite Hts, Htl, Hnext, HNc, HNtot, HNi, HNn', Hu1, HUit. reflexivity. }
  assert (HloopV : loop_V sa2 Vm =
            sample_loop sa.(tspan) sa.(tlen) sa.(next_day)
              (fun k => sa.(Nd) * (sa.(Ntot) * k + sa.(Ni)))
              (take (sa.(Nn) * sa.(Nd)) sa1.(v_new))
              (sa.(tlen) - sa.(V_it)) sa.(V_it) Vm).
  { unfold loop_V. cbn.
    rewrite Hts, Htl, Hnext, HNd, HNtot, HNi, HNn', HVit. reflexivity. }
  destruct (sample_loop_spec sa.(tspan) sa.(tlen) sa.(next_day)
              (fun k => sa.(Nc) * (sa.(Ntot) * k + sa.(Ni)))
              (take (sa.(Nn) * sa.(Nc)) sa.(u))
              (sa.(tlen) - sa.(U_it)) sa.(U_it) Um)
    as (_ & _ & HcolsU & _ & _ & HcopyU); [intros k; rewrite HlenU; nia|].
  destruct (sample_loop_spec sa.(tspan) sa.(tlen) sa.(next_day)
              (fun k => sa.(Nd) * (sa.(Ntot) * k + sa.(Ni)))
              (take (sa.(Nn) * sa.(Nd)) sa1.(v_new))
              (sa.(tlen) - sa.(V_it)) sa.(V_it) Vm)
    as (_ & _ & HcolsV & _ & _ & HcopyV); [intros k; rewrite HlenV; nia|].
  rewrite <- HloopU in HcolsU, HcopyU. rewrite <- HloopV in HcolsV, HcopyV.
  exists (loop_U sa2 Um).2, (loop_V sa2 Vm).2.
  rewrite Hr. cbn [fst snd]. split; [reflexivity|].
  set (ku := (loop_U sa2 Um).1) in *. set (kv := (loop_V sa2 Vm).1) in *.
  change ((set_V_it (set_U_it sa2 ku) kv).(tt)) with sa1.(next_day).
  change ((set_V_it (set_U_it sa2 ku) kv).(V_it)) with kv.
  change ((set_V_it (set_U_it sa2 ku) kv).(U_it)) with ku.
  change ((set_V_it (set_U_it sa2 ku) kv).(v)) with sa1.(v).
  change ((set_V_it (set_U_it sa2 ku) kv).(v_new)) with sa1.(v_new).
  change ((set_V_it (set_U_it sa2 ku) kv).(u)) with sa1.(u).
  rewrite Hnext.
  split; [auto|].
  split; [|split].
  - intros k Hk.
    split; [apply HcolsV; exact Hk|].
    intros i Hi Hfit.
    rewrite HcopyV; [|exact Hk|rewrite HlenV; exact Hi|rewrite HlenV; exact Hfit].
    apply lookup_total_take_lt. exact Hi.
  - intros k Hk.
    split; [apply HcolsU; exact Hk|].
    intros i Hi Hfit.
    rewrite HcopyU; [|exact Hk|rewrite HlenU; exact Hi|rewrite HlenU; exact Hfit].
    apply lookup_total_take_lt. exact Hi.
  - intros rest. cbn [swap_and_check].
    match goal with |- context [if ?b then _ else _] => destruct b end;
      eexists; (split; [reflexivity|]); cbn; rewrite ?Hv1; auto.
Qed.

Lemma sample_loop_take {A : Type} (tspan : list double) (tlen : nat)
    (tt : double) (base : nat -> nat) (src : list A) (fuel it n : nat)
    (M : list A) :
  (forall k, base k <= base (S k)) -> n <= base it ->
  it <= (sample_loop tspan tlen tt base src fuel it M).1 /\
  take n (sample_loop tspan tlen tt base src fuel it M).2 = take n M.
Proof.
  intros Hbase. revert it M.
  induction fuel as [|fuel IH]; intros it M Hn; cbn [sample_loop].
  - split; [cbn; lia|reflexivity].
  - destruct ((it <? tlen) && (tspan !!! it <? tt)%float).
    + destruct (IH (S it) (list_inserts (base it) src M)) as [Hle Htake].
      { specialize (Hbase it). lia. }
      split; [lia|]. rewrite Htake.
      clear -Hn. revert Hn. generalize (base it). intros b.
      revert b. induction src as [|x src IHsrc]; intros b Hb; cbn.
      * reflexivity.
      * rewrite take_insert_ge by lia. apply IHsrc. lia.
    + split; [cbn; lia|reflexivity].
Qed.

(** *** Error codes are never cleared *)

(** The two error constants are error codes, that is, not 0. *)
Definition error_codes_nonzero : Prop :=
  SIMINF_ERR_INVALID_RATE <> 0%Z /\ SIMINF_ERR_NEGATIVE_STATE <> 0%Z.

Lemma check_rate_keeps_error (sa : SimInf_thread_args) (rate : double) :
  error_codes_nonzero -> sa.(errcode) <> 0%Z ->
  (check_rate sa rate).(errcode) <> 0%Z.
Proof.
  intros [Hinv _] Hsa. unfold check_rate. destruct (invalid_rate rate); auto.
Qed.

Lemma update_state_keeps_error (sa : SimInf_thread_args) (node tr : nat) :
  error_codes_nonzero -> sa.(errcode) <> 0%Z ->
  (update_state sa node tr).(errcode) <> 0%Z.
Proof.
  intros [_ Hneg]. unfold update_state.
  apply (foldl_invariant (fun a => a.(errcode) <> 0%Z)).
  intros a j Ha. unfold update_state_entry. destruct (_ <? 0)%Z; auto.
Qed.

Lemma refresh_rates_keeps_error (sa : SimInf_thread_args) (node tr : nat) :
  error_codes_nonzero -> sa.(errcode) <> 0%Z ->
  (refresh_rates sa node tr).(errcode) <> 0%Z.
Proof.
  intros Hcodes Hsa. unfold refresh_rates. cbn.
  revert Hsa.
  apply (foldl_invariant (fun acc => acc.1.(errcode) <> 0%Z)
           (refresh_entry node) (column sa.(jcG) tr) (sa, 0%float)).
  intros a j Ha. unfold refresh_entry. cbn [fst].
  apply check_rate_keeps_error; [exact Hcodes|exact Ha].
Qed.

Lemma ssa_step_keeps_error (sa : SimInf_thread_args) (node : nat) :
  error_codes_nonzero -> sa.(errcode) <> 0%Z ->
  (ssa_step sa node).2.(errcode) <> 0%Z.
Proof.
  intros Hcodes Hsa. unfold ssa_step.
  destruct (_ <=? 0)%float; [exact Hsa|].
  destruct (_ <=? _)%float; [exact Hsa|].
  unfold fire_transition. destruct (draw_transition _ _ _); [|exact Hsa].
  cbn [snd]. apply refresh_rates_keeps_error; [exact Hcodes|].
  apply update_state_keeps_error; [exact Hcodes|exact Hsa].
Qed.

Lemma ssa_node_keeps_error (fuel : nat) (sa sa' : SimInf_thread_args)
    (node : nat) :
  error_codes_nonzero -> ssa_node fuel sa node = Some sa' ->
  sa.(errcode) <> 0%Z -> sa'.(errcode) <> 0%Z.
Proof.
  intros Hcodes. revert sa.
  induction fuel as [|fuel IH]; intros sa; cbn; [discriminate|].
  pose proof (ssa_step_keeps_error sa node Hcodes) as Hstep.
  destruct (ssa_step sa node) as [[|] sa1]; cbn [snd] in Hstep.
  - intros [= <-]. exact Hstep.
  - intros Hrun Hsa. apply (IH sa1 Hrun). apply Hstep. exact Hsa.
Qed.

Lemma ssa_nodes_keeps_error (fuel : nat) (nodes : list nat)
    (sa sa' : SimInf_thread_args) :
  error_codes_nonzero -> ssa_nodes fuel sa nodes = Some sa' ->
  sa.(errcode) <> 0%Z -> sa'.(errcode) <> 0%Z.
Proof.
  intros Hcodes. revert sa.
  induction nodes as [|node nodes IH]; intros sa; cbn.
  - intros [= <-]. auto.
  - destruct (_ =? 0)%Z; [|intros [= <-]; auto].
    destruct (ssa_node fuel sa node) as [sa1|] eqn:Hnode; [|discriminate].
    intros Hrun Hsa. apply (IH sa1 Hrun).
    eapply ssa_node_keeps_error; eauto.
Qed.




End SamplerProperties.

(** * The rate checks *)

Section RateChecks.
Context {P : SimInf_platform}.

(** The value the propensity of transition [j] returns when the rates
    of [node] are initialised. *)
Definition initial_rate (sa : SimInf_thread_args) (node j : nat) : double :=
  call_tr_fun sa j node sa.(v) sa.(tt).

(** [sa] with another rate cache, node clocks and error code: all that
    the initialisation writes. *)
Definition with_cache (sa : SimInf_thread_args)
    (rates sums clocks : list double) (e : Z) : SimInf_thread_args :=
  set_errcode
    (set_t_time (set_sum_t_rate (set_t_rate sa rates) sums) clocks) e.

Lemma with_cache_id (sa : SimInf_thread_args) :
  with_cache sa sa.(t_rate) sa.(sum_t_rate) sa.(t_time) sa.(errcode) = sa.
Proof. destruct sa; reflexivity. Qed.








End RateChecks.

(** * The solver as a whole *)

Section SolverProperties.
Context {P : SimInf_platform} {E : SimInf_events}.

(** ** Column 0 of the dense matrices *)

(** A worker whose matrices have [N * C] and [N * D] rows per column
    and whose cursors are past column 0. *)
Definition past_first_column (N C D : nat) (sa : SimInf_thread_args) : Prop :=
  sa.(Ntot) = N /\ sa.(Nc) = C /\ sa.(Nd) = D /\
  1 <= sa.(U_it) /\ 1 <= sa.(V_it).

(** The event processors, which know nothing of the dense matrices,
    leave the row layout and the cursors past column 0. *)
Definition events_keep_cursors (N C D : nat) : Prop :=
  (forall l, Forall (past_first_column N C D) l ->
     Forall (past_first_column N C D) (SimInf_split_events l).2) /\
  (forall sa, past_first_column N C D sa ->
     past_first_column N C D (SimInf_process_E1_events sa)) /\
  (forall l, Forall (past_first_column N C D) l ->
     Forall (past_first_column N C D) (SimInf_process_E2_events l)) /\
  (forall l, Forall (past_first_column N C D) l ->
     Forall (past_first_column N C D) (SimInf_store_solution_sparse l)).

(** Column 0 of [U] and of [V]. *)
Definition first_columns (N C D : nat) (out : SimInf_output)
    : option (list Z) * option (list double) :=
  (take (N * C) <$> out.(U), take (N * D) <$> out.(V)).

Lemma column_base_mono (c n i k : nat) :
  c * (n * k + i) <= c * (n * S k + i).
Proof.
  apply Nat.mul_le_mono_l, Nat.add_le_mono_r, Nat.mul_le_mono_l. lia.
Qed.

Lemma column_base_past (c n i k : nat) :
  1 <= k -> n * c <= c * (n * k + i).
Proof.
  intros Hk. rewrite (Nat.mul_comm n c). apply Nat.mul_le_mono_l.
  transitivity (n * k); [|lia].
  rewrite <- (Nat.mul_1_r n) at 1. apply Nat.mul_le_mono_l. exact Hk.
Qed.

Lemma ssa_frame_past_first_column (N C D : nat)
    (sa sa' : SimInf_thread_args) :
  ssa_frame sa sa' -> past_first_column N C D sa ->
  past_first_column N C D sa'.
Proof.
  intros (Hlay & Hcur & _) (H1 & H2 & H3 & H4 & H5).
  apply layout_eq in Hlay as (? & ? & ? & ? & ? & ? & ? & ?).
  apply cursors_eq in Hcur as (? & ?).
  unfold past_first_column. repeat split; congruence.
Qed.

Lemma ssa_workers_past_first_column (N C D fuel : nat)
    (l l' : list SimInf_thread_args) :
  events_keep_cursors N C D ->
  ssa_workers fuel l = Some l' ->
  Forall (past_first_column N C D) l ->
  Forall (past_first_column N C D) l'.
Proof.
  intros (_ & HE1 & _). revert l'.
  induction l as [|sa l IH]; intros l'; cbn.
  - intros [= <-]. auto.
  - destruct (ssa_worker fuel sa) as [sa'|] eqn:Hsa; [|discriminate].
    destruct (ssa_workers fuel l) as [rest|]; [|discriminate].
    intros [= <-] Hall. apply Forall_cons in Hall as [Hsa0 Hall].
    apply Forall_cons. split; [|apply IH; auto].
    apply HE1. eapply ssa_frame_past_first_column; [|exact Hsa0].
    eapply ssa_nodes_frame. exact Hsa.
Qed.

Lemma post_worker_first_columns (N C D : nat) (sa : SimInf_thread_args)
    (out : SimInf_output) :
  past_first_column N C D sa ->
  past_first_column N C D (post_worker sa out).1 /\
  first_columns N C D (post_worker sa out).2 = first_columns N C D out.
Proof.
  intros (HN & HC & HD & HU & HV). unfold post_worker.
  destruct (post_nodes_frame (seq 0 sa.(Nn)) sa) as (Hlay & Hcur & _).
  apply layout_eq in Hlay as (HNtot & _ & _ & _ & HNc & HNd & _ & _).
  apply cursors_eq in Hcur as (HUit & HVit).
  set (sa1 := post_nodes sa (seq 0 sa.(Nn))) in *. clearbody sa1.
  set (sa2 := set_next_day (set_tt sa1 sa1.(next_day))
                (sa1.(next_day) + 1)%float).
  rewrite store_dense_eq.
  assert (HloopU : forall Um,
            sa.(U_it) <= (loop_U sa2 Um).1 /\
            take (N * C) (loop_U sa2 Um).2 = take (N * C) Um).
  { intros Um. unfold loop_U. cbn. rewrite HUit.
    apply sample_loop_take; [intros k; apply column_base_mono|].
    rewrite HNtot, HNc, HN, HC. apply column_base_past. exact HU. }
  assert (HloopV : forall Vm,
            sa.(V_it) <= (loop_V sa2 Vm).1 /\
            take (N * D) (loop_V sa2 Vm).2 = take (N * D) Vm).
  { intros Vm. unfold loop_V. cbn. rewrite HVit.
    apply sample_loop_take; [intros k; apply column_base_mono|].
    rewrite HNtot, HNd, HN, HD. apply column_base_past. exact HV. }
  split.
  - unfold past_first_column. cbn [fst].
    split; [change (sa1.(Ntot) = N); congruence|].
    split; [change (sa1.(Nc) = C); congruence|].
    split; [change (sa1.(Nd) = D); congruence|].
    split.
    + change (1 <= match out.(U) with
                   | Some Um => (loop_U sa2 Um).1
                   | None => sa1.(U_it)
                   end).
      destruct out.(U) as [Um|]; [|lia].
      destruct (HloopU Um). lia.
    + change (1 <= match out.(V) with
                   | Some Vm => (loop_V sa2 Vm).1
                   | None => sa1.(V_it)
                   end).
      destruct out.(V) as [Vm|]; [|lia].
      destruct (HloopV Vm). lia.
  - unfold first_columns. cbn [fst snd U V].
    destruct out as [[Um|] [Vm|]]; cbn; f_equal; f_equal;
      try apply HloopU; try apply HloopV.
Qed.

Lemma post_workers_first_columns (N C D : nat)
    (l : list SimInf_thread_args) (out : SimInf_output) :
  Forall (past_first_column N C D) l ->
  Forall (past_first_column N C D) (post_workers l out).1 /\
  first_columns N C D (post_workers l out).2 = first_columns N C D out.
Proof.
  revert out.
  induction l as [|sa l IH]; intros out Hall; cbn [post_workers fst snd].
  - split; auto.
  - apply Forall_cons in Hall as [Hsa Hall].
    destruct (post_worker_first_columns N C D sa out Hsa) as [H1 H2].
    destruct (IH (post_worker sa out).2 Hall) as [H3 H4].
    split; [apply Forall_cons; split; assumption|].
    rewrite H4, H2. reflexivity.
Qed.

Lemma swap_and_check_past_first_column (N C D : nat)
    (l : list SimInf_thread_args) :
  Forall (past_first_column N C D) l ->
  Forall (past_first_column N C D) (swap_and_check l).1.
Proof.
  induction l as [|sa l IH]; intros Hall; cbn; [auto|].
  apply Forall_cons in Hall as [Hsa Hall].
  destruct (_ =? 0)%Z; cbn; apply Forall_cons; split; auto.
Qed.

Lemma solver_day_first_columns (N C D fuel : nat)
    (s s' : list SimInf_thread_args) (out out' : SimInf_output)
    (res : day_result) :
  events_keep_cursors N C D ->
  Forall (past_first_column N C D) s ->
  solver_day fuel s out = Some (res, s', out') ->
  Forall (past_first_column N C D) s' /\
  first_columns N C D out' = first_columns N C D out.
Proof.
  intros HE Hall. unfold solver_day.
  destruct (ssa_workers fuel s) as [s1|] eqn:Hs1; [|discriminate].
  pose proof (ssa_workers_past_first_column N C D fuel s s1 HE Hs1 Hall) as H1.
  destruct HE as (_ & _ & HE2 & Hsparse).
  destruct (post_workers_first_columns N C D
              (SimInf_process_E2_events s1) out (HE2 _ H1)) as [H2 H3].
  pose proof (swap_and_check_past_first_column N C D _ (Hsparse _ H2)) as H4.
  destruct (negb _).
  - intros [= <- <- <-]. auto.
  - destruct (swap_and_check _).1 as [|sa0 rest] eqn:Hc; [discriminate|].
    destruct (_ <=? _); intros [= <- <- <-]; auto.
Qed.

Lemma main_loop_first_columns (N C D days fuel : nat)
    (s s' : list SimInf_thread_args) (out out' : SimInf_output) (rc : Z) :
  events_keep_cursors N C D ->
  Forall (past_first_column N C D) s ->
  main_loop days fuel s out = Some (rc, s', out') ->
  first_columns N C D out' = first_columns N C D out.
Proof.
  intros HE. revert s out.
  induction days as [|days IH]; intros s out Hall; cbn; [discriminate|].
  destruct (solver_day fuel s out) as [[[res s1] o1]|] eqn:Hday;
    [|discriminate].
  destruct (solver_day_first_columns N C D fuel s s1 out o1 res HE Hall Hday)
    as [H1 H2].
  destruct res as [c|].
  - intros [= <- <- <-]. exact H2.
  - intros Hloop. rewrite <- H2. eapply IH; eauto.
Qed.

Lemma sample_loop_strict {A : Type} (tspan : list double) (tlen : nat)
    (tt : double) (base : nat -> nat) (src : list A) (fuel it : nat)
    (M : list A) (k : nat) :
  it <= k < (sample_loop tspan tlen tt base src fuel it M).1 ->
  k < tlen /\ (tspan !!! k <? tt)%float = true.
Proof.
  revert it M. induction fuel as [|fuel IH]; intros it M; cbn [sample_loop].
  - cbn. lia.
  - destruct ((it <? tlen) && (tspan !!! it <? tt)%float) eqn:Hcond.
    + intros Hk. destruct (decide (k = it)) as [->|Hne].
      * apply andb_true_iff in Hcond as [Hlt Hpast].
        apply Nat.ltb_lt in Hlt. auto.
      * apply (IH (S it) (list_inserts (base it) src M)). lia.
    + cbn. lia.
Qed.

Lemma take_inserts_0 {A : Type} (k l : list A) :
  length k <= length l -> take (length k) (list_inserts 0 k l) = k.
Proof.
  intros Hlen. apply list_eq. intros i.
  destruct (decide (i < length k)) as [Hi|Hi].
  - rewrite lookup_take_lt by exact Hi.
    rewrite list_lookup_inserts by lia. f_equal. lia.
  - rewrite lookup_take_ge by lia. symmetry. apply lookup_ge_None. lia.
Qed.

Lemma setup_threads_cursors (args : Args.SimInf_solver_args) :
  Forall (fun sa =>
            past_first_column args.(Args.Nn) args.(Args.Nc) args.(Args.Nd) sa
            /\ sa.(U_it) = 1 /\ sa.(V_it) = 1)
    (setup_threads args).
Proof.
  apply Forall_lookup. intros i sa Hi.
  unfold setup_threads in Hi.
  apply lookup_zip_with_Some in Hi as (k & g & -> & _ & _).
  unfold past_first_column. cbn. repeat split; lia.
Qed.

Lemma solver_first_columns (N C D days fuel : nat)
    (s s' : list SimInf_thread_args) (out out' : SimInf_output) (rc : Z) :
  events_keep_cursors N C D ->
  Forall (past_first_column N C D) s ->
  SimInf_solver_ssa days fuel s out = Some (rc, s', out') ->
  first_columns N C D out' = first_columns N C D out.
Proof.
  intros HE Hall. unfold SimInf_solver_ssa.
  destruct (negb _); [intros [= <- <- <-]; reflexivity|].
  apply main_loop_first_columns; [exact HE|].
  apply Forall_fmap. eapply Forall_impl; [exact Hall|].
  intros sa Hsa. cbn. eapply ssa_frame_past_first_column; [|exact Hsa].
  apply init_worker_frame.
Qed.

(** C6.  With dense matrices of [Nn * Nc] and [Nn * Nd] rows, column 0
    of [U] is [u0] and column 0 of [V] is [v0] once the set-up has
    copied them, and every worker starts with both cursors at 1; the
    sampling loops write column [k] only when [tspan[k] < tt], strictly,
    and only columns at or after the cursor; and whatever the solver
    returns, column 0 of each matrix still holds the initial state: the
    main loop never writes it. *)
Theorem initial_column_preserved (args : Args.SimInf_solver_args)
    (days fuel : nat) :
  let N := args.(Args.Nn) in
  let C := args.(Args.Nc) in
  let D := args.(Args.Nd) in
  let initial :=
    ((fun _ => args.(Args.u0)) <$> args.(Args.U),
     (fun _ => args.(Args.v0)) <$> args.(Args.V)) in
  events_keep_cursors N C D ->
  length args.(Args.u0) = N * C ->
  length args.(Args.v0) = N * D ->
  (forall Um, args.(Args.U) = Some Um -> N * C <= length Um) ->
  (forall Vm, args.(Args.V) = Some Vm -> N * D <= length Vm) ->
  first_columns N C D (setup_output args) = initial /\
  Forall (fun sa => sa.(U_it) = 1 /\ sa.(V_it) = 1) (setup_threads args) /\
  (forall fuel' sa Um k,
     sa.(U_it) <= k < (sample_U fuel' sa Um).1.(U_it) ->
     k < sa.(tlen) /\ (sa.(tspan) !!! k <? sa.(tt))%float = true) /\
  (forall fuel' sa Vm k,
     sa.(V_it) <= k < (sample_V fuel' sa Vm).1.(V_it) ->
     k < sa.(tlen) /\ (sa.(tspan) !!! k <? sa.(tt))%float = true) /\
  (forall sa out, past_first_column N C D sa ->
     first_columns N C D (post_worker sa out).2 = first_columns N C D out) /\
  (forall rc s out,
     SimInf_run_solver_ssa days fuel args = Some (rc, s, out) ->
     first_columns N C D out = initial).
Proof.
  intros N C D initial HE Hu0 Hv0 HUm HVm.
  assert (Hinit : first_columns N C D (setup_output args) = initial).
  { unfold first_columns, initial, setup_output. cbn [U V].
    fold N C D. rewrite <- Hu0, <- Hv0, !firstn_all.
    destruct args.(Args.U) as [Um|] eqn:HU;
      destruct args.(Args.V) as [Vm|] eqn:HV; cbn; f_equal; f_equal;
      apply take_inserts_0; rewrite ?Hu0, ?Hv0; auto. }
  split; [exact Hinit|]. split; [|split; [|split; [|split]]].
  - eapply Forall_impl; [apply setup_threads_cursors|].
    intros sa (_ & H1 & H2). auto.
  - intros fuel' sa Um k.
    pose proof (sample_U_loop fuel' sa sa.(U_it) Um) as Hloop.
    rewrite set_U_it_id in Hloop. rewrite Hloop. cbn [fst U_it set_U_it].
    apply sample_loop_strict.
  - intros fuel' sa Vm k.
    pose proof (sample_V_loop fuel' sa sa.(V_it) Vm) as Hloop.
    rewrite set_V_it_id in Hloop. rewrite Hloop. cbn [fst V_it set_V_it].
    apply sample_loop_strict.
  - intros sa out Hsa. apply post_worker_first_columns. exact Hsa.
  - intros rc s out. unfold SimInf_run_solver_ssa.
    assert (Hsplit : Forall (past_first_column N C D)
                       (SimInf_split_events (setup_threads args)).2).
    { destruct HE as (Hsp & _). apply Hsp.
      eapply Forall_impl; [apply setup_threads_cursors|].
      intros sa (H & _). exact H. }
    destruct (negb _).
    + intros [= <- <- <-]. exact Hinit.
    + intros Hrun. rewrite <- Hinit.
      eapply solver_first_columns; eauto.
Qed.

(** ** Error codes reach the caller *)







Lemma swap_and_check_first_error (l : list SimInf_thread_args) :
  first_error (swap_and_check l).1 = (swap_and_check l).2.
Proof.
  induction l as [|sa l IH]; cbn; [reflexivity|].
  destruct (sa.(errcode) =? 0)%Z eqn:He; cbn; rewrite He; auto.
Qed.





End SolverProperties.

(** * The properties at work on the SISe example *)

(** A worker whose cached sum has drifted above its rates, which are all
    zero. *)
Definition drifted_worker : SimInf_thread_args :=
  set_sum_t_rate (sis_setup [0.5; 0.5]%float [0; 0; 0; 0]%Z) [1; 0]%float.


(** C2 at work: a selected non-zero rate is kept, and a worker whose
    rates are all zero under a positive cached sum takes the nil event. *)
Lemma draw_transition_floating_point_fix_witness :
  draw_transition (rate_of (sis_worker [0.25]%float [9; 1; 0; 0]%Z) 0) 2
    (0.25 * 2.75)%float = Some 0 /\
  (exists sa', fire_transition drifted_worker 0 = (Break, sa') /\
     sa'.(sum_t_rate) !!! 0%nat = 0%float /\ sa'.(u) = [0; 0; 0; 0]%Z).
Proof.
  split.
  - destruct (draw_transition_floating_point_fix
                (sis_worker [0.25]%float [9; 1; 0; 0]%Z) 0)
      as (_ & _ & Hkeep & _); [vm_compute; lia..|].
    exact (Hkeep eq_refl).
  - destruct (draw_transition_floating_point_fix drifted_worker 0)
      as (_ & _ & _ & _ & Hnil); [vm_compute; lia..|].
    destruct Hnil as (_ & sa' & Hfire & Hsum & Hu & _).
    { intros [|[|k]] Hk; [reflexivity|reflexivity|].
      vm_compute in Hk. lia. }
    exists sa'. split; [exact Hfire|]. split; [exact Hsum|exact Hu].
Defined.

(** C2 as stated fails on a tie: with rates 1.0 and 1.0 and [U2 = 0.5]
    the scan stops at index 0, whose cumulative sum 1.0 equals [r] and
    does not exceed it; the first cumulative sum that exceeds [r] is
    that of index 1. *)
Lemma scan_stops_at_tie :
  (sis_worker [0.5]%float [4; 2; 5; 0]%Z).(t_rate) = [1; 1; 1.25; 0]%float /\
  ((gsl_rng_uniform_pos (sis_worker [0.5]%float [4; 2; 5; 0]%Z).(rng)).1 *
     (sis_worker [0.5]%float [4; 2; 5; 0]%Z).(sum_t_rate) !!! 0%nat)%float
    = 1%float /\
  draw_transition (rate_of (sis_worker [0.5]%float [4; 2; 5; 0]%Z) 0) 2 1%float
    = Some 0 /\
  (1 <? cum_rate (rate_of (sis_worker [0.5]%float [4; 2; 5; 0]%Z) 0) 0)%float
    = false /\
  (1 <? cum_rate (rate_of (sis_worker [0.5]%float [4; 2; 5; 0]%Z) 0) 1)%float
    = true /\
  (fire_transition (sis_worker [0.5]%float [4; 2; 5; 0]%Z) 0).2.(u)
    = [3; 3; 5; 0]%Z.
Proof. repeat split; reflexivity. Qed.

(** C3 at work: firing S -> I in a node with (S, I) = (9, 1), and in a
    node with no susceptible, where the count turns negative. *)
Lemma update_state_adds_column_witness :
  (update_state (sis_worker [] [9; 1; 0; 0]%Z) 0 0).(u) !!! 0 = int_add 9 (-1) /\
  (update_state (sis_worker [] [9; 1; 0; 0]%Z) 0 0).(u) !!! 1 = int_add 1 1 /\
  (update_state (sis_worker [] [9; 1; 0; 0]%Z) 0 0).(u) !!! 2 = 0%Z /\
  (update_state (sis_worker [] [9; 1; 0; 0]%Z) 0 0).(errcode) = 0%Z /\
  (update_state (sis_worker [] [9; 1; 0; 0]%Z) 1 0).(errcode)
    = SIMINF_ERR_NEGATIVE_STATE.
Proof.
  destruct (update_state_adds_column (sis_worker [] [9; 1; 0; 0]%Z) 0 0)
    as (Hadd & Hkeep & _ & _ & Hok & _).
  { apply (bool_decide_unpack _). vm_compute. exact I. }
  { apply Forall_forall. apply (bool_decide_unpack _). vm_compute. exact I. }
  destruct (update_state_adds_column (sis_worker [] [9; 1; 0; 0]%Z) 1 0)
    as (_ & _ & _ & Hneg & _).
  { apply (bool_decide_unpack _). vm_compute. exact I. }
  { apply Forall_forall. apply (bool_decide_unpack _). vm_compute. exact I. }
  split; [|split; [|split; [|split]]].
  - apply (Hadd 0). apply (bool_decide_unpack _). vm_compute. exact I.
  - apply (Hadd 1). apply (bool_decide_unpack _). vm_compute. exact I.
  - apply (Hkeep 2). apply Forall_forall.
    apply (bool_decide_unpack _). vm_compute. exact I.
  - apply Hok. apply Forall_forall.
    apply (bool_decide_unpack _). vm_compute. exact I.
  - apply Hneg. exists 0. split.
    + apply (bool_decide_unpack _). vm_compute. exact I.
    + vm_compute. reflexivity.
Defined.

(** C4 at work: the refresh after S -> I has fired in node 0. *)
Lemma refresh_rates_dependency_graph_witness :
  rate_of (refresh_rates (update_state (sis_worker [] [9; 1; 0; 0]%Z) 0 0) 0 0)
    0 0 = 2%float /\
  rate_of (refresh_rates (update_state (sis_worker [] [9; 1; 0; 0]%Z) 0 0) 0 0)
    0 1 = 1%float /\
  (refresh_rates (update_state (sis_worker [] [9; 1; 0; 0]%Z) 0 0) 0 0)
    .(sum_t_rate) !!! 0%nat = (2.75 + (0 + (2 - 2.25) + (1 - 0.5)))%float /\
  (refresh_rates (update_state (sis_worker [] [9; 1; 0; 0]%Z) 0 0) 0 0)
    .(t_rate) !!! 2%nat = 0%float.
Proof.
  destruct (refresh_rates_dependency_graph
              (update_state (sis_worker [] [9; 1; 0; 0]%Z) 0 0) 0 0)
    as (Hnew & Hkeep & _ & Hsum & _).
  { apply (bool_decide_unpack _). vm_compute. exact I. }
  { apply Forall_forall. apply (bool_decide_unpack _). vm_compute. exact I. }
  { vm_compute. lia. }
  split; [|split; [|split]].
  - apply (Hnew 0). apply (bool_decide_unpack _). vm_compute. exact I.
  - apply (Hnew 1). apply (bool_decide_unpack _). vm_compute. exact I.
  - exact Hsum.
  - apply (Hkeep 2). apply Forall_forall.
    apply (bool_decide_unpack _). vm_compute. exact I.
Defined.

(** The worker of the example with the callback [decay_phi], at the
    start of day 1. *)
Definition decaying_worker : SimInf_thread_args :=
  set_next_day
    (set_tt (init_worker (sis_setup_with decay_phi [] [9; 1; 5; 0]%Z)) 1%float)
    2%float.

(** C9 at work: a failing callback, one that asks for an update, and one
    that does not. *)
Lemma post_nodes_callback_witness :
  (post_nodes (sis_setup_with failing_phi [] [0; 0; 0; 0]%Z) [1; 0]).(errcode)
    = (-1)%Z /\
  (exists sa2, post_nodes decaying_worker [0] = post_nodes sa2 [] /\
     rate_of sa2 0 0 = (0.5 * 0.25 * 9)%float /\
     sa2.(update_node) !!! 0%nat = 0%Z) /\
  post_nodes (sis_worker [] [9; 1; 5; 0]%Z) [0] =
    post_nodes (call_pts_fun (sis_worker [] [9; 1; 5; 0]%Z) 0).2 [].
Proof.
  split; [|split].
  - destruct (post_nodes_callback
                (sis_setup_with failing_phi [] [0; 0; 0; 0]%Z) 1 [0])
      as (Hfatal & _).
    { intros j Hj. vm_compute in Hj |- *. lia. }
    { vm_compute. lia. }
    { vm_compute. lia. }
    destruct Hfatal as (_ & Herr & _); [vm_compute; reflexivity|].
    exact Herr.
  - destruct (post_nodes_callback decaying_worker 0 [])
      as (_ & Hrefresh & _).
    { intros j Hj. vm_compute in Hj |- *. lia. }
    { vm_compute. lia. }
    { vm_compute. lia. }
    destruct Hrefresh as (Hgo & Hnew & _ & Hflag & _).
    { vm_compute. discriminate. }
    { left. vm_compute. reflexivity. }
    eexists. split; [exact Hgo|]. split; [|exact Hflag].
    apply (Hnew 0). vm_compute. lia.
  - destruct (post_nodes_callback (sis_worker [] [9; 1; 5; 0]%Z) 0 [])
      as (_ & _ & Hkeep).
    { intros j Hj. vm_compute in Hj |- *. lia. }
    { vm_compute. lia. }
    { vm_compute. lia. }
    destruct (Hkeep eq_refl eq_refl) as (Hgo & _). exact Hgo.
Defined.

(** C10 at work: column 1 of [V] holds the halved [phi] of [v_new], not
    the 0.5 of [v]. *)
Lemma dense_columns_copy_v_new_witness :
  exists Um' Vm',
    (post_worker decaying_worker
       (mk_output (Some (replicate 12 0%Z)) (Some (replicate 6 0%float)))).2
      = mk_output (Some Um') (Some Vm') /\
    Vm' !!! 2%nat = 0.25%float /\ Vm' !!! 3%nat = 0.25%float /\
    decaying_worker.(v) = [0.5; 0.5]%float /\
    Um' !!! 4%nat = 9%Z.
Proof.
  destruct (dense_columns_copy_v_new decaying_worker (replicate 12 0%Z)
              (replicate 6 0%float))
    as (Um' & Vm' & Hout & _ & HV & HU & _);
    [vm_compute; lia..|].
  exists Um', Vm'. split; [exact Hout|].
  destruct (HV 1) as [_ Hcopy]; [vm_compute; lia|].
  destruct (HU 1) as [_ Hcount]; [vm_compute; lia|].
  split; [|split; [|split]].
  - apply (Hcopy 0); vm_compute; lia.
  - apply (Hcopy 1); vm_compute; lia.
  - reflexivity.
  - apply (Hcount 0); vm_compute; lia.
Defined.

(** The arguments of a run of the SISe example: two nodes, one worker,
    three sample times, dense [U] and [V]. *)
Definition sis_args : Args.SimInf_solver_args :=
  {| Args.u0 := [9; 1; 5; 0]%Z; Args.v0 := [0.5; 0.5]%float;
     Args.irG := [0; 1; 0; 1]; Args.jcG := [0; 2; 4];
     Args.irS := [0; 1; 0; 1]; Args.jcS := [0; 2; 4];
     Args.prS := [-1; 1; 1; -1]%Z;
     Args.tspan := [0; 1; 2]%float; Args.tlen := 3;
     Args.U := Some (replicate 12 0%Z);
     Args.V := Some (replicate 6 0%float);
     Args.ldata := []; Args.gdata := [0.5; 0.5]%float;
     Args.Nn := 2; Args.Nc := 2; Args.Nt := 2; Args.Nd := 1; Args.Nld := 0;
     Args.Nthread := 1; Args.seed := 42%Z;
     Args.tr_fun := [SISe_S_to_I; SISe_I_to_S]; Args.pts_fun := decay_phi |}.

(** Five nodes shared by three workers. *)
Definition five_nodes_three_workers : Args.SimInf_solver_args :=
  {| Args.u0 := []; Args.v0 := [];
     Args.irG := []; Args.jcG := [0];
     Args.irS := []; Args.jcS := [0]; Args.prS := [];
     Args.tspan := [0; 1]%float; Args.tlen := 2;
     Args.U := None; Args.V := None;
     Args.ldata := []; Args.gdata := [];
     Args.Nn := 5; Args.Nc := 0; Args.Nt := 0; Args.Nd := 0; Args.Nld := 0;
     Args.Nthread := 3; Args.seed := 42%Z;
     Args.tr_fun := []; Args.pts_fun := keep_phi |}.

(** C8 at work: five nodes, three workers. *)
Lemma node_partition_witness :
  (Ni <$> setup_threads five_nodes_three_workers) = [0; 1; 2] /\
  (Nn <$> setup_threads five_nodes_three_workers) = [1; 1; 3] /\
  partition_Ni 5 3 2 + partition_Nn 5 3 2 = 5 /\
  exists i, i < 3 /\
    partition_Ni 5 3 i <= 4 < partition_Ni 5 3 i + partition_Nn 5 3 i.
Proof.
  destruct (node_partition five_nodes_three_workers)
    as (_ & _ & (_ & _ & Hlast) & _ & _ & _ & Hcover); [vm_compute; lia|].
  split; [reflexivity|]. split; [reflexivity|]. split; [exact Hlast|].
  destruct (Hcover 4) as (i & Hi & Hrange & _); [vm_compute; lia|].
  exists i. split; [exact Hi|exact Hrange].
Defined.

Lemma no_events_keep_cursors (N C D : nat) : events_keep_cursors N C D.
Proof. unfold events_keep_cursors. cbn. auto. Qed.


(** C6 at work: a run over three sample times returns with column 0 of
    [U] and [V] holding [u0] and [v0]. *)
Lemma initial_column_preserved_witness :
  exists rc s out,
    SimInf_run_solver_ssa 3 200 sis_args = Some (rc, s, out) /\
    first_columns 2 2 1 out = (Some [9; 1; 5; 0]%Z, Some [0.5; 0.5]%float).
Proof.
  destruct (initial_column_preserved sis_args 3 200)
    as (_ & _ & _ & _ & _ & Hrun).
  - apply no_events_keep_cursors.
  - reflexivity.
  - reflexivity.
  - intros Um [= <-]. vm_compute. lia.
  - intros Vm [= <-]. vm_compute. lia.
  - destruct (SimInf_run_solver_ssa 3 200 sis_args)
      as [[[rc s] out]|] eqn:Heq.
    + exists rc, s, out. split; [reflexivity|].
      apply (Hrun rc s out). reflexivity.
    + exfalso. vm_compute in Heq. discriminate.
Defined.












(** * Further properties of the solver

    What follows covers the parts of [SimInf_solver_ssa] and
    [SimInf_run_solver_ssa] between the steps studied above: the
    initialisation of the caches, what a step of one node leaves alone,
    the bounds of the sampler, the verdict of the main loop and the
    buffers the set-up hands to the workers. *)

Section KernelInvariants.
Context {P : SimInf_platform}.

(** ** The draw *)

Lemma walk_back_spec (rates : nat -> double) (tr : nat) :
  walk_back rates tr <= tr /\
  (forall k, walk_back rates tr < k <= tr -> (rates k =? 0)%float = true) /\
  (0 < walk_back rates tr ->
     (rates (walk_back rates tr) =? 0)%float = false).
Proof.
  induction tr as [|tr IH]; cbn [walk_back].
  - repeat split; intros; lia.
  - destruct (rates (S tr) =? 0)%float eqn:Hz.
    + destruct IH as (Hle & Hzero & Hnz).
      split; [lia|]. split; [|exact Hnz].
      intros k Hk. destruct (decide (k = S tr)) as [->|Hne]; [exact Hz|].
      apply Hzero. lia.
    + split; [lia|]. split; [intros; lia|]. intros _. exact Hz.
Qed.

(** X1.  The draw of step 1b never selects a transition outside
    [0 .. Nt-1] nor one whose cached rate is zero: a transition it
    returns lies at or below the clamped index of the scan, its rate is
    not zero, and the rates between it and that index are all zero.
    The nil event is taken only when every rate up to the clamped index
    is zero. *)
Theorem draw_transition_sound (rates : nat -> double) (Nt : nat)
    (rand : double) :
  0 < Nt ->
  let tr0 := scan_transition rates Nt rand Nt 0 (rates 0) in
  let tr1 := if Nt <=? tr0 then Nt - 1 else tr0 in
  (forall tr, draw_transition rates Nt rand = Some tr ->
     tr <= tr1 /\ tr1 < Nt /\ (rates tr =? 0)%float = false /\
     forall k, tr < k <= tr1 -> (rates k =? 0)%float = true) /\
  (draw_transition rates Nt rand = None ->
     forall k, k <= tr1 -> (rates k =? 0)%float = true).
Proof.
  intros HNt tr0 tr1.
  assert (Htr1 : tr1 < Nt).
  { subst tr1. destruct (Nat.leb_spec Nt tr0); lia. }
  assert (Hdraw : draw_transition rates Nt rand =
            if (rates tr1 =? 0)%float then
              if (rates (walk_back rates tr1) =? 0)%float then None
              else Some (walk_back rates tr1)
            else Some tr1) by reflexivity.
  destruct (walk_back_spec rates tr1) as (Hle & Hzero & Hnz).
  split.
  - intros tr. rewrite Hdraw.
    destruct (rates tr1 =? 0)%float eqn:Hsel.
    + destruct (rates (walk_back rates tr1) =? 0)%float eqn:Hw;
        [discriminate|].
      intros [= <-]. repeat split; auto.
    + intros [= <-]. repeat split; auto. intros k Hk. lia.
  - rewrite Hdraw.
    destruct (rates tr1 =? 0)%float eqn:Hsel; [|discriminate].
    destruct (rates (walk_back rates tr1) =? 0)%float eqn:Hw;
      [|discriminate].
    intros _ k Hk.
    assert (H0 : walk_back rates tr1 = 0).
    { destruct (walk_back rates tr1) as [|w] eqn:Hwb; [reflexivity|].
      specialize (Hnz ltac:(lia)). congruence. }
    rewrite H0 in Hw, Hzero.
    destruct k as [|k]; [exact Hw|]. apply Hzero. lia.
Qed.

(** ** What the SSA phase only reads *)

(** Every field of a worker but [rng], [u], [t_rate], [sum_t_rate],
    [t_time] and [errcode], and the sizes of those four buffers. *)
Definition ssa_keeps (sa : SimInf_thread_args) :=
  (layout sa, cursors sa, sa.(Nld),
   (sa.(irG), sa.(jcG), sa.(irS), sa.(jcS), sa.(prS)),
   (sa.(tr_fun), sa.(pts_fun), sa.(ldata), sa.(gdata)),
   (sa.(v), sa.(v_new), sa.(update_node), sa.(E1), sa.(E2)),
   (sa.(tt), sa.(next_day)),
   (length sa.(u), length sa.(t_rate), length sa.(sum_t_rate),
    length sa.(t_time))).

Lemma check_rate_keeps (sa : SimInf_thread_args) (rate : double) :
  ssa_keeps (check_rate sa rate) = ssa_keeps sa.
Proof. unfold check_rate. destruct (invalid_rate rate); reflexivity. Qed.

Lemma update_state_entry_keeps (sa : SimInf_thread_args) (node j : nat) :
  ssa_keeps (update_state_entry node sa j) = ssa_keeps sa.
Proof.
  unfold update_state_entry.
  destruct (_ <? 0)%Z; unfold ssa_keeps; cbn; rewrite length_insert;
    reflexivity.
Qed.

Lemma update_state_keeps (sa : SimInf_thread_args) (node tr : nat) :
  ssa_keeps (update_state sa node tr) = ssa_keeps sa.
Proof.
  unfold update_state.
  apply (foldl_invariant (fun a => ssa_keeps a = ssa_keeps sa));
    [|reflexivity].
  intros a j Ha. rewrite update_state_entry_keeps. exact Ha.
Qed.

Lemma refresh_entry_keeps (node : nat) (acc : SimInf_thread_args * double)
    (j : nat) :
  ssa_keeps (refresh_entry node acc j).1 = ssa_keeps acc.1.
Proof.
  unfold refresh_entry. cbn [fst]. rewrite check_rate_keeps.
  unfold ssa_keeps. cbn. rewrite length_insert. reflexivity.
Qed.

Lemma refresh_rates_keeps (sa : SimInf_thread_args) (node tr : nat) :
  ssa_keeps (refresh_rates sa node tr) = ssa_keeps sa.
Proof.
  unfold refresh_rates.
  assert (H0 : ssa_keeps
            (foldl (refresh_entry node) (sa, 0%float) (column sa.(jcG) tr)).1
            = ssa_keeps sa).
  { apply (foldl_invariant (fun acc => ssa_keeps acc.1 = ssa_keeps sa));
      [|reflexivity].
    intros a j Ha. rewrite refresh_entry_keeps. exact Ha. }
  rewrite <- H0. unfold ssa_keeps. cbn. rewrite length_insert. reflexivity.
Qed.

Lemma ssa_step_keeps (sa : SimInf_thread_args) (node : nat) :
  ssa_keeps (ssa_step sa node).2 = ssa_keeps sa.
Proof.
  unfold ssa_step.
  destruct (_ <=? 0)%float.
  { unfold ssa_keeps. cbn. rewrite length_insert. reflexivity. }
  destruct (_ <=? _)%float.
  { unfold ssa_keeps. cbn. rewrite length_insert. reflexivity. }
  unfold fire_transition. destruct (draw_transition _ _ _); cbn [snd].
  - rewrite refresh_rates_keeps, update_state_keeps.
    unfold ssa_keeps. cbn. rewrite length_insert. reflexivity.
  - unfold ssa_keeps. cbn. rewrite !length_insert. reflexivity.
Qed.

Lemma ssa_node_keeps (fuel : nat) (sa sa' : SimInf_thread_args)
    (node : nat) :
  ssa_node fuel sa node = Some sa' -> ssa_keeps sa' = ssa_keeps sa.
Proof.
  revert sa. induction fuel as [|fuel IH]; intros sa; cbn; [discriminate|].
  pose proof (ssa_step_keeps sa node) as Hstep.
  destruct (ssa_step sa node) as [[|] sa1]; cbn [snd] in Hstep.
  - intros [= <-]. exact Hstep.
  - intros Hrun. rewrite (IH sa1 Hrun). exact Hstep.
Qed.

Lemma ssa_nodes_keeps (fuel : nat) (nodes : list nat)
    (sa sa' : SimInf_thread_args) :
  ssa_nodes fuel sa nodes = Some sa' -> ssa_keeps sa' = ssa_keeps sa.
Proof.
  revert sa. induction nodes as [|node nodes IH]; intros sa; cbn.
  - intros [= <-]. reflexivity.
  - destruct (_ =? 0)%Z; [|intros [= <-]; reflexivity].
    destruct (ssa_node fuel sa node) as [sa1|] eqn:Hnode; [|discriminate].
    intros Hrun. rewrite (IH sa1 Hrun). eapply ssa_node_keeps. exact Hnode.
Qed.

(** X2.  The SSA phase of a worker (step 1 for all its nodes) writes
    nothing but the generator, the counts, the rate cache, the node
    clocks and the error code: the continuous state [v] and [v_new],
    the update flags, the event queues, the global clock, the cursors of
    the sampler, the model and the layout are as before, and so are the
    sizes of the buffers it writes.  A worker that enters the phase with
    an error is returned as it is, whatever the bound on the passes. *)
Theorem ssa_worker_keeps (fuel : nat) (sa : SimInf_thread_args) :
  (forall sa', ssa_worker fuel sa = Some sa' ->
     sa'.(v) = sa.(v) /\ sa'.(v_new) = sa.(v_new) /\
     sa'.(update_node) = sa.(update_node) /\
     sa'.(E1) = sa.(E1) /\ sa'.(E2) = sa.(E2) /\
     sa'.(tt) = sa.(tt) /\ sa'.(next_day) = sa.(next_day) /\
     sa'.(U_it) = sa.(U_it) /\ sa'.(V_it) = sa.(V_it) /\
     layout sa' = layout sa /\
     (sa'.(irG) = sa.(irG) /\ sa'.(jcG) = sa.(jcG) /\ sa'.(irS) = sa.(irS) /\
      sa'.(jcS) = sa.(jcS) /\ sa'.(prS) = sa.(prS)) /\
     (sa'.(ldata) = sa.(ldata) /\ sa'.(gdata) = sa.(gdata)) /\
     (length sa'.(u) = length sa.(u) /\
      length sa'.(t_rate) = length sa.(t_rate) /\
      length sa'.(sum_t_rate) = length sa.(sum_t_rate) /\
      length sa'.(t_time) = length sa.(t_time))) /\
  (sa.(errcode) <> 0%Z -> ssa_worker fuel sa = Some sa).
Proof.
  split.
  - intros sa' Hrun. apply ssa_nodes_keeps in Hrun.
    unfold ssa_keeps, cursors in Hrun.
    repeat split; congruence.
  - intros Herr. unfold ssa_worker.
    destruct (seq 0 sa.(Nn)) as [|node nodes]; cbn; [reflexivity|].
    destruct (Z.eqb_spec sa.(errcode) 0); [contradiction|reflexivity].
Qed.

End KernelInvariants.

Section NodeLocality.
Context {P : SimInf_platform}.

(** ** A step of one node stays in that node *)

(** What the work on [node] leaves alone in the buffers the SSA phase
    writes: the counts and the cached rates outside the node's block,
    and the sums and clocks of the other nodes. *)
Definition outside_node (node : nat) (sa sa' : SimInf_thread_args) : Prop :=
  (forall i, ~ (node * sa.(Nc) <= i < node * sa.(Nc) + sa.(Nc)) ->
     sa'.(u) !!! i = sa.(u) !!! i) /\
  (forall i, ~ (node * sa.(Nt) <= i < node * sa.(Nt) + sa.(Nt)) ->
     sa'.(t_rate) !!! i = sa.(t_rate) !!! i) /\
  (forall m, m <> node -> sa'.(sum_t_rate) !!! m = sa.(sum_t_rate) !!! m) /\
  (forall m, m <> node -> sa'.(t_time) !!! m = sa.(t_time) !!! m).

(** The row indices of the state-change matrix are compartments and
    those of the dependency graph are transitions. *)
Definition rows_in_range (sa : SimInf_thread_args) : Prop :=
  (forall j, sa.(irS) !!! j < sa.(Nc)) /\ (forall j, sa.(irG) !!! j < sa.(Nt)).

Definition local_step (node : nat) (sa sa' : SimInf_thread_args) : Prop :=
  ssa_keeps sa' = ssa_keeps sa /\ outside_node node sa sa'.

Lemma ssa_keeps_model (sa sa' : SimInf_thread_args) :
  ssa_keeps sa' = ssa_keeps sa ->
  sa'.(Nc) = sa.(Nc) /\ sa'.(Nt) = sa.(Nt) /\
  sa'.(irS) = sa.(irS) /\ sa'.(irG) = sa.(irG).
Proof. unfold ssa_keeps, layout. intros H. repeat split; congruence. Qed.

Lemma local_step_refl (node : nat) (sa : SimInf_thread_args) :
  local_step node sa sa.
Proof. split; [reflexivity|]. repeat split. Qed.

Lemma local_step_trans (node : nat) (sa1 sa2 sa3 : SimInf_thread_args) :
  local_step node sa1 sa2 -> local_step node sa2 sa3 ->
  local_step node sa1 sa3.
Proof.
  intros [Hk (Hu & Hr & Hs & Ht)] [Hk' (Hu' & Hr' & Hs' & Ht')].
  destruct (ssa_keeps_model _ _ Hk) as (HNc & HNt & _).
  rewrite HNc in Hu'. rewrite HNt in Hr'.
  split; [congruence|].
  repeat split; intros i Hi.
  - rewrite Hu', Hu by exact Hi. reflexivity.
  - rewrite Hr', Hr by exact Hi. reflexivity.
  - rewrite Hs', Hs by exact Hi. reflexivity.
  - rewrite Ht', Ht by exact Hi. reflexivity.
Qed.

Lemma rows_in_range_keeps (sa sa' : SimInf_thread_args) :
  ssa_keeps sa' = ssa_keeps sa -> rows_in_range sa -> rows_in_range sa'.
Proof.
  intros Hk [HS HG].
  destruct (ssa_keeps_model _ _ Hk) as (H1 & H2 & H3 & H4).
  unfold rows_in_range. rewrite H1, H2, H3, H4. split; assumption.
Qed.

Lemma update_state_local (sa : SimInf_thread_args) (node tr : nat) :
  rows_in_range sa -> local_step node sa (update_state sa node tr).
Proof.
  intros Hrows. unfold update_state.
  apply (foldl_invariant (local_step node sa)); [|apply local_step_refl].
  intros a j Ha. eapply local_step_trans; [exact Ha|].
  destruct (rows_in_range_keeps sa a (proj1 Ha) Hrows) as [HS _].
  split; [apply update_state_entry_keeps|].
  specialize (HS j). unfold update_state_entry, outside_node.
  destruct (_ <? 0)%Z; cbn; (split; [|auto]); intros i Hi;
    apply list_lookup_total_insert_ne; lia.
Qed.

Lemma refresh_rates_local (sa : SimInf_thread_args) (node tr : nat) :
  rows_in_range sa -> local_step node sa (refresh_rates sa node tr).
Proof.
  intros Hrows. unfold refresh_rates.
  assert (H0 : local_step node sa
            (foldl (refresh_entry node) (sa, 0%float) (column sa.(jcG) tr)).1).
  { apply (foldl_invariant (fun acc => local_step node sa acc.1));
      [|apply local_step_refl].
    intros a j Ha. eapply local_step_trans; [exact Ha|].
    destruct (rows_in_range_keeps sa a.1 (proj1 Ha) Hrows) as [_ HG].
    split; [apply refresh_entry_keeps|].
    specialize (HG j). unfold refresh_entry, check_rate, outside_node.
    cbn [fst]. destruct (invalid_rate _); cbn;
      (split; [auto|]); (split; [|auto]); intros i Hi;
      apply list_lookup_total_insert_ne; lia. }
  eapply local_step_trans; [exact H0|].
  split.
  - unfold ssa_keeps. cbn. rewrite length_insert. reflexivity.
  - unfold outside_node. cbn. repeat split; auto.
    intros m Hm. apply list_lookup_total_insert_ne. auto.
Qed.

Lemma ssa_step_local (sa : SimInf_thread_args) (node : nat) :
  rows_in_range sa -> local_step node sa (ssa_step sa node).2.
Proof.
  intros Hrows. split; [apply ssa_step_keeps|].
  assert (Hclock : forall sa0 x,
            local_step node sa0 (set_t_time sa0 (<[node := x]> sa0.(t_time)))).
  { intros sa0 x. split.
    - unfold ssa_keeps. cbn. rewrite length_insert. reflexivity.
    - unfold outside_node. cbn. repeat split; auto.
      intros m Hm. apply list_lookup_total_insert_ne. auto. }
  unfold ssa_step.
  destruct (_ <=? 0)%float; [apply Hclock|].
  destruct (_ <=? _)%float.
  { apply (Hclock (set_rng sa _)). }
  set (sa1 := set_t_time _ _).
  assert (H1 : local_step node sa sa1) by apply (Hclock (set_rng sa _)).
  assert (Hrows1 : rows_in_range sa1) by exact Hrows.
  unfold fire_transition.
  set (sa2 := set_rng sa1 _).
  assert (H2 : local_step node sa sa2) by exact H1.
  assert (Hrows2 : rows_in_range sa2) by exact Hrows.
  destruct (draw_transition _ _ _) as [tr|]; cbn [snd].
  - pose proof (update_state_local sa2 node tr Hrows2) as H3.
    pose proof (refresh_rates_local (update_state sa2 node tr) node tr
                  (rows_in_range_keeps _ _ (proj1 H3) Hrows2)) as H4.
    apply (local_step_trans node _ _ _ H2 (local_step_trans node _ _ _ H3 H4)).
  - eapply proj2, local_step_trans; [exact H2|]. split.
    + unfold ssa_keeps. cbn. rewrite length_insert. reflexivity.
    + unfold outside_node. cbn. repeat split; auto.
      intros m Hm. apply list_lookup_total_insert_ne. auto.
Qed.

Lemma ssa_node_local (fuel : nat) (sa sa' : SimInf_thread_args)
    (node : nat) :
  rows_in_range sa -> ssa_node fuel sa node = Some sa' ->
  local_step node sa sa'.
Proof.
  revert sa. induction fuel as [|fuel IH]; intros sa Hrows; cbn;
    [discriminate|].
  pose proof (ssa_step_local sa node Hrows) as Hstep.
  destruct (ssa_step sa node) as [[|] sa1]; cbn [snd] in Hstep.
  - intros [= <-]. exact Hstep.
  - intros Hrun. eapply local_step_trans; [exact Hstep|].
    apply IH; [|exact Hrun].
    eapply rows_in_range_keeps; [exact (proj1 Hstep)|exact Hrows].
Qed.

(** X3.  With the row indices of the state-change matrix below [Nc] and
    those of the dependency graph below [Nt], the inner loop of step (1)
    for [node] stays in that node, however many events it fires: the
    counts outside the node's [Nc] cells, the cached rates outside its
    [Nt] cells, and the rate sums and clocks of all other nodes of the
    worker are as before. *)
Theorem ssa_node_stays_in_node (fuel : nat) (sa sa' : SimInf_thread_args)
    (node : nat) :
  (forall j, sa.(irS) !!! j < sa.(Nc)) ->
  (forall j, sa.(irG) !!! j < sa.(Nt)) ->
  ssa_node fuel sa node = Some sa' ->
  (forall i, ~ (node * sa.(Nc) <= i < node * sa.(Nc) + sa.(Nc)) ->
     sa'.(u) !!! i = sa.(u) !!! i) /\
  (forall i, ~ (node * sa.(Nt) <= i < node * sa.(Nt) + sa.(Nt)) ->
     sa'.(t_rate) !!! i = sa.(t_rate) !!! i) /\
  (forall m, m <> node -> sa'.(sum_t_rate) !!! m = sa.(sum_t_rate) !!! m) /\
  (forall m, m <> node -> sa'.(t_time) !!! m = sa.(t_time) !!! m).
Proof.
  intros HS HG Hrun.
  exact (proj2 (ssa_node_local fuel sa sa' node (conj HS HG) Hrun)).
Qed.

End NodeLocality.

Section InitialCaches.
Context {P : SimInf_platform}.

(** ** The caches after the initialisation *)

(** The sum of the initial rates of [node] over the transitions [js],
    added to [s] from the left, as the initialisation adds them. *)
Definition initial_sum (sa : SimInf_thread_args) (node : nat) (s : double)
    (js : list nat) : double :=
  foldl (fun s j => (s + initial_rate sa node j)%float) s js.

Lemma init_rate_cache (sa : SimInf_thread_args) (node j : nat)
    (rates sums clocks : list double) (e : Z) :
  init_rate node (with_cache sa rates sums clocks e) j =
    with_cache sa (<[node * sa.(Nt) + j := initial_rate sa node j]> rates)
      (<[node := (sums !!! node + initial_rate sa node j)%float]> sums)
      clocks
      (if invalid_rate (initial_rate sa node j)
       then SIMINF_ERR_INVALID_RATE else e).
Proof.
  unfold init_rate, check_rate. cbn.
  change (call_tr_fun _ j node sa.(v) sa.(tt)) with (initial_rate sa node j).
  destruct (invalid_rate (initial_rate sa node j)); reflexivity.
Qed.

Lemma init_rates_cache (sa : SimInf_thread_args) (node : nat)
    (js : list nat) (rates sums clocks : list double) (e : Z) :
  exists rates' sums' e',
    foldl (init_rate node) (with_cache sa rates sums clocks e) js =
      with_cache sa rates' sums' clocks e' /\
    length rates' = length rates /\ length sums' = length sums /\
    (forall j, j ∈ js -> node * sa.(Nt) + j < length rates ->
       rates' !!! (node * sa.(Nt) + j) = initial_rate sa node j) /\
    (forall k, (forall j, j ∈ js -> k <> node * sa.(Nt) + j) ->
       rates' !!! k = rates !!! k) /\
    (node < length sums ->
       sums' !!! node = initial_sum sa node (sums !!! node) js) /\
    (forall m, m <> node -> sums' !!! m = sums !!! m).
Proof.
  revert rates sums e.
  induction js as [|j0 js IH]; intros rates sums e; cbn [foldl].
  - exists rates, sums, e. repeat split; auto. intros j Hj. inversion Hj.
  - rewrite init_rate_cache.
    set (r1 := <[node * sa.(Nt) + j0 := initial_rate sa node j0]> rates).
    set (s1 := <[node := (sums !!! node + initial_rate sa node j0)%float]> sums).
    destruct (IH r1 s1 (if invalid_rate (initial_rate sa node j0)
                        then SIMINF_ERR_INVALID_RATE else e))
      as (rates' & sums' & e' & Heq & Hlr & Hls & Hnew & Hkeep & Hsum & Hoth).
    assert (Hlr1 : length r1 = length rates) by apply length_insert.
    assert (Hls1 : length s1 = length sums) by apply length_insert.
    exists rates', sums', e'. split; [exact Heq|].
    split; [lia|]. split; [lia|]. split; [|split; [|split]].
    + intros j Hj Hrange.
      destruct (decide (j ∈ js)) as [Hin|Hin].
      * apply Hnew; [exact Hin|lia].
      * apply elem_of_cons in Hj as [->|Hj]; [|contradiction].
        rewrite Hkeep.
        -- subst r1. apply list_lookup_total_insert_eq. exact Hrange.
        -- intros j Hj Heq'. apply Hin.
           replace j0 with j by lia. exact Hj.
    + intros k Hk. rewrite Hkeep.
      * subst r1. apply list_lookup_total_insert_ne.
        intros Heq'. apply (Hk j0); [left|symmetry; exact Heq'].
      * intros j Hj. apply Hk. right. exact Hj.
    + intros Hnode. rewrite Hsum by lia. unfold initial_sum. cbn [foldl].
      f_equal. subst s1. apply list_lookup_total_insert_eq. exact Hnode.
    + intros m Hm. rewrite Hoth by exact Hm.
      subst s1. apply list_lookup_total_insert_ne. auto.
Qed.

Lemma init_node_cache (sa : SimInf_thread_args) (node : nat)
    (rates sums clocks : list double) (e : Z) :
  exists rates' sums' e',
    init_node (with_cache sa rates sums clocks e) node =
      with_cache sa rates' sums' (<[node := sa.(tt)]> clocks) e' /\
    length rates' = length rates /\ length sums' = length sums /\
    (forall j, j < sa.(Nt) -> node * sa.(Nt) + j < length rates ->
       rates' !!! (node * sa.(Nt) + j) = initial_rate sa node j) /\
    (forall k, ~ (node * sa.(Nt) <= k < node * sa.(Nt) + sa.(Nt)) ->
       rates' !!! k = rates !!! k) /\
    (node < length sums ->
       sums' !!! node = initial_sum sa node 0%float (seq 0 sa.(Nt))) /\
    (forall m, m <> node -> sums' !!! m = sums !!! m).
Proof.
  unfold init_node.
  change (set_sum_t_rate (with_cache sa rates sums clocks e)
            (<[node := 0%float]> (with_cache sa rates sums clocks e).(sum_t_rate)))
    with (with_cache sa rates (<[node := 0%float]> sums) clocks e).
  change ((with_cache sa rates (<[node := 0%float]> sums) clocks e).(Nt))
    with sa.(Nt).
  destruct (init_rates_cache sa node (seq 0 sa.(Nt)) rates
              (<[node := 0%float]> sums) clocks e)
    as (rates' & sums' & e' & Heq & Hlr & Hls & Hnew & Hkeep & Hsum & Hoth).
  rewrite length_insert in Hls, Hsum.
  exists rates', sums', e'. rewrite Heq.
  split; [reflexivity|]. split; [exact Hlr|]. split; [exact Hls|].
  split; [|split; [|split]].
  - intros j Hj. apply Hnew. apply elem_of_seq. lia.
  - intros k Hk. apply Hkeep. intros j Hj. apply elem_of_seq in Hj. lia.
  - intros Hnode. rewrite Hsum by exact Hnode.
    rewrite list_lookup_total_insert_eq by exact Hnode. reflexivity.
  - intros m Hm. rewrite Hoth by exact Hm.
    apply list_lookup_total_insert_ne. auto.
Qed.

Lemma init_nodes_cache (sa : SimInf_thread_args) (nodes : list nat)
    (rates sums clocks : list double) (e : Z) :
  NoDup nodes ->
  exists rates' sums' clocks' e',
    foldl init_node (with_cache sa rates sums clocks e) nodes =
      with_cache sa rates' sums' clocks' e' /\
    (length rates' = length rates /\ length sums' = length sums /\
     length clocks' = length clocks) /\
    (forall node, node ∈ nodes ->
       (forall j, j < sa.(Nt) -> node * sa.(Nt) + j < length rates ->
          rates' !!! (node * sa.(Nt) + j) = initial_rate sa node j) /\
       (node < length sums ->
          sums' !!! node = initial_sum sa node 0%float (seq 0 sa.(Nt))) /\
       (node < length clocks -> clocks' !!! node = sa.(tt))) /\
    (forall node, node ∉ nodes ->
       (forall j, j < sa.(Nt) ->
          rates' !!! (node * sa.(Nt) + j) = rates !!! (node * sa.(Nt) + j)) /\
       sums' !!! node = sums !!! node /\
       clocks' !!! node = clocks !!! node).
Proof.
  revert rates sums clocks e.
  induction nodes as [|n0 nodes IH]; intros rates sums clocks e Hdup;
    cbn [foldl].
  - exists rates, sums, clocks, e. split; [reflexivity|]. split; [auto|].
    split; [intros node Hn; inversion Hn|]. auto.
  - apply NoDup_cons in Hdup as [Hn0 Hdup].
    destruct (init_node_cache sa n0 rates sums clocks e)
      as (r1 & s1 & e1 & -> & Hlr1 & Hls1 & Hnew1 & Hkeep1 & Hsum1 & Hoth1).
    destruct (IH r1 s1 (<[n0 := sa.(tt)]> clocks) e1 Hdup)
      as (rates' & sums' & clocks' & e' & Heq & (Hlr & Hls & Hlc) & Hin & Hout).
    rewrite length_insert in Hlc.
    exists rates', sums', clocks', e'. split; [exact Heq|].
    split; [repeat split; lia|]. split.
    + intros node Hnode. apply elem_of_cons in Hnode as [->|Hnode].
      * destruct (Hout n0 Hn0) as (Hr & Hs & Hc). repeat split.
        -- intros j Hj Hrange. rewrite Hr by exact Hj. apply Hnew1; assumption.
        -- intros Hlt. rewrite Hs. apply Hsum1. exact Hlt.
        -- intros Hlt. rewrite Hc.
           apply list_lookup_total_insert_eq. exact Hlt.
      * destruct (Hin node Hnode) as (Hr & Hs & Hc). repeat split.
        -- intros j Hj Hrange. apply Hr; [exact Hj|lia].
        -- intros Hlt. apply Hs. lia.
        -- intros Hlt. apply Hc. rewrite length_insert. exact Hlt.
    + intros node Hnode. apply not_elem_of_cons in Hnode as [Hne Hnode].
      destruct (Hout node Hnode) as (Hr & Hs & Hc). repeat split.
      * intros j Hj. rewrite Hr by exact Hj. apply Hkeep1. nia.
      * rewrite Hs. apply Hoth1. exact Hne.
      * rewrite Hc. apply list_lookup_total_insert_ne. auto.
Qed.

(** X4.  After the initialisation of a worker whose caches hold [Nn]
    nodes, every node of the worker has its clock at the global time
    [tt], every cached rate is the value its propensity returns on the
    initial state at [tt], and the cached sum of the node is the sum of
    its cached rates, added from 0.0 in the order of the transitions;
    the initialisation of a later node does not disturb what that of an
    earlier node has stored.  Counts and continuous state are left as
    they are. *)
Theorem init_worker_caches (sa : SimInf_thread_args) (node : nat) :
  sa.(Nn) * sa.(Nt) <= length sa.(t_rate) ->
  sa.(Nn) <= length sa.(sum_t_rate) ->
  sa.(Nn) <= length sa.(t_time) ->
  node < sa.(Nn) ->
  let sa' := init_worker sa in
  sa'.(t_time) !!! node = sa.(tt) /\
  (forall j, j < sa.(Nt) -> rate_of sa' node j = initial_rate sa node j) /\
  sa'.(sum_t_rate) !!! node =
    foldl (fun s j => (s + rate_of sa' node j)%float) 0%float
      (seq 0 sa.(Nt)) /\
  sa'.(u) = sa.(u) /\ sa'.(v) = sa.(v) /\ sa'.(v_new) = sa.(v_new).
Proof.
  intros Hrates Hsums Hclocks Hnode sa'.
  destruct (init_nodes_cache sa (seq 0 sa.(Nn)) sa.(t_rate) sa.(sum_t_rate)
              sa.(t_time) sa.(errcode) (NoDup_seq 0 sa.(Nn)))
    as (rates' & sums' & clocks' & e' & Heq & _ & Hin & _).
  rewrite with_cache_id in Heq.
  assert (Hsa' : sa' = with_cache sa rates' sums' clocks' e') by exact Heq.
  destruct (Hin node) as (Hr & Hs & Hc); [apply elem_of_seq; lia|].
  assert (Hrate : forall j, j < sa.(Nt) ->
            rate_of sa' node j = initial_rate sa node j).
  { intros j Hj. rewrite Hsa'. unfold rate_of. cbn.
    apply Hr; [exact Hj|nia]. }
  split; [rewrite Hsa'; cbn; apply Hc; lia|].
  split; [exact Hrate|]. split; [|rewrite Hsa'; cbn; auto].
  replace (sa'.(sum_t_rate) !!! node) with (sums' !!! node)
    by (rewrite Hsa'; reflexivity).
  rewrite Hs by lia. unfold initial_sum.
  generalize 0%float.
  assert (Hall : forall j, j ∈ seq 0 sa.(Nt) -> j < sa.(Nt)).
  { intros j Hj. apply elem_of_seq in Hj. lia. }
  revert Hall. generalize (seq 0 sa.(Nt)).
  intros l. induction l as [|j l IHl]; intros Hall s; cbn [foldl];
    [reflexivity|].
  rewrite Hrate by (apply Hall; left).
  apply IHl. intros j' Hj'. apply Hall. right. exact Hj'.
Qed.

End InitialCaches.

Section SamplerBounds.
Context {P : SimInf_platform}.

(** ** The bounds of the dense sampler *)

Lemma sample_loop_le {A : Type} (tspan : list double) (tlen : nat)
    (tt : double) (base : nat -> nat) (src : list A) (fuel it : nat)
    (M : list A) :
  it <= (sample_loop tspan tlen tt base src fuel it M).1.
Proof.
  revert it M. induction fuel as [|fuel IH]; intros it M; cbn [sample_loop].
  - cbn. lia.
  - destruct ((it <? tlen) && (tspan !!! it <? tt)%float); [|cbn; lia].
    specialize (IH (S it) (list_inserts (base it) src M)). lia.
Qed.

Lemma sample_loop_exit {A : Type} (tspan : list double) (tlen : nat)
    (tt : double) (base : nat -> nat) (src : list A) (fuel it : nat)
    (M : list A) :
  tlen - it <= fuel ->
  let r := sample_loop tspan tlen tt base src fuel it M in
  (r.1 <? tlen) && (tspan !!! r.1 <? tt)%float = false.
Proof.
  revert it M. induction fuel as [|fuel IH]; intros it M Hfuel;
    cbv zeta; cbn [sample_loop].
  - cbn. apply andb_false_iff. left. apply Nat.ltb_ge. lia.
  - destruct ((it <? tlen) && (tspan !!! it <? tt)%float) eqn:Hcond.
    + apply IH. lia.
    + exact Hcond.
Qed.

Lemma sample_loop_length {A : Type} (tspan : list double) (tlen : nat)
    (tt : double) (base : nat -> nat) (src : list A) (fuel it : nat)
    (M : list A) :
  length (sample_loop tspan tlen tt base src fuel it M).2 = length M.
Proof.
  revert it M. induction fuel as [|fuel IH]; intros it M; cbn [sample_loop].
  - reflexivity.
  - destruct ((it <? tlen) && (tspan !!! it <? tt)%float); [|reflexivity].
    rewrite IH. apply length_inserts.
Qed.

Lemma sample_loop_outside {A : Type} `{!Inhabited A} (tspan : list double)
    (tlen : nat) (tt : double) (base : nat -> nat) (src : list A)
    (fuel it : nat) (M : list A) (i : nat) :
  (forall k, it <= k < (sample_loop tspan tlen tt base src fuel it M).1 ->
     ~ (base k <= i < base k + length src)) ->
  (sample_loop tspan tlen tt base src fuel it M).2 !!! i = M !!! i.
Proof.
  revert it M. induction fuel as [|fuel IH]; intros it M; cbn [sample_loop].
  - auto.
  - destruct ((it <? tlen) && (tspan !!! it <? tt)%float); [|auto].
    intros Hout.
    pose proof (sample_loop_le tspan tlen tt base src fuel (S it)
                  (list_inserts (base it) src M)) as Hle.
    rewrite IH by (intros k Hk; apply Hout; lia).
    specialize (Hout it ltac:(lia)).
    destruct (decide (i < base it)) as [Hlt|Hge].
    + apply list_lookup_total_inserts_lt. exact Hlt.
    + apply list_lookup_total_inserts_ge. lia.
Qed.

Lemma row_block_fits (c n i m k tlen : nat) :
  i + m <= n -> k < tlen -> c * (n * k + i) + m * c <= n * c * tlen.
Proof.
  intros Him Hk.
  replace (c * (n * k + i) + m * c) with (c * (n * k + (i + m))) by lia.
  transitivity (c * (n * S k)).
  - apply Nat.mul_le_mono_l. lia.
  - rewrite (Nat.mul_comm n c), <- Nat.mul_assoc.
    apply Nat.mul_le_mono_l, Nat.mul_le_mono_l. lia.
Qed.

(** X5.  The sampling loop of a worker for the dense [U] (step 6a),
    run from the worker's cursor: it changes nothing of the worker but
    the cursor, which never moves back and never passes [tlen] (when it
    started below); when the loop is left its condition is false, so no
    column that is due stays unwritten; every column [k] it writes lies
    in the matrix, and for a worker whose nodes [Ni .. Ni+Nn-1] are
    among the [Ntot] nodes the block written, of [Nn * Nc] cells from
    [Nc * (Ntot * k + Ni)], lies inside the [Ntot * Nc * tlen] cells of
    [U]; every cell of [U] outside these blocks is left as it is. *)
Theorem sample_U_bounds (sa : SimInf_thread_args) (Um : list Z) :
  sa.(Ni) + sa.(Nn) <= sa.(Ntot) ->
  let r := sample_U (sa.(tlen) - sa.(U_it)) sa Um in
  let base := fun k => sa.(Nc) * (sa.(Ntot) * k + sa.(Ni)) in
  r.1 = set_U_it sa r.1.(U_it) /\
  sa.(U_it) <= r.1.(U_it) <= Nat.max sa.(U_it) sa.(tlen) /\
  (r.1.(U_it) <? sa.(tlen)) && (sa.(tspan) !!! r.1.(U_it) <? sa.(tt))%float
    = false /\
  length r.2 = length Um /\
  (forall k, sa.(U_it) <= k < r.1.(U_it) ->
     k < sa.(tlen) /\
     base k + sa.(Nn) * sa.(Nc) <= sa.(Ntot) * sa.(Nc) * sa.(tlen)) /\
  (forall i,
     (forall k, sa.(U_it) <= k < r.1.(U_it) ->
        ~ (base k <= i < base k + sa.(Nn) * sa.(Nc))) ->
     r.2 !!! i = Um !!! i).
Proof.
  intros Hblock r base.
  pose proof (sample_U_loop (sa.(tlen) - sa.(U_it)) sa sa.(U_it) Um) as Hloop.
  rewrite set_U_it_id in Hloop. fold r base in Hloop.
  set (src := take (sa.(Nn) * sa.(Nc)) sa.(u)) in Hloop.
  set (lp := sample_loop sa.(tspan) sa.(tlen) sa.(tt) base src
               (sa.(tlen) - sa.(U_it)) sa.(U_it) Um) in Hloop.
  assert (Hit : r.1.(U_it) = lp.1) by (rewrite Hloop; reflexivity).
  assert (HM : r.2 = lp.2) by (rewrite Hloop; reflexivity).
  assert (Hle : sa.(U_it) <= lp.1) by apply sample_loop_le.
  assert (Hcols : forall k, sa.(U_it) <= k < lp.1 -> k < sa.(tlen)).
  { intros k Hk.
    apply (sample_loop_strict sa.(tspan) sa.(tlen) sa.(tt) base src
             (sa.(tlen) - sa.(U_it)) sa.(U_it) Um k Hk). }
  assert (Hsrc : length src <= sa.(Nn) * sa.(Nc)).
  { subst src. rewrite length_take. lia. }
  rewrite Hit, HM.
  split; [rewrite Hloop; reflexivity|]. split; [|split; [|split; [|split]]].
  - split; [exact Hle|].
    destruct (decide (lp.1 = sa.(U_it))) as [->|Hne]; [lia|].
    specialize (Hcols (lp.1 - 1) ltac:(lia)). lia.
  - apply (sample_loop_exit sa.(tspan) sa.(tlen) sa.(tt) base src). lia.
  - apply sample_loop_length.
  - intros k Hk. split; [apply Hcols; exact Hk|].
    apply row_block_fits; [exact Hblock|apply Hcols; exact Hk].
  - intros i Hi.
    apply (sample_loop_outside sa.(tspan) sa.(tlen) sa.(tt) base src).
    intros k Hk Hin. apply (Hi k Hk). lia.
Qed.

End SamplerBounds.

Section Verdict.
Context {P : SimInf_platform} {E : SimInf_events}.

(** ** The value the solver returns *)

Lemma first_error_zero (l : list SimInf_thread_args) :
  first_error l = 0%Z <-> Forall (fun sa => sa.(errcode) = 0%Z) l.
Proof.
  induction l as [|sa l IH]; cbn.
  - split; auto.
  - destruct (Z.eqb_spec sa.(errcode) 0) as [He|He].
    + rewrite IH. split.
      * intros Hall. apply Forall_cons. auto.
      * intros Hall. apply Forall_cons in Hall as [_ Hall]. exact Hall.
    + split; [contradiction|].
      intros Hall. apply Forall_cons in Hall as [Hsa _]. contradiction.
Qed.

Lemma first_error_held (l : list SimInf_thread_args) :
  first_error l <> 0%Z ->
  exists k sa, l !! k = Some sa /\ sa.(errcode) = first_error l /\
    forall k' sa', k' < k -> l !! k' = Some sa' -> sa'.(errcode) = 0%Z.
Proof.
  induction l as [|sa l IH]; cbn; [contradiction|].
  destruct (Z.eqb_spec sa.(errcode) 0) as [He|He].
  - intros Hne. destruct (IH Hne) as (k & sa1 & Hk & Hcode & Hbefore).
    exists (S k), sa1. split; [exact Hk|]. split; [exact Hcode|].
    intros [|k'] sa' Hlt Hsa'; cbn in Hsa'.
    + injection Hsa' as <-. exact He.
    + apply (Hbefore k'); [lia|exact Hsa'].
  - intros _. exists 0, sa. split; [reflexivity|]. split; [reflexivity|].
    intros k' sa' Hlt. lia.
Qed.

Lemma main_loop_verdict (days fuel : nat) (s s' : list SimInf_thread_args)
    (out out' : SimInf_output) (rc : Z) :
  main_loop days fuel s out = Some (rc, s', out') ->
  rc = first_error s' /\
  (rc = 0%Z -> exists sa0 rest, s' = sa0 :: rest /\ sa0.(tlen) <= sa0.(U_it)).
Proof.
  revert s out. induction days as [|days IH]; intros s out; cbn [main_loop];
    [discriminate|].
  destruct (solver_day fuel s out) as [[[res s1] o1]|] eqn:Hday;
    [|discriminate].
  destruct res as [c|]; [|apply IH].
  intros Hret. inversion Hret; subst. clear Hret.
  unfold solver_day in Hday.
  destruct (ssa_workers fuel s) as [w|]; [|discriminate].
  set (s3 := SimInf_store_solution_sparse _) in Hday.
  pose proof (swap_and_check_first_error s3) as Hfirst.
  destruct (negb ((swap_and_check s3).2 =? 0)%Z) eqn:Hnz.
  - inversion Hday; subst. split; [symmetry; exact Hfirst|].
    intros H0. rewrite H0 in Hnz. discriminate.
  - apply negb_false_iff, Z.eqb_eq in Hnz.
    revert Hday Hfirst. destruct (swap_and_check s3).1 as [|sa0 rest];
      [discriminate|].
    destruct (Nat.leb_spec sa0.(tlen) sa0.(U_it)); intros Hday Hfirst;
      inversion Hday; subst.
    split; [congruence|]. intros _. exists sa0, rest. auto.
Qed.

(** X6.  Whatever [SimInf_solver_ssa] returns is the error code of the
    first worker that holds one, all workers before it holding none,
    and 0 when no worker holds an error.  So 0 is returned only when
    the error code of every worker is 0, and then the sampling cursor
    of worker 0 has reached [tlen]: the solver never reports success
    with a failed worker or before the last sample time is passed. *)
Theorem solver_verdict (days fuel : nat) (s s' : list SimInf_thread_args)
    (out out' : SimInf_output) (rc : Z) :
  SimInf_solver_ssa days fuel s out = Some (rc, s', out') ->
  rc = first_error s' /\
  (rc = 0%Z <-> Forall (fun sa => sa.(errcode) = 0%Z) s') /\
  (rc <> 0%Z ->
     exists k sa, s' !! k = Some sa /\ sa.(errcode) = rc /\
       forall k' sa', k' < k -> s' !! k' = Some sa' -> sa'.(errcode) = 0%Z) /\
  (rc = 0%Z -> exists sa0 rest, s' = sa0 :: rest /\ sa0.(tlen) <= sa0.(U_it)).
Proof.
  intros Hrun.
  assert (H : rc = first_error s' /\
              (rc = 0%Z -> exists sa0 rest,
                 s' = sa0 :: rest /\ sa0.(tlen) <= sa0.(U_it))).
  { unfold SimInf_solver_ssa in Hrun.
    destruct (negb (first_error (map init_worker s) =? 0)%Z) eqn:Hinit.
    - inversion Hrun; subst. split; [reflexivity|].
      intros H0. rewrite H0 in Hinit. discriminate.
    - eapply main_loop_verdict. exact Hrun. }
  destruct H as [Hrc Hdone]. split; [exact Hrc|].
  split; [rewrite Hrc; apply first_error_zero|].
  split; [|exact Hdone].
  intros Hne. rewrite Hrc in Hne |- *. apply first_error_held. exact Hne.
Qed.

End Verdict.

Section Buffers.
Context {P : SimInf_platform} {E : SimInf_events}.

(** ** The buffers of the workers *)


Lemma concat_slices {A : Type} (l : list A) (m k : nat) :
  concat ((fun i => take m (drop (i * m) l)) <$> seq 0 k) = take (k * m) l.
Proof.
  induction k as [|k IH]; [reflexivity|].
  rewrite seq_S, fmap_app, concat_app, IH. cbn [fmap list_fmap concat].
  rewrite app_nil_r, take_take_drop. f_equal. lia.
Qed.

Lemma partition_slices {A : Type} (l : list A) (n nthread c : nat) :
  0 < nthread -> length l = n * c ->
  concat ((fun i => take (partition_Nn n nthread i * c)
                      (drop (partition_Ni n nthread i * c) l))
          <$> seq 0 nthread) = l.
Proof.
  intros Hpos Hlen. destruct nthread as [|t]; [lia|].
  rewrite seq_S, fmap_app, concat_app. cbn [fmap list_fmap concat].
  rewrite app_nil_r.
  pose proof (Nat.div_mod_eq n (S t)) as Hdm.
  set (q := n / S t) in *. set (r := n mod S t) in *.
  assert (Hinner : (fun i => take (partition_Nn n (S t) i * c)
                               (drop (partition_Ni n (S t) i * c) l))
                     <$> seq 0 t
                   = (fun i => take (q * c) (drop (i * (q * c)) l)) <$> seq 0 t).
  { apply list_fmap_ext. intros k i Hk.
    apply lookup_seq in Hk as [-> Hk]. cbn [Nat.add].
    unfold partition_Ni, partition_Nn. fold q r.
    destruct (Nat.eqb_spec k (S t - 1)) as [Heq|_]; [lia|].
    f_equal; [lia|]. f_equal. lia. }
  rewrite Hinner, concat_slices. change (0 + t) with t.
  unfold partition_Ni, partition_Nn. fold q r.
  replace (t =? S t - 1) with true by (symmetry; apply Nat.eqb_eq; lia).
  rewrite (take_ge (drop (t * q * c) l)).
  2:{ rewrite length_drop, Hlen, Hdm.
      replace ((S t * q + r) * c) with (t * q * c + (q + r) * c) by lia.
      lia. }
  replace (t * q * c) with (t * (q * c)) by lia.
  apply take_drop.
Qed.

Lemma setup_threads_fmap {A : Type} (f : SimInf_thread_args -> A)
    (g : nat -> A) (args : Args.SimInf_solver_args) :
  (forall i r, f (setup_thread args i r) = g i) ->
  f <$> setup_threads args = g <$> seq 0 args.(Args.Nthread).
Proof.
  intros Hfg.
  assert (Hzip : forall n start (rngs : list gsl_rng), length rngs = n ->
            f <$> zip_with (setup_thread args) (seq start n) rngs
              = g <$> seq start n).
  { intros n. induction n as [|n IH]; intros start rngs Hlen.
    - destruct rngs; [reflexivity|discriminate].
    - destruct rngs as [|r rngs]; [discriminate|]. cbn.
      rewrite Hfg. f_equal. apply IH. cbn in Hlen. lia. }
  apply Hzip, length_child_rngs.
Qed.

(** X7.  The set-up hands the initial state to the workers without loss
    or overlap: with [u0] of [Nn * Nc] counts and [v0] of [Nn * Nd]
    values, the parts of the copy of [u0] that the workers
    [0 .. Nthread-1] address through [u], one after the other, are
    [u0], and the parts they address through [v] are [v0]. *)
Theorem setup_slices_reassemble (args : Args.SimInf_solver_args) :
  0 < args.(Args.Nthread) ->
  length args.(Args.u0) = args.(Args.Nn) * args.(Args.Nc) ->
  length args.(Args.v0) = args.(Args.Nn) * args.(Args.Nd) ->
  concat (u <$> setup_threads args) = args.(Args.u0) /\
  concat (v <$> setup_threads args) = args.(Args.v0).
Proof.
  intros Hpos Hu0 Hv0. split.
  - rewrite (setup_threads_fmap u
      (fun i => take (partition_Nn args.(Args.Nn) args.(Args.Nthread) i
                      * args.(Args.Nc))
                  (drop (partition_Ni args.(Args.Nn) args.(Args.Nthread) i
                         * args.(Args.Nc)) args.(Args.u0))))
      by reflexivity.
    apply partition_slices; assumption.
  - rewrite (setup_threads_fmap v
      (fun i => take (partition_Nn args.(Args.Nn) args.(Args.Nthread) i
                      * args.(Args.Nd))
                  (drop (partition_Ni args.(Args.Nn) args.(Args.Nthread) i
                         * args.(Args.Nd)) args.(Args.v0))))
      by reflexivity.
    apply partition_slices; assumption.
Qed.

End Buffers.

Section BufferSizes.
Context {P : SimInf_platform} {E : SimInf_events}.

(** ** The sizes of the buffers *)







End BufferSizes.

Section PostPhase.
Context {P : SimInf_platform}.

(** ** What the post-time-step phase leaves alone *)

(** Every field of a worker but [v_new], [update_node], [t_rate],
    [sum_t_rate] and [errcode], and the sizes of those four buffers. *)
Definition post_keeps (sa : SimInf_thread_args) :=
  (layout sa, cursors sa, sa.(Nld),
   (sa.(irG), sa.(jcG), sa.(irS), sa.(jcS), sa.(prS)),
   (sa.(tr_fun), sa.(pts_fun), sa.(ldata), sa.(gdata)),
   (sa.(rng), sa.(u), sa.(v), sa.(t_time), sa.(E1), sa.(E2)),
   (sa.(tt), sa.(next_day)),
   (length sa.(v_new), length sa.(update_node), length sa.(t_rate),
    length sa.(sum_t_rate))).

(** What the work of the phase on the nodes [nodes] leaves alone in the
    buffers it writes. *)
Definition post_outside (nodes : list nat) (sa sa' : SimInf_thread_args)
    : Prop :=
  (forall i,
     (forall node, node ∈ nodes ->
        ~ (node * sa.(Nd) <= i < node * sa.(Nd) + sa.(Nd))) ->
     sa'.(v_new) !!! i = sa.(v_new) !!! i) /\
  (forall i,
     (forall node, node ∈ nodes ->
        ~ (node * sa.(Nt) <= i < node * sa.(Nt) + sa.(Nt))) ->
     sa'.(t_rate) !!! i = sa.(t_rate) !!! i) /\
  (forall m, m ∉ nodes ->
     sa'.(sum_t_rate) !!! m = sa.(sum_t_rate) !!! m /\
     sa'.(update_node) !!! m = sa.(update_node) !!! m).

Lemma post_keeps_model (sa sa' : SimInf_thread_args) :
  post_keeps sa' = post_keeps sa ->
  sa'.(Nd) = sa.(Nd) /\ sa'.(Nt) = sa.(Nt).
Proof. unfold post_keeps, layout. intros H. split; congruence. Qed.

Lemma call_pts_fun_local (sa : SimInf_thread_args) (node : nat) :
  post_keeps (call_pts_fun sa node).2 = post_keeps sa /\
  post_outside [node] sa (call_pts_fun sa node).2.
Proof.
  unfold call_pts_fun. cbn [snd]. split.
  - unfold post_keeps. cbn. rewrite length_inserts. reflexivity.
  - unfold post_outside. cbn. split; [|auto].
    intros i Hi. specialize (Hi node ltac:(left)).
    destruct (decide (i < node * sa.(Nd))) as [Hlt|Hge].
    + apply list_lookup_total_inserts_lt. exact Hlt.
    + apply list_lookup_total_inserts_ge. rewrite length_take. lia.
Qed.

Lemma refresh_all_local (sa : SimInf_thread_args) (node : nat) :
  post_keeps (refresh_all sa node) = post_keeps sa /\
  post_outside [node] sa (refresh_all sa node).
Proof.
  rewrite refresh_all_eq.
  destruct (recompute_fold_spec (post_rate sa node) (node * sa.(Nt))
              (seq 0 sa.(Nt)) sa.(t_rate) sa.(errcode) 0%float)
    as (Hlen & _ & Hkeep & _).
  cbv zeta in Hlen, Hkeep. split.
  - unfold post_keeps. cbn. rewrite !length_insert, Hlen. reflexivity.
  - unfold post_outside. cbn. split; [auto|]. split.
    + intros i Hi. apply Hkeep. intros j Hj Heq.
      apply elem_of_seq in Hj. apply (Hi node); [left|lia].
    + intros m Hm. apply not_elem_of_cons in Hm as [Hne _].
      split; apply list_lookup_total_insert_ne; auto.
Qed.

Lemma post_outside_trans (nodes1 nodes2 : list nat)
    (sa1 sa2 sa3 : SimInf_thread_args) :
  post_keeps sa2 = post_keeps sa1 ->
  post_outside nodes1 sa1 sa2 -> post_outside nodes2 sa2 sa3 ->
  post_outside (nodes1 ++ nodes2) sa1 sa3.
Proof.
  intros Hk (Hv & Hr & Hs) (Hv' & Hr' & Hs').
  destruct (post_keeps_model _ _ Hk) as [HNd HNt].
  rewrite HNd in Hv'. rewrite HNt in Hr'.
  split; [|split].
  - intros i Hi. rewrite Hv', Hv; [reflexivity| |];
      intros node Hnode; apply Hi; apply elem_of_app; auto.
  - intros i Hi. rewrite Hr', Hr; [reflexivity| |];
      intros node Hnode; apply Hi; apply elem_of_app; auto.
  - intros m Hm. apply not_elem_of_app in Hm as [Hm1 Hm2].
    destruct (Hs m Hm1) as [H1 H2]. destruct (Hs' m Hm2) as [H1' H2'].
    split; congruence.
Qed.

Lemma post_nodes_local (nodes : list nat) (sa : SimInf_thread_args) :
  post_keeps (post_nodes sa nodes) = post_keeps sa /\
  post_outside nodes sa (post_nodes sa nodes).
Proof.
  revert sa. induction nodes as [|node nodes IH]; intros sa; cbn [post_nodes].
  - split; [reflexivity|]. repeat split.
  - destruct (call_pts_fun_local sa node) as [Hk1 Ho1].
    destruct (call_pts_fun sa node) as [rc sa1]. cbn [fst snd] in *.
    assert (Hgrow : forall sa', post_keeps sa' = post_keeps sa ->
              post_outside [node] sa sa' ->
              post_outside (node :: nodes) sa sa').
    { intros sa' Hk Ho.
      apply (post_outside_trans [node] nodes sa sa' sa' Hk Ho).
      repeat split. }
    destruct (rc <? 0)%Z.
    { split; [exact Hk1|]. apply (Hgrow (set_errcode sa1 rc) Hk1 Ho1). }
    destruct (_ || _).
    + destruct (refresh_all_local sa1 node) as [Hk2 Ho2].
      destruct (IH (refresh_all sa1 node)) as [Hk3 Ho3].
      split; [congruence|].
      apply (post_outside_trans [node] nodes sa (refresh_all sa1 node));
        [congruence| |exact Ho3].
      apply (post_outside_trans [node] [node] sa sa1 _ Hk1 Ho1) in Ho2.
      destruct Ho2 as (H1 & H2 & H3). split; [|split].
      * intros i Hi. apply H1. intros n Hn. apply Hi.
        apply elem_of_app in Hn as [Hn|Hn]; exact Hn.
      * intros i Hi. apply H2. intros n Hn. apply Hi.
        apply elem_of_app in Hn as [Hn|Hn]; exact Hn.
      * intros m Hm. apply H3. intros Hn. apply Hm.
        apply elem_of_app in Hn as [Hn|Hn]; exact Hn.
    + destruct (IH sa1) as [Hk3 Ho3]. split; [congruence|].
      apply (post_outside_trans [node] nodes sa sa1 _ Hk1 Ho1 Ho3).
Qed.

(** X9.  The post-time-step phase of a worker (step 4 on the nodes
    [nodes]) draws no random number and leaves the counts, the current
    continuous state [v], the node clocks, the global clock, the event
    queues, the cursors, the model and the layout as they are, and the
    sizes of [v_new], [update_node], [t_rate] and [sum_t_rate]; what it
    writes stays in the visited nodes: the cells of [v_new] outside
    their [Nd] cells, the cached rates outside their [Nt] cells, and
    the rate sums and update flags of the other nodes are as before. *)
Theorem post_nodes_stays_in_nodes (sa : SimInf_thread_args)
    (nodes : list nat) :
  let sa' := post_nodes sa nodes in
  (sa'.(rng) = sa.(rng) /\ sa'.(u) = sa.(u) /\ sa'.(v) = sa.(v) /\
   sa'.(t_time) = sa.(t_time) /\ sa'.(tt) = sa.(tt) /\
   sa'.(next_day) = sa.(next_day) /\ sa'.(E1) = sa.(E1) /\
   sa'.(E2) = sa.(E2) /\ cursors sa' = cursors sa /\ layout sa' = layout sa) /\
  (length sa'.(v_new) = length sa.(v_new) /\
   length sa'.(update_node) = length sa.(update_node) /\
   length sa'.(t_rate) = length sa.(t_rate) /\
   length sa'.(sum_t_rate) = length sa.(sum_t_rate)) /\
  (forall i,
     (forall node, node ∈ nodes ->
        ~ (node * sa.(Nd) <= i < node * sa.(Nd) + sa.(Nd))) ->
     sa'.(v_new) !!! i = sa.(v_new) !!! i) /\
  (forall i,
     (forall node, node ∈ nodes ->
        ~ (node * sa.(Nt) <= i < node * sa.(Nt) + sa.(Nt))) ->
     sa'.(t_rate) !!! i = sa.(t_rate) !!! i) /\
  (forall m, m ∉ nodes ->
     sa'.(sum_t_rate) !!! m = sa.(sum_t_rate) !!! m /\
     sa'.(update_node) !!! m = sa.(update_node) !!! m).
Proof.
  intros sa'. destruct (post_nodes_local nodes sa) as [Hk Ho]. fold sa' in Hk, Ho.
  split; [|split; [|exact Ho]].
  - unfold post_keeps in Hk. repeat split; congruence.
  - unfold post_keeps in Hk. repeat split; congruence.
Qed.

End PostPhase.

Section MainLoop.
Context {P : SimInf_platform} {E : SimInf_events}.

(** ** The swap of [v] and [v_new] *)

(** [tmp = sa.v; sa.v = sa.v_new; sa.v_new = tmp] on one worker. *)
Definition swap_v (sa : SimInf_thread_args) : SimInf_thread_args :=
  set_v_new (set_v sa sa.(v_new)) sa.(v).

Lemma swap_v_twice (sa : SimInf_thread_args) : swap_v (swap_v sa) = sa.
Proof. destruct sa; reflexivity. Qed.

Lemma swap_and_check_clean (l : list SimInf_thread_args) :
  Forall (fun sa => sa.(errcode) = 0%Z) l ->
  swap_and_check l = (swap_v <$> l, 0%Z).
Proof.
  induction l as [|sa l IH]; intros Hall; cbn; [reflexivity|].
  apply Forall_cons in Hall as [Hsa Hall].
  rewrite Hsa, (IH Hall). reflexivity.
Qed.

(** X10.  The loop that ends a pass of the main loop exchanges [v] and
    [v_new] of the workers in their order and stops at the first worker
    that holds an error: the workers up to and including that one have
    their buffers exchanged, the later ones do not, and its error code
    is the result.  When no worker holds an error all are exchanged, the
    result is 0, and a second run of the loop restores every worker. *)
Theorem swap_and_check_spec (l : list SimInf_thread_args) :
  (Forall (fun sa => sa.(errcode) = 0%Z) l ->
     swap_and_check l = (swap_v <$> l, 0%Z) /\
     (swap_and_check (swap_and_check l).1).1 = l) /\
  (forall k sa, l !! k = Some sa -> sa.(errcode) <> 0%Z ->
     Forall (fun sa' => sa'.(errcode) = 0%Z) (take k l) ->
     swap_and_check l =
       ((swap_v <$> take (S k) l) ++ drop (S k) l, sa.(errcode))).
Proof.
  split.
  - intros Hall. rewrite (swap_and_check_clean l Hall).
    split; [reflexivity|]. cbn [fst].
    rewrite swap_and_check_clean.
    + cbn [fst]. rewrite <- list_fmap_compose.
      rewrite <- (list_fmap_id l) at 2. apply list_fmap_ext.
      intros i sa _. apply swap_v_twice.
    + apply Forall_fmap. eapply Forall_impl; [exact Hall|].
      intros sa Hsa. exact Hsa.
  - induction l as [|sa0 l IH]; intros k sa Hk Herr Hbefore.
    + discriminate.
    + destruct k as [|k]; cbn in Hk.
      * injection Hk as ->. cbn.
        change ((set_v_new (set_v sa sa.(v_new)) sa.(v)).(errcode))
          with sa.(errcode).
        destruct (Z.eqb_spec sa.(errcode) 0); [contradiction|].
        rewrite drop_0. reflexivity.
      * cbn [take] in Hbefore. apply Forall_cons in Hbefore as [H0 Hbefore].
        cbn [swap_and_check].
        change ((set_v_new (set_v sa0 sa0.(v_new)) sa0.(v)).(errcode))
          with sa0.(errcode).
        rewrite H0. cbn [Z.eqb].
        rewrite (IH k sa Hk Herr Hbefore). reflexivity.
Qed.

End MainLoop.

Section InnerLoopExit.
Context {P : SimInf_platform}.

(** ** How the inner loop of a node ends *)

Lemma ssa_keeps_sizes (sa sa' : SimInf_thread_args) :
  ssa_keeps sa' = ssa_keeps sa ->
  sa'.(next_day) = sa.(next_day) /\
  length sa'.(sum_t_rate) = length sa.(sum_t_rate) /\
  length sa'.(t_time) = length sa.(t_time).
Proof. unfold ssa_keeps. intros H. repeat split; congruence. Qed.

(** X12.  The inner loop of step (1) leaves a node in one of two
    states: its clock stands at [next_day] (the node had no rate, or
    the next event would fall on or after [next_day]), or the draw met
    a nil event and the rate sum of the node is 0.0, its clock being
    where the last waiting time has put it. *)
Theorem ssa_node_exit (fuel : nat) (sa sa' : SimInf_thread_args)
    (node : nat) :
  node < length sa.(sum_t_rate) -> node < length sa.(t_time) ->
  ssa_node fuel sa node = Some sa' ->
  sa'.(t_time) !!! node = sa.(next_day) \/
  sa'.(sum_t_rate) !!! node = 0%float.
Proof.
  revert sa.
  induction fuel as [|fuel IH]; intros sa Hsum Hclock; cbn [ssa_node];
    [discriminate|].
  pose proof (ssa_step_keeps sa node) as Hkeeps.
  apply ssa_keeps_sizes in Hkeeps as (Hday & Hls & Hlt).
  destruct (ssa_step sa node) as [[|] sa1] eqn:Hstep; cbn [snd] in *.
  - intros [= <-]. unfold ssa_step in Hstep.
    destruct (_ <=? 0)%float.
    { injection Hstep as <-. left. cbn.
      apply list_lookup_total_insert_eq. exact Hclock. }
    destruct (_ <=? _)%float.
    { injection Hstep as <-. left. cbn.
      apply list_lookup_total_insert_eq. exact Hclock. }
    unfold fire_transition in Hstep.
    destruct (draw_transition _ _ _); [discriminate|].
    injection Hstep as <-. right. cbn.
    apply list_lookup_total_insert_eq. exact Hsum.
  - intros Hrun. rewrite <- Hday. apply IH; [lia|lia|exact Hrun].
Qed.

End InnerLoopExit.

(** * The interface to R and the SISe callback

    The rest of the sources: [get_seed] and [get_threads] of
    src/core/siminf_run.c, [SISe_post_time_step] of src/models/SISe.c,
    and [SimInf_trajectory].  They take values of R.  A call either
    returns, or raises an R error with [Rf_error], or has no defined
    behaviour in C (a double converted to an integer type that cannot
    hold its integral part, a read outside an array). *)

From stdpp Require Import strings.

(** ** Conversions of C *)

(** The integral part of a finite double, the fraction discarded
    (rounding toward zero); [None] for the infinities and NaN. *)
Definition double_trunc (x : double) : option Z :=
  match Prim2SF x with
  | S754_zero _ => Some 0%Z
  | S754_finite s m e =>
      let a := Z.shiftl (Zpos m) e in
      Some (if s then (- a)%Z else a)
  | _ => None
  end.

(** [(int)x]; undefined, [None], when the integral part of [x] is not
    an [int]. *)
Definition double_to_int (x : double) : option Z :=
  z ← double_trunc x;
  if (- 2 ^ 31 <=? z)%Z && (z <? 2 ^ 31)%Z then Some z else None.

(** [(unsigned long int)x] for a double [x]; undefined, [None], when the
    integral part of [x] is not an [unsigned long]. *)
Definition double_to_ulong (x : double) : option Z :=
  z ← double_trunc x;
  if (0 <=? z)%Z && (z <? 2 ^ 64)%Z then Some z else None.

(** [(unsigned long int)n] for a signed integer [n]: reduction modulo
    2^64. *)
Definition to_ulong (n : Z) : Z := (n mod 2 ^ 64)%Z.

(** ** Values of R *)

(** An element of a numeric vector: the missing value NA, or another
    double (a NaN that is not NA included). *)
Inductive Rreal :=
  | NA_REAL
  | Real (x : double).

#[global] Instance Rreal_inhabited : Inhabited Rreal := populate NA_REAL.

(** The missing value of an integer vector is [INT_MIN]. *)
Definition NA_INTEGER : Z := (- 2 ^ 31)%Z.

(** The arguments [seed] and [threads]: [NULL], an integer vector (not
    a factor), a numeric vector, or a value of another type. *)
Inductive SEXP :=
  | R_NilValue
  | INTSXP (x : list Z)
  | REALSXP (x : list Rreal)
  | OTHERSXP.

(** How a call ends. *)
Inductive Rcall (A : Type) :=
  | Returns (a : A)
  | Rf_error (msg : string)
  | Undefined.

Arguments Returns {A} a.
Arguments Rf_error {A} msg.
Arguments Undefined {A}.

(** ** [get_seed] and [get_threads] *)

(** [get_seed]; [now] is the value of [time(NULL)]. *)
Definition get_seed (now : Z) (seed : SEXP) : Rcall Z :=
  match seed with
  | R_NilValue => Returns (to_ulong now)
  | INTSXP x =>
      match length x with
      | 0 => Returns (to_ulong now)
      | 1 =>
          if (x !!! 0%nat =? NA_INTEGER)%Z
          then Rf_error "Invalid value (NA) of seed"
          else Returns (to_ulong (x !!! 0%nat))
      | _ => Rf_error "Invalid length of seed"
      end
  | REALSXP x =>
      match length x with
      | 0 => Returns (to_ulong now)
      | 1 =>
          match x !!! 0%nat with
          | NA_REAL => Rf_error "Invalid value (NA) of seed"
          | Real d =>
              match double_to_ulong d with
              | Some s => Returns s
              | None => Undefined
              end
          end
      | _ => Rf_error "Invalid length of seed"
      end
  | OTHERSXP => Rf_error "Invalid type of seed"
  end.

(** The end of [get_threads]:
    [if (n < 0) Rf_error(...); return n;] *)
Definition check_threads (n : Z) : Rcall Z :=
  if (n <? 0)%Z then Rf_error "Number of threads must be a value >= 0"
  else Returns n.

(** [get_threads]. *)
Definition get_threads (threads : SEXP) : Rcall Z :=
  match threads with
  | R_NilValue => Returns 0%Z
  | INTSXP x =>
      if negb (length x =? 1) then Rf_error "Invalid length of threads vector"
      else if (x !!! 0%nat =? NA_INTEGER)%Z
      then Rf_error "Invalid value (NA) for threads"
      else check_threads (x !!! 0%nat)
  | REALSXP x =>
      if negb (length x =? 1) then Rf_error "Invalid length of threads vector"
      else
        match x !!! 0%nat with
        | NA_REAL => Rf_error "Invalid value (NA) for threads"
        | Real d =>
            match double_to_int d with
            | Some n => check_threads n
            | None => Undefined
            end
        end
  | OTHERSXP => Rf_error "Invalid type for threads"
  end.

(** ** [SISe_post_time_step] *)

(** The offsets [enum {S, I}], [enum {PHI}] and
    [enum {UPSILON, GAMMA, ALPHA, BETA_T1, ..., EPSILON}]. *)
Definition S_offset : nat := 0.
Definition I_offset : nat := 1.
Definition PHI : nat := 0.
Definition UPSILON : nat := 0.
Definition GAMMA : nat := 1.
Definition ALPHA : nat := 2.
Definition BETA_T1 : nat := 3.
Definition BETA_T2 : nat := 4.
Definition BETA_T3 : nat := 5.
Definition BETA_T4 : nat := 6.
Definition EPSILON : nat := 7.

(** The decay selected by
    [switch (((int)t % days_in_year) / days_in_quarter)] for the day
    [d = (int)t]; [%] and [/] of C truncate toward zero. *)
Definition SISe_beta (gdata : list double) (d : Z) : double :=
  match Z.quot (Z.rem d 365) 91 with
  | 0%Z => gdata !!! BETA_T1
  | 1%Z => gdata !!! BETA_T2
  | 2%Z => gdata !!! BETA_T3
  | _ => gdata !!! BETA_T4
  end.

(** The new [v[PHI]] for the decay [beta]: the forward Euler step
    [v[PHI] *= (1.0 - beta)] followed by the contribution of the
    infected. *)
Definition SISe_phi (u : list Z) (v gdata : list double) (beta : double)
    : double :=
  let S_n := int_to_double (u !!! S_offset) in
  let I_n := int_to_double (u !!! I_offset) in
  let phi := (v !!! PHI * (1 - beta))%float in
  if (0 <? I_n + S_n)%float
  then (phi + (gdata !!! ALPHA * I_n / (I_n + S_n) + gdata !!! EPSILON))%float
  else (phi + gdata !!! EPSILON)%float.

(** [SISe_post_time_step]: the return value and [v] as the call leaves
    it; [None] when [(int)t] is undefined. *)
Definition SISe_post_time_step (u : list Z) (v ldata gdata : list double)
    (node : Z) (t : double) (sd : Z) : option (Z * list double) :=
  d ← double_to_int t;
  let tmp := v !!! PHI in
  let v := <[PHI := SISe_phi u v gdata (SISe_beta gdata d)]> v in
  Some (if (tmp =? v !!! PHI)%float then 0%Z else 1%Z, v).

(** ** [SimInf_trajectory] *)

(** [for (i = 0; i < n; i++) s = body i s;] with a body that may have
    no defined behaviour. *)
Definition for_loop {S : Type} (n : nat) (body : nat -> S -> option S)
    (s : S) : option S :=
  foldl (fun acc i => s ← acc; body i s) (Some s) (seq 0 n).

(** A loop whose pass [i] stores [f i] in cell [idx i] of a vector. *)
Definition fill {A : Type} (n : nat) (idx : nat -> nat)
    (f : nat -> option A) (vec : list A) : option (list A) :=
  for_loop n (fun i vec => x ← f i; Some (<[idx i := x]> vec)) vec.

(** [for (t = 0; t < tlen; t++)
       for (node = 0; node < Nnodes; node++)
         vec[t * Nnodes + node] = f t node;] *)
Definition fill_rows {A : Type} (tlen Nnodes : nat)
    (f : nat -> nat -> option A) (vec : list A) : option (list A) :=
  for_loop tlen
    (fun t vec => fill Nnodes (fun node => t * Nnodes + node) (f t) vec) vec.

(** [a[i]] for a signed index [i]; a read outside the array is not
    defined. *)
Definition read {A : Type} (a : list A) (i : Z) : option A :=
  if (i <? 0)%Z then None else a !! Z.to_nat i.

(** An element of the list (VECSXP) that becomes the data.frame. *)
Inductive column_data :=
  | Unset
  | IntColumn (x : list Z)
  | RealColumn (x : list double).

#[global] Instance column_data_inhabited : Inhabited column_data :=
  populate Unset.

(** The data.frame: the attributes [names], [class] and [row.names],
    and the list of columns. *)
Record data_frame := mk_data_frame {
  names : list string;
  class : string;
  row_names : list Z;
  columns : list column_data
}.

(** The column names: "node", "time", and the labels
    [dm_lbl[dm_i[i] - 1]] and [cm_lbl[cm_i[i] - 1]]. *)
Definition trajectory_names (dm_i : list Z) (dm_lbl : option (list string))
    (cm_i : list Z) (cm_lbl : option (list string)) : option (list string) :=
  let dm_len := length dm_i in
  let cm_len := length cm_i in
  let colnames := replicate (2 + dm_len + cm_len) EmptyString in
  let colnames := <[0 := "node"]> colnames in
  let colnames := <[1 := "time"]> colnames in
  colnames ← fill dm_len (fun i => 2 + i)
    (fun i => j ← dm_i !! i; lbl ← dm_lbl; read lbl (j - 1)) colnames;
  fill cm_len (fun i => 2 + dm_len + i)
    (fun i => j ← cm_i !! i; lbl ← cm_lbl; read lbl (j - 1)) colnames.

(** The row names [p_int_vec[i] = i + 1], stored as [int]. *)
Definition trajectory_row_names (nrow : nat) : option (list Z) :=
  fill nrow (fun i => i) (fun i => Some (int_wrap (Z.of_nat i + 1)))
    (replicate nrow 0%Z).

(** The 'node' column: the given node identifiers copied once per time
    point, or the identifiers [node + 1]. *)
Definition trajectory_node_column (tlen Nnodes : nat)
    (nodes : option (list Z)) : option (list Z) :=
  match nodes with
  | Some p_nodes =>
      for_loop tlen
        (fun t vec =>
           Some (list_inserts (t * Nnodes) (take Nnodes p_nodes) vec))
        (replicate (tlen * Nnodes) 0%Z)
  | None =>
      fill_rows tlen Nnodes
        (fun t node => Some (int_wrap (Z.of_nat node + 1)))
        (replicate (tlen * Nnodes) 0%Z)
  end.

(** The 'time' column: [p_int_vec[t * Nnodes + node] = p_real_vec[t]],
    a double stored in an [int]. *)
Definition trajectory_time_column (tlen Nnodes : nat) (tspan : list double)
    : option (list Z) :=
  fill_rows tlen Nnodes
    (fun t node => x ← tspan !! t; double_to_int x)
    (replicate (tlen * Nnodes) 0%Z).

(** The index [(t * c_Nn + node) * stride], or with [p_nodes[node] - 1]
    for [node] when node identifiers are given, relative to the pointer
    [p_dm = INTEGER(dm) + dm_i[i] - 1], that is, from offset [j - 1]. *)
Definition trajectory_index (c_Nn stride : nat) (nodes : option (list Z))
    (j : Z) (t node : nat) : option Z :=
  match nodes with
  | Some p_nodes =>
      id ← p_nodes !! node;
      Some (j - 1 + (Z.of_nat t * Z.of_nat c_Nn + id - 1) * Z.of_nat stride)%Z
  | None =>
      Some (j - 1 + (Z.of_nat t * Z.of_nat c_Nn + Z.of_nat node)
                    * Z.of_nat stride)%Z
  end.

(** The column of the data.frame for entry [i] of the index vector
    [m_i] of the state matrix [m]. *)
Definition trajectory_column {A : Type} `{!Inhabited A} (m : list A)
    (m_i : list Z) (stride c_Nn tlen Nnodes : nat) (nodes : option (list Z))
    (i : nat) : option (list A) :=
  j ← m_i !! i;
  fill_rows tlen Nnodes
    (fun t node => k ← trajectory_index c_Nn stride nodes j t node; read m k)
    (replicate (tlen * Nnodes) inhabitant).

(** [SimInf_trajectory]; [c_Nn] is [Rf_asInteger(Nn)], a number of
    nodes. *)
Definition SimInf_trajectory (dm : list Z) (dm_i : list Z)
    (dm_lbl : option (list string)) (cm : list double) (cm_i : list Z)
    (cm_lbl : option (list string)) (tspan : list double) (c_Nn : nat)
    (nodes : option (list Z)) : option data_frame :=
  let dm_len := length dm_i in
  let dm_stride := match dm_lbl with None => 0 | Some l => length l end in
  let cm_len := length cm_i in
  let cm_stride := match cm_lbl with None => 0 | Some l => length l end in
  let ncol := 2 + dm_len + cm_len in
  let tlen := length tspan in
  let Nnodes := match nodes with None => c_Nn | Some l => length l end in
  colnames ← trajectory_names dm_i dm_lbl cm_i cm_lbl;
  let nrow := tlen * Nnodes in
  let result := replicate ncol Unset in
  rows ← trajectory_row_names nrow;
  vec ← trajectory_node_column tlen Nnodes nodes;
  let result := <[0 := IntColumn vec]> result in
  vec ← trajectory_time_column tlen Nnodes tspan;
  let result := <[1 := IntColumn vec]> result in
  result ← fill dm_len (fun i => 2 + i)
    (fun i => IntColumn <$>
       trajectory_column dm dm_i dm_stride c_Nn tlen Nnodes nodes i) result;
  result ← fill cm_len (fun i => 2 + dm_len + i)
    (fun i => RealColumn <$>
       trajectory_column cm cm_i cm_stride c_Nn tlen Nnodes nodes i) result;
  Some {| names := colnames; class := "data.frame"; row_names := rows;
          columns := result |}.

(** ** Properties of [get_threads] and [get_seed] *)

Lemma double_to_ulong_range (d : double) (s : Z) :
  double_to_ulong d = Some s <->
  double_trunc d = Some s /\ (0 <= s < 2 ^ 64)%Z.
Proof.
  unfold double_to_ulong. destruct (double_trunc d) as [z|]; cbn.
  - destruct (Z.leb_spec 0 z), (Z.ltb_spec z (2 ^ 64)); cbn; split;
      try (intros [= <-]; split; [reflexivity|lia]);
      try discriminate;
      intros [[= ->] Hr]; solve [reflexivity | lia].
  - split; [discriminate|]. intros [H _]. discriminate.
Qed.

Lemma double_to_int_range (d : double) (n : Z) :
  double_to_int d = Some n <->
  double_trunc d = Some n /\ (- 2 ^ 31 <= n < 2 ^ 31)%Z.
Proof.
  unfold double_to_int. destruct (double_trunc d) as [z|]; cbn.
  - destruct (Z.leb_spec (- 2 ^ 31) z), (Z.ltb_spec z (2 ^ 31)); cbn; split;
      try (intros [= <-]; split; [reflexivity|lia]);
      try discriminate;
      intros [[= ->] Hr]; solve [reflexivity | lia].
  - split; [discriminate|]. intros [H _]. discriminate.
Qed.

(** X13.  [get_threads] never returns a negative number of threads,
    and it returns in three cases only: [NULL] gives 0 (the caller's
    default), an integer vector of length one gives its element, which
    is then neither NA nor negative, and a numeric vector of length one
    that is not NA gives the integral part of its element, the fraction
    discarded, when that is a non-negative [int].  Every other argument
    raises an R error or, for a number whose integral part is not an
    [int], has no defined behaviour. *)
Theorem get_threads_returns (threads : SEXP) (n : Z) :
  get_threads threads = Returns n <->
  (0 <= n)%Z /\
  (threads = R_NilValue /\ n = 0%Z \/
   threads = INTSXP [n] \/
   exists d, threads = REALSXP [Real d] /\
     double_trunc d = Some n /\ (n < 2 ^ 31)%Z).
Proof.
  split.
  - destruct threads as [|x|x|]; cbn.
    + intros [= <-]. split; [lia|]. left. auto.
    + destruct x as [|a [|b x]]; cbn; try discriminate.
      destruct (Z.eqb_spec a NA_INTEGER); [discriminate|].
      unfold check_threads. destruct (Z.ltb_spec a 0); [discriminate|].
      intros [= <-]. split; [lia|]. right. left. reflexivity.
    + destruct x as [|[|d] [|b x]]; cbn; try discriminate.
      destruct (double_to_int d) as [m|] eqn:Hd; [|discriminate].
      unfold check_threads. destruct (Z.ltb_spec m 0); [discriminate|].
      intros [= <-]. split; [lia|]. right. right. exists d.
      apply double_to_int_range in Hd as [Hd Hr]. repeat split; [exact Hd|lia].
    + discriminate.
  - intros [Hn [[-> ->]|[->|(d & -> & Hd & Hr)]]]; cbn.
    + reflexivity.
    + destruct (Z.eqb_spec n NA_INTEGER) as [He|_];
        [unfold NA_INTEGER in He; lia|].
      unfold check_threads. destruct (Z.ltb_spec n 0); [lia|reflexivity].
    + replace (double_to_int d) with (Some n)
        by (symmetry; apply double_to_int_range; split; [exact Hd|lia]).
      unfold check_threads. destruct (Z.ltb_spec n 0); [lia|reflexivity].
Qed.

(** X14.  [get_seed] returns an [unsigned long]: the clock, for [NULL]
    and for an empty integer or numeric vector; the element of an
    integer vector of length one that is not NA, reduced modulo 2^64,
    so that a negative seed [n] becomes [2^64 + n]; or the integral
    part of the element of a numeric vector of length one that is not
    NA, when it lies in [[0, 2^64)].  For a number whose integral part
    is negative the conversion has no defined behaviour.  The clock is
    not consulted for a vector that has an element. *)
Theorem get_seed_returns (now : Z) (seed : SEXP) :
  (forall s, get_seed now seed = Returns s ->
     (0 <= s < 2 ^ 64)%Z /\
     ((seed = R_NilValue \/ seed = INTSXP [] \/ seed = REALSXP []) /\
      s = to_ulong now \/
      (exists n, seed = INTSXP [n] /\ n <> NA_INTEGER /\ s = to_ulong n) \/
      (exists d, seed = REALSXP [Real d] /\ double_trunc d = Some s))) /\
  (forall n, (- 2 ^ 31 < n < 0)%Z ->
     get_seed now (INTSXP [n]) = Returns (2 ^ 64 + n)%Z) /\
  (forall d z, double_trunc d = Some z -> (z < 0)%Z ->
     get_seed now (REALSXP [Real d]) = Undefined) /\
  (forall now', seed <> R_NilValue -> seed <> INTSXP [] ->
     seed <> REALSXP [] -> get_seed now' seed = get_seed now seed).
Proof.
  assert (Hmod : forall z, (0 <= to_ulong z < 2 ^ 64)%Z).
  { intros z. unfold to_ulong. apply Z.mod_pos_bound. lia. }
  split; [|split; [|split]].
  - intros s. destruct seed as [|x|x|]; cbn.
    + intros [= <-]. split; [apply Hmod|]. left. auto.
    + destruct x as [|a [|b x]]; cbn; try discriminate.
      * intros [= <-]. split; [apply Hmod|]. left. auto.
      * destruct (Z.eqb_spec a NA_INTEGER); [discriminate|].
        intros [= <-]. split; [apply Hmod|]. right. left.
        exists a. auto.
    + destruct x as [|[|d] [|b x]]; cbn; try discriminate.
      * intros [= <-]. split; [apply Hmod|]. left. auto.
      * destruct (double_to_ulong d) as [z|] eqn:Hd; [|discriminate].
        intros [= <-]. apply double_to_ulong_range in Hd as [Hd Hr].
        split; [exact Hr|]. right. right. exists d. auto.
    + discriminate.
  - intros n Hn. cbn.
    destruct (Z.eqb_spec n NA_INTEGER) as [He|_];
      [unfold NA_INTEGER in He; lia|].
    f_equal. unfold to_ulong.
    rewrite <- (Z.mod_small (2 ^ 64 + n) (2 ^ 64)) by lia.
    rewrite <- (Z_mod_plus_full n 1 (2 ^ 64)). f_equal. lia.
  - intros d z Hd Hz. cbn. unfold double_to_ulong. rewrite Hd. cbn.
    destruct (Z.leb_spec 0 z); [lia|]. reflexivity.
  - intros now' H1 H2 H3. destruct seed as [|x|x|]; cbn.
    + contradiction.
    + destruct x as [|a [|b x]]; [contradiction|reflexivity|reflexivity].
    + destruct x as [|a [|b x]]; [contradiction|reflexivity|reflexivity].
    + reflexivity.
Qed.

(** ** Properties of [SISe_post_time_step] *)

(** X15.  [SISe_post_time_step] for the day [d = (int)t] writes only
    [v[PHI]]; it returns 1 when the new value differs from the old one
    and 0 otherwise, never a negative (error) code; and the decay of
    the day is that of its quarter of 91 days in a year of 365 days:
    [BETA_T1] for days 0-90 of the year, [BETA_T2] for 91-181,
    [BETA_T3] for 182-272, and [BETA_T4] for the 92 days 273-364.  For
    a negative day the remainder of C is negative: days less than 91
    before a multiple of 365 use [BETA_T1], all others [BETA_T4]. *)
Theorem SISe_post_time_step_quarters (u : list Z)
    (v ldata gdata : list double) (node : Z) (t : double) (sd d : Z) :
  double_to_int t = Some d -> 0 < length v ->
  exists rc v',
    SISe_post_time_step u v ldata gdata node t sd = Some (rc, v') /\
    (rc = 0 \/ rc = 1)%Z /\
    (rc = 0%Z <-> (v !!! PHI =? v' !!! PHI)%float = true) /\
    length v' = length v /\
    (forall k, k <> PHI -> v' !!! k = v !!! k) /\
    ((0 <= d)%Z ->
       v' !!! PHI =
         SISe_phi u v gdata
           (gdata !!! (BETA_T1 + Nat.min 3 (Z.to_nat ((d mod 365) / 91))))) /\
    ((d < 0)%Z ->
       v' !!! PHI =
         SISe_phi u v gdata
           (gdata !!! (if (-91 <? Z.rem d 365)%Z then BETA_T1 else BETA_T4))).
Proof.
  intros Hd Hv. unfold SISe_post_time_step. rewrite Hd. cbn [mbind option_bind].
  set (phi := SISe_phi u v gdata (SISe_beta gdata d)).
  assert (Hphi : <[PHI := phi]> v !!! PHI = phi)
    by (apply list_lookup_total_insert_eq; exact Hv).
  eexists _, _. split; [reflexivity|]. rewrite Hphi.
  split; [destruct (_ =? _)%float; auto|].
  split; [destruct (_ =? _)%float; split; (reflexivity || discriminate)|].
  split; [apply length_insert|].
  split; [intros k Hk; apply list_lookup_total_insert_ne; auto|].
  subst phi. unfold SISe_beta. split.
  - intros Hpos. rewrite Z.rem_mod_nonneg by lia.
    pose proof (Z.mod_pos_bound d 365 ltac:(lia)) as Hm.
    rewrite Z.quot_div_nonneg by lia.
    assert (Hq : (0 <= (d mod 365) / 91 < 5)%Z).
    { split; [apply Z.div_pos; lia|apply Z.div_lt_upper_bound; lia]. }
    assert (Hcase : ((d mod 365) / 91 = 0 \/ (d mod 365) / 91 = 1 \/
                     (d mod 365) / 91 = 2 \/ (d mod 365) / 91 = 3 \/
                     (d mod 365) / 91 = 4)%Z) by lia.
    destruct Hcase as [-> |[-> |[-> |[-> | ->]]]]; reflexivity.
  - intros Hneg.
    assert (Hr' : (- 365 < Z.rem d 365 <= 0)%Z).
    { replace d with (- - d)%Z by lia.
      rewrite Z.rem_opp_l, Z.rem_mod_nonneg by lia.
      pose proof (Z.mod_pos_bound (- d) 365 ltac:(lia)). lia. }
    set (r := Z.rem d 365) in *.
    replace r with (- (- r))%Z by lia. rewrite Z.quot_opp_l by lia.
    rewrite Z.quot_div_nonneg by lia.
    assert (Hq : (0 <= (- r) / 91 < 5)%Z).
    { split; [apply Z.div_pos; lia|apply Z.div_lt_upper_bound; lia]. }
    destruct (Z.ltb_spec (-91) (- - r)) as [Hlt|Hge].
    + rewrite Z.div_small by lia. reflexivity.
    + assert (Hone : (1 <= (- r) / 91)%Z)
        by (apply Z.div_le_lower_bound; lia).
      assert (Hcase : ((- r) / 91 = 1 \/ (- r) / 91 = 2 \/
                       (- r) / 91 = 3 \/ (- r) / 91 = 4)%Z) by lia.
      destruct Hcase as [-> |[-> |[-> | ->]]]; reflexivity.
Qed.

Lemma mul_zero_finite (g : double) :
  (is_finite g = true ->
     (g * 0 =? 0)%float = true /\ is_finite (g * 0) = true /\
     (g * 0 <? 0)%float = false) /\
  (is_finite g = false -> is_finite (g * 0) = false).
Proof.
  unfold is_finite, is_nan, is_infinity.
  rewrite !FloatAxioms.eqb_spec, !FloatAxioms.abs_spec, FloatAxioms.ltb_spec,
    !FloatAxioms.mul_spec.
  change (Prim2SF infinity) with (S754_infinity false).
  change (Prim2SF 0) with (S754_zero false).
  destruct (Prim2SF g) as [[]|[]| |[] m e]; cbn; split; intros H;
    try discriminate H; auto;
    rewrite Z.compare_refl, Pos.compare_cont_refl in H; discriminate H.
Qed.

(** X20.  The two propensities of the SISe model on an empty
    compartment.  With no infected in the node and a finite recovery
    parameter [gamma], the rate of I -> S is zero and passes the rate
    check of the solver; with no susceptible and a finite product
    [upsilon * phi], so does the rate of S -> I.  With a parameter that
    is not finite the rate is a NaN even in an empty compartment, which
    the rate check rejects. *)
Theorem SISe_empty_compartment_rates (u : list Z)
    (v ldata gdata : list double) (t : double) :
  (u !!! 1%nat = 0%Z -> is_finite (gdata !!! 1%nat) = true ->
     (SISe_I_to_S u v ldata gdata t =? 0)%float = true /\
     invalid_rate (SISe_I_to_S u v ldata gdata t) = false) /\
  (u !!! 0%nat = 0%Z -> is_finite (gdata !!! 0%nat * v !!! 0%nat) = true ->
     (SISe_S_to_I u v ldata gdata t =? 0)%float = true /\
     invalid_rate (SISe_S_to_I u v ldata gdata t) = false) /\
  (u !!! 1%nat = 0%Z -> is_finite (gdata !!! 1%nat) = false ->
     invalid_rate (SISe_I_to_S u v ldata gdata t) = true).
Proof.
  assert (H0 : int_to_double 0 = 0%float) by reflexivity.
  unfold SISe_I_to_S, SISe_S_to_I, invalid_rate, isfinite.
  split; [|split].
  - intros -> Hfin. rewrite H0.
    destruct (proj1 (mul_zero_finite (gdata !!! 1%nat)) Hfin) as (Hz & Hf & Hn).
    rewrite Hz, Hf, Hn. auto.
  - intros -> Hfin. rewrite H0.
    destruct (proj1 (mul_zero_finite (gdata !!! 0%nat * v !!! 0%nat)) Hfin)
      as (Hz & Hf & Hn).
    rewrite Hz, Hf, Hn. auto.
  - intros -> Hinf. rewrite H0.
    rewrite (proj2 (mul_zero_finite (gdata !!! 1%nat)) Hinf). reflexivity.
Qed.

(** ** Properties of [SimInf_trajectory] *)

Lemma for_loop_S {St : Type} (n : nat) (body : nat -> St -> option St)
    (s : St) :
  for_loop (S n) body s = (s' ← for_loop n body s; body n s').
Proof. unfold for_loop. rewrite seq_S, foldl_snoc. reflexivity. Qed.

Lemma fill_S {A : Type} (n : nat) (idx : nat -> nat) (f : nat -> option A)
    (vec : list A) :
  fill (S n) idx f vec =
    (vec' ← fill n idx f vec; x ← f n; Some (<[idx n := x]> vec')).
Proof. unfold fill. apply for_loop_S. Qed.

Lemma fill_inv {A : Type} `{!Inhabited A} (n : nat) (idx : nat -> nat)
    (f : nat -> option A) (vec vec' : list A) :
  (forall i j, i < n -> j < n -> idx i = idx j -> i = j) ->
  fill n idx f vec = Some vec' ->
  length vec' = length vec /\
  (forall i, i < n ->
     exists x, f i = Some x /\ (idx i < length vec -> vec' !!! idx i = x)) /\
  (forall k, (forall i, i < n -> k <> idx i) -> vec' !!! k = vec !!! k).
Proof.
  revert vec'. induction n as [|n IH]; intros vec' Hinj.
  - intros [= <-]. split; [reflexivity|]. split; [intros i Hi; lia|auto].
  - rewrite fill_S.
    destruct (fill n idx f vec) as [v1|]; [|discriminate].
    destruct (f n) as [x|] eqn:Hx; [|discriminate].
    cbn. intros [= <-].
    destruct (IH v1) as (Hlen & Hset & Hkeep); [|reflexivity|].
    { intros i j Hi Hj. apply Hinj; lia. }
    split; [rewrite length_insert; exact Hlen|]. split.
    + intros i Hi. destruct (decide (i = n)) as [->|Hne].
      * exists x. split; [exact Hx|]. intros Hr.
        apply list_lookup_total_insert_eq. lia.
      * destruct (Hset i ltac:(lia)) as (y & Hy & Hval).
        exists y. split; [exact Hy|]. intros Hr.
        rewrite list_lookup_total_insert_ne; [auto|].
        intros Heq. apply Hne. symmetry. apply Hinj; [lia|lia|exact Heq].
    + intros k Hk. rewrite list_lookup_total_insert_ne.
      * apply Hkeep. intros i Hi. apply Hk. lia.
      * intros Heq. apply (Hk n); [lia|symmetry; exact Heq].
Qed.

Lemma fill_defined {A : Type} (n : nat) (idx : nat -> nat)
    (f : nat -> option A) (vec : list A) :
  (forall i, i < n -> is_Some (f i)) -> is_Some (fill n idx f vec).
Proof.
  induction n as [|n IH]; intros Hf.
  - eexists. reflexivity.
  - rewrite fill_S. destruct IH as [v1 ->]; [intros i Hi; apply Hf; lia|].
    destruct (Hf n ltac:(lia)) as [x ->]. eexists. reflexivity.
Qed.

Lemma row_index_lt (tlen Nnodes t node : nat) :
  t < tlen -> node < Nnodes -> t * Nnodes + node < tlen * Nnodes.
Proof. intros Ht Hn. nia. Qed.

Lemma fill_rows_S {A : Type} (tlen Nnodes : nat)
    (f : nat -> nat -> option A) (vec : list A) :
  fill_rows (S tlen) Nnodes f vec =
    (vec' ← fill_rows tlen Nnodes f vec;
     fill Nnodes (fun node => tlen * Nnodes + node) (f tlen) vec').
Proof.
  exact (for_loop_S tlen
           (fun t vec => fill Nnodes (fun node => t * Nnodes + node) (f t) vec)
           vec).
Qed.

Lemma fill_rows_inv {A : Type} `{!Inhabited A} (tlen Nnodes : nat)
    (f : nat -> nat -> option A) (vec vec' : list A) :
  fill_rows tlen Nnodes f vec = Some vec' ->
  length vec' = length vec /\
  (forall t node, t < tlen -> node < Nnodes ->
     exists x, f t node = Some x /\
       (t * Nnodes + node < length vec -> vec' !!! (t * Nnodes + node) = x)) /\
  (forall k, tlen * Nnodes <= k -> vec' !!! k = vec !!! k).
Proof.
  revert vec'. induction tlen as [|tlen IH]; intros vec'.
  - intros [= <-]. split; [reflexivity|].
    split; [intros t node Ht; lia|auto].
  - rewrite fill_rows_S.
    destruct (fill_rows tlen Nnodes f vec) as [v1|]; [|discriminate].
    cbn. intros Hfill.
    destruct (IH v1 eq_refl) as (Hlen & Hset & Hkeep).
    apply fill_inv in Hfill as (Hlen' & Hset' & Hkeep'); [|intros; lia].
    split; [lia|]. split.
    + intros t node Ht Hn. destruct (decide (t = tlen)) as [->|Hne].
      * destruct (Hset' node Hn) as (x & Hx & Hval).
        exists x. split; [exact Hx|]. intros Hr. apply Hval. lia.
      * destruct (Hset t node ltac:(lia) Hn) as (x & Hx & Hval).
        exists x. split; [exact Hx|]. intros Hr. rewrite Hkeep'.
        -- apply Hval. exact Hr.
        -- intros i Hi.
           pose proof (row_index_lt tlen Nnodes t node ltac:(lia) Hn). lia.
    + intros k Hk. rewrite Hkeep' by (intros i Hi; lia).
      apply Hkeep. lia.
Qed.

Lemma fill_rows_defined {A : Type} (tlen Nnodes : nat)
    (f : nat -> nat -> option A) (vec : list A) :
  (forall t node, t < tlen -> node < Nnodes -> is_Some (f t node)) ->
  is_Some (fill_rows tlen Nnodes f vec).
Proof.
  induction tlen as [|tlen IH]; intros Hf.
  - eexists. reflexivity.
  - rewrite fill_rows_S.
    destruct IH as [v1 ->]; [intros t node Ht; apply Hf; lia|].
    cbn. apply fill_defined. intros node Hn. apply Hf; lia.
Qed.

Lemma int_wrap_small (z : Z) :
  (- 2 ^ 31 <= z < 2 ^ 31)%Z -> int_wrap z = z.
Proof. intros Hz. unfold int_wrap. rewrite Z.mod_small by lia. lia. Qed.

Lemma trajectory_row_names_spec (nrow : nat) :
  exists rows, trajectory_row_names nrow = Some rows /\
    length rows = nrow /\
    forall i, i < nrow -> rows !!! i = int_wrap (Z.of_nat i + 1).
Proof.
  unfold trajectory_row_names.
  destruct (fill_defined nrow (fun i => i)
              (fun i => Some (int_wrap (Z.of_nat i + 1))) (replicate nrow 0%Z))
    as [rows Hrows]; [intros i _; eexists; reflexivity|].
  exists rows. split; [exact Hrows|].
  apply fill_inv in Hrows as (Hlen & Hset & _); [|auto].
  rewrite length_replicate in Hlen, Hset. split; [exact Hlen|].
  intros i Hi. destruct (Hset i Hi) as (x & [= <-] & Hval). auto.
Qed.

Lemma copy_rows_spec {A : Type} `{!Inhabited A} (tlen Nnodes : nat)
    (src vec : list A) :
  length src = Nnodes -> length vec = tlen * Nnodes ->
  exists vec',
    for_loop tlen
      (fun t vec => Some (list_inserts (t * Nnodes) (take Nnodes src) vec))
      vec = Some vec' /\
    length vec' = length vec /\
    forall t node, t < tlen -> node < Nnodes ->
      vec' !!! (t * Nnodes + node) = src !!! node.
Proof.
  intros Hsrc. rewrite <- Hsrc, firstn_all.
  assert (Hgen : forall n, n <= tlen -> length vec = tlen * length src ->
            exists vec',
              for_loop n
                (fun t vec => Some (list_inserts (t * length src) src vec)) vec
                = Some vec' /\
              length vec' = length vec /\
              forall t node, t < n -> node < length src ->
                vec' !!! (t * length src + node) = src !!! node).
  { intros n. induction n as [|n IH]; intros Hn Hvec.
    - exists vec. split; [reflexivity|]. split; [reflexivity|]. intros; lia.
    - destruct IH as (v1 & Hv1 & Hlen & Hset); [lia|exact Hvec|].
      rewrite for_loop_S, Hv1. cbn. eexists. split; [reflexivity|].
      split; [rewrite length_inserts; exact Hlen|].
      intros t node Ht Hnode. destruct (decide (t = n)) as [->|Hne].
      + rewrite list_lookup_total_inserts by nia. f_equal. lia.
      + rewrite list_lookup_total_inserts_lt by nia. apply Hset; lia. }
  intros Hvec. apply Hgen; [lia|exact Hvec].
Qed.

(** The number of rows per time point, [Nnodes], and the stride of a
    state matrix, the number of its labels. *)
Definition trajectory_Nnodes (c_Nn : nat) (nodes : option (list Z)) : nat :=
  match nodes with None => c_Nn | Some l => length l end.

Definition label_stride (lbl : option (list string)) : nat :=
  match lbl with None => 0 | Some l => length l end.

Section TrajectoryProperties.
Variables (dm : list Z) (dm_i : list Z) (dm_lbl : option (list string)).
Variables (cm : list double) (cm_i : list Z) (cm_lbl : option (list string)).
Variables (tspan : list double) (c_Nn : nat) (nodes : option (list Z)).

Lemma SimInf_trajectory_inv (df : data_frame) :
  SimInf_trajectory dm dm_i dm_lbl cm cm_i cm_lbl tspan c_Nn nodes = Some df ->
  let Nnodes := trajectory_Nnodes c_Nn nodes in
  let tlen := length tspan in
  let ncol := 2 + length dm_i + length cm_i in
  exists colnames rows nvec tvec r3 r4,
    trajectory_names dm_i dm_lbl cm_i cm_lbl = Some colnames /\
    trajectory_row_names (tlen * Nnodes) = Some rows /\
    trajectory_node_column tlen Nnodes nodes = Some nvec /\
    trajectory_time_column tlen Nnodes tspan = Some tvec /\
    fill (length dm_i) (fun i => 2 + i)
      (fun i => IntColumn <$>
         trajectory_column dm dm_i (label_stride dm_lbl) c_Nn tlen Nnodes
           nodes i)
      (<[1 := IntColumn tvec]> (<[0 := IntColumn nvec]> (replicate ncol Unset)))
      = Some r3 /\
    fill (length cm_i) (fun i => 2 + length dm_i + i)
      (fun i => RealColumn <$>
         trajectory_column cm cm_i (label_stride cm_lbl) c_Nn tlen Nnodes
           nodes i) r3 = Some r4 /\
    df = {| names := colnames; class := "data.frame"; row_names := rows;
            columns := r4 |}.
Proof.
  unfold SimInf_trajectory. cbv zeta.
  fold (trajectory_Nnodes c_Nn nodes) (label_stride dm_lbl)
    (label_stride cm_lbl).
  destruct (trajectory_names dm_i dm_lbl cm_i cm_lbl) as [colnames|];
    [|discriminate].
  cbn [mbind option_bind].
  destruct (trajectory_row_names _) as [rows|]; [|discriminate].
  cbn [mbind option_bind].
  destruct (trajectory_node_column _ _ _) as [nvec|]; [|discriminate].
  cbn [mbind option_bind].
  destruct (trajectory_time_column _ _ _) as [tvec|]; [|discriminate].
  cbn [mbind option_bind].
  destruct (fill (length dm_i) _ _ _) as [r3|] eqn:H3; [|discriminate].
  cbn [mbind option_bind].
  destruct (fill (length cm_i) _ _ _) as [r4|] eqn:H4; [|discriminate].
  cbn [mbind option_bind].
  intros [= <-]. exists colnames, rows, nvec, tvec, r3, r4.
  repeat split; reflexivity || assumption.
Qed.

Lemma trajectory_names_inv (colnames : list string) :
  trajectory_names dm_i dm_lbl cm_i cm_lbl = Some colnames ->
  length colnames = 2 + length dm_i + length cm_i /\
  colnames !!! 0 = "node" /\ colnames !!! 1 = "time" /\
  (forall i j, dm_i !! i = Some j ->
     exists lbl, dm_lbl = Some lbl /\
       read lbl (j - 1) = Some (colnames !!! (2 + i))) /\
  (forall i j, cm_i !! i = Some j ->
     exists lbl, cm_lbl = Some lbl /\
       read lbl (j - 1) = Some (colnames !!! (2 + length dm_i + i))).
Proof.
  unfold trajectory_names. cbv zeta.
  destruct (fill (length dm_i) _ _ _) as [c1|] eqn:H1; [|discriminate].
  cbn [mbind option_bind]. intros H2.
  apply fill_inv in H1 as (Hlen1 & Hset1 & Hkeep1); [|intros; lia].
  apply fill_inv in H2 as (Hlen2 & Hset2 & Hkeep2); [|intros; lia].
  rewrite !length_insert, length_replicate in Hlen1.
  rewrite !length_insert, length_replicate in Hset1.
  rewrite Hlen1 in Hlen2, Hset2.
  split; [exact Hlen2|]. split; [|split; [|split]].
  - rewrite Hkeep2, Hkeep1 by (intros; lia).
    rewrite list_lookup_total_insert_ne by lia.
    apply list_lookup_total_insert_eq. rewrite length_replicate. lia.
  - rewrite Hkeep2, Hkeep1 by (intros; lia).
    apply list_lookup_total_insert_eq.
    rewrite length_insert, length_replicate. lia.
  - intros i j Hj. pose proof (lookup_lt_Some _ _ _ Hj) as Hi.
    destruct (Hset1 i Hi) as (x & Hx & Hval). rewrite Hj in Hx. cbn in Hx.
    destruct dm_lbl as [lbl|]; [|discriminate]. cbn in Hx.
    exists lbl. split; [reflexivity|].
    rewrite Hkeep2 by (intros; lia). rewrite Hval by lia. exact Hx.
  - intros i j Hj. pose proof (lookup_lt_Some _ _ _ Hj) as Hi.
    destruct (Hset2 i Hi) as (x & Hx & Hval). rewrite Hj in Hx. cbn in Hx.
    destruct cm_lbl as [lbl|]; [|discriminate]. cbn in Hx.
    exists lbl. split; [reflexivity|]. rewrite Hval by lia. exact Hx.
Qed.

Lemma trajectory_columns_inv (nvec tvec : list Z)
    (r3 r4 : list column_data) (tlen Nnodes : nat) :
  let ncol := 2 + length dm_i + length cm_i in
  fill (length dm_i) (fun i => 2 + i)
    (fun i => IntColumn <$>
       trajectory_column dm dm_i (label_stride dm_lbl) c_Nn tlen Nnodes
         nodes i)
    (<[1 := IntColumn tvec]> (<[0 := IntColumn nvec]> (replicate ncol Unset)))
    = Some r3 ->
  fill (length cm_i) (fun i => 2 + length dm_i + i)
    (fun i => RealColumn <$>
       trajectory_column cm cm_i (label_stride cm_lbl) c_Nn tlen Nnodes
         nodes i) r3 = Some r4 ->
  length r4 = ncol /\
  r4 !!! 0 = IntColumn nvec /\ r4 !!! 1 = IntColumn tvec /\
  (forall i, i < length dm_i ->
     exists x,
       trajectory_column dm dm_i (label_stride dm_lbl) c_Nn tlen Nnodes
         nodes i = Some x /\
       r4 !!! (2 + i) = IntColumn x) /\
  (forall i, i < length cm_i ->
     exists x,
       trajectory_column cm cm_i (label_stride cm_lbl) c_Nn tlen Nnodes
         nodes i = Some x /\
       r4 !!! (2 + length dm_i + i) = RealColumn x).
Proof.
  intros ncol H1 H2.
  apply fill_inv in H1 as (Hlen1 & Hset1 & Hkeep1); [|intros; lia].
  apply fill_inv in H2 as (Hlen2 & Hset2 & Hkeep2); [|intros; lia].
  rewrite !length_insert, length_replicate in Hlen1.
  rewrite !length_insert, length_replicate in Hset1.
  rewrite Hlen1 in Hlen2, Hset2.
  split; [exact Hlen2|]. split; [|split; [|split]].
  - rewrite Hkeep2, Hkeep1 by (intros; lia).
    rewrite list_lookup_total_insert_ne by lia.
    apply list_lookup_total_insert_eq. rewrite length_replicate.
    unfold ncol. lia.
  - rewrite Hkeep2, Hkeep1 by (intros; lia).
    apply list_lookup_total_insert_eq.
    rewrite length_insert, length_replicate. unfold ncol. lia.
  - intros i Hi. destruct (Hset1 i Hi) as (c & Hc & Hval).
    apply fmap_Some in Hc as (x & Hx & ->). exists x.
    split; [exact Hx|].
    rewrite Hkeep2 by (intros; lia). apply Hval. unfold ncol. lia.
  - intros i Hi. destruct (Hset2 i Hi) as (c & Hc & Hval).
    apply fmap_Some in Hc as (x & Hx & ->). exists x.
    split; [exact Hx|]. apply Hval. unfold ncol. lia.
Qed.

Lemma trajectory_column_inv {A : Type} `{!Inhabited A} (m : list A)
    (m_i : list Z) (stride tlen Nnodes i : nat) (x : list A) :
  trajectory_column m m_i stride c_Nn tlen Nnodes nodes i = Some x ->
  length x = tlen * Nnodes /\
  exists j, m_i !! i = Some j /\
    forall t node, t < tlen -> node < Nnodes ->
      exists k, trajectory_index c_Nn stride nodes j t node = Some k /\
        read m k = Some (x !!! (t * Nnodes + node)).
Proof.
  unfold trajectory_column.
  destruct (m_i !! i) as [j|]; [|discriminate]. cbn [mbind option_bind].
  intros Hfill. apply fill_rows_inv in Hfill as (Hlen & Hset & _).
  rewrite length_replicate in Hlen, Hset. split; [exact Hlen|].
  exists j. split; [reflexivity|]. intros t node Ht Hn.
  destruct (Hset t node Ht Hn) as (y & Hy & Hval).
  destruct (trajectory_index c_Nn stride nodes j t node) as [k|];
    [|discriminate].
  cbn in Hy. exists k. split; [reflexivity|].
  rewrite Hval by (apply row_index_lt; assumption). exact Hy.
Qed.

Lemma trajectory_node_column_inv (tlen : nat) (nvec : list Z) :
  trajectory_node_column tlen (trajectory_Nnodes c_Nn nodes) nodes
    = Some nvec ->
  length nvec = tlen * trajectory_Nnodes c_Nn nodes /\
  forall t node, t < tlen -> node < trajectory_Nnodes c_Nn nodes ->
    nvec !!! (t * trajectory_Nnodes c_Nn nodes + node) =
      match nodes with
      | Some p_nodes => p_nodes !!! node
      | None => int_wrap (Z.of_nat node + 1)
      end.
Proof.
  unfold trajectory_node_column. destruct nodes as [p_nodes|]; cbn.
  - destruct (copy_rows_spec tlen (length p_nodes) p_nodes
                (replicate (tlen * length p_nodes) 0%Z) eq_refl)
      as (vec' & -> & Hlen & Hset); [apply length_replicate|].
    intros [= <-]. rewrite length_replicate in Hlen. auto.
  - intros Hfill. apply fill_rows_inv in Hfill as (Hlen & Hset & _).
    rewrite length_replicate in Hlen, Hset. split; [exact Hlen|].
    intros t node Ht Hn. destruct (Hset t node Ht Hn) as (y & [= <-] & Hval).
    apply Hval, row_index_lt; assumption.
Qed.

Lemma trajectory_time_column_inv (Nnodes : nat) (tvec : list Z) :
  trajectory_time_column (length tspan) Nnodes tspan = Some tvec ->
  length tvec = length tspan * Nnodes /\
  forall t node, t < length tspan -> node < Nnodes ->
    double_to_int (tspan !!! t) = Some (tvec !!! (t * Nnodes + node)).
Proof.
  unfold trajectory_time_column. intros Hfill.
  apply fill_rows_inv in Hfill as (Hlen & Hset & _).
  rewrite length_replicate in Hlen, Hset. split; [exact Hlen|].
  intros t node Ht Hn. destruct (Hset t node Ht Hn) as (y & Hy & Hval).
  rewrite (list_lookup_lookup_total_lt tspan t Ht) in Hy. cbn in Hy.
  rewrite Hval by (apply row_index_lt; assumption). exact Hy.
Qed.

End TrajectoryProperties.

Section TrajectoryTheorems.
Variables (dm : list Z) (dm_i : list Z) (dm_lbl : option (list string)).
Variables (cm : list double) (cm_i : list Z) (cm_lbl : option (list string)).
Variables (tspan : list double) (c_Nn : nat) (nodes : option (list Z)).

(** X16.  A data.frame that [SimInf_trajectory] returns has the class
    "data.frame" and [2 + dm_len + cm_len] named columns: "node",
    "time", then the labels [dm_lbl[dm_i[i] - 1]] of the selected
    compartments and the labels [cm_lbl[cm_i[i] - 1]] of the selected
    continuous states, in the order of the index vectors.  It has
    [tlen * Nnodes] rows, where [Nnodes] is the number of node
    identifiers given, or [Nn] when none is given; the row names are
    1, 2, ..., as long as the number of rows is an [int]; the columns up
    to the last compartment are integer vectors and the others numeric
    vectors, each with one cell per row, and no column is left unset. *)
Theorem SimInf_trajectory_frame (df : data_frame) :
  SimInf_trajectory dm dm_i dm_lbl cm cm_i cm_lbl tspan c_Nn nodes = Some df ->
  let nrow := length tspan * trajectory_Nnodes c_Nn nodes in
  let ncol := 2 + length dm_i + length cm_i in
  df.(class) = "data.frame" /\
  (length df.(names) = ncol /\
   df.(names) !!! 0 = "node" /\ df.(names) !!! 1 = "time" /\
   (forall i j, dm_i !! i = Some j ->
      exists lbl, dm_lbl = Some lbl /\
        read lbl (j - 1) = Some (df.(names) !!! (2 + i))) /\
   (forall i j, cm_i !! i = Some j ->
      exists lbl, cm_lbl = Some lbl /\
        read lbl (j - 1) = Some (df.(names) !!! (2 + length dm_i + i)))) /\
  (length df.(row_names) = nrow /\
   forall i, i < nrow -> (Z.of_nat nrow < 2 ^ 31)%Z ->
     df.(row_names) !!! i = (Z.of_nat i + 1)%Z) /\
  (length df.(columns) = ncol /\
   (forall c, c < 2 + length dm_i ->
      exists x, df.(columns) !!! c = IntColumn x /\ length x = nrow) /\
   (forall c, 2 + length dm_i <= c < ncol ->
      exists x, df.(columns) !!! c = RealColumn x /\ length x = nrow)).
Proof.
  intros Hdf nrow ncol.
  apply SimInf_trajectory_inv in Hdf
    as (colnames & rows & nvec & tvec & r3 & r4 &
        Hnames & Hrows & Hnode & Htime & H3 & H4 & ->).
  cbn [class names row_names columns].
  split; [reflexivity|]. split; [|split].
  - apply trajectory_names_inv. exact Hnames.
  - destruct (trajectory_row_names_spec nrow) as (rows' & Hrows' & Hlen & Hval).
    fold nrow in Hrows. rewrite Hrows in Hrows'. injection Hrows' as <-.
    split; [exact Hlen|]. intros i Hi Hsmall.
    rewrite Hval by exact Hi. apply int_wrap_small. lia.
  - edestruct trajectory_columns_inv as (Hlen & H0 & H1 & Hdm & Hcm);
      [exact H3|exact H4|].
    apply trajectory_node_column_inv in Hnode as [Hnlen _].
    apply trajectory_time_column_inv in Htime as [Htlen _].
    split; [exact Hlen|]. split.
    + intros c Hc. destruct c as [|[|c]].
      * exists nvec. auto.
      * exists tvec. auto.
      * destruct (Hdm c ltac:(lia)) as (x & Hx & Hcol).
        exists x. split; [exact Hcol|].
        apply trajectory_column_inv in Hx as [Hxlen _]. exact Hxlen.
    + intros c Hc. destruct (Hcm (c - (2 + length dm_i)) ltac:(lia))
        as (x & Hx & Hcol).
      replace (2 + length dm_i + (c - (2 + length dm_i))) with c in Hcol
        by lia.
      exists x. split; [exact Hcol|].
      apply trajectory_column_inv in Hx as [Hxlen _]. exact Hxlen.
Qed.

(** X17.  In a data.frame that [SimInf_trajectory] returns the row
    [t * Nnodes + k] is that of sample time [t] and of the [k]-th node
    of the selection.  Its 'node' cell holds the [k]-th identifier
    given, or [k + 1] when none is given; its 'time' cell holds
    [(int)tspan[t]]; and its cell in the column of index entry
    [j = dm_i[i]] holds the cell of the state matrix at offset
    [(j - 1) + (t * Nn + n) * stride], where [n] is [k] or, with
    identifiers, the [k]-th identifier less one, and [stride] the number
    of labels; likewise for the continuous state matrix.  Every cell so
    read lies inside its matrix.  ([Nn] is an [int].) *)
Theorem SimInf_trajectory_rows (df : data_frame) (t k : nat) :
  SimInf_trajectory dm dm_i dm_lbl cm cm_i cm_lbl tspan c_Nn nodes = Some df ->
  (Z.of_nat c_Nn < 2 ^ 31)%Z ->
  t < length tspan -> k < trajectory_Nnodes c_Nn nodes ->
  let row := t * trajectory_Nnodes c_Nn nodes + k in
  (exists x, df.(columns) !!! 0 = IntColumn x /\
     x !!! row = match nodes with
                 | Some p_nodes => p_nodes !!! k
                 | None => (Z.of_nat k + 1)%Z
                 end) /\
  (exists x, df.(columns) !!! 1 = IntColumn x /\
     double_to_int (tspan !!! t) = Some (x !!! row)) /\
  (forall i j, dm_i !! i = Some j ->
     exists x idx, df.(columns) !!! (2 + i) = IntColumn x /\
       trajectory_index c_Nn (label_stride dm_lbl) nodes j t k = Some idx /\
       read dm idx = Some (x !!! row)) /\
  (forall i j, cm_i !! i = Some j ->
     exists x idx, df.(columns) !!! (2 + length dm_i + i) = RealColumn x /\
       trajectory_index c_Nn (label_stride cm_lbl) nodes j t k = Some idx /\
       read cm idx = Some (x !!! row)).
Proof.
  intros Hdf Hint Ht Hk row.
  apply SimInf_trajectory_inv in Hdf
    as (colnames & rows & nvec & tvec & r3 & r4 &
        Hnames & Hrows & Hnode & Htime & H3 & H4 & ->).
  cbn [columns].
  edestruct trajectory_columns_inv as (Hlen & H0 & H1 & Hdm & Hcm);
    [exact H3|exact H4|].
  split; [|split; [|split]].
  - exists nvec. split; [exact H0|].
    apply trajectory_node_column_inv in Hnode as [_ Hval].
    unfold row. rewrite (Hval t k Ht Hk).
    destruct nodes as [p_nodes|]; [reflexivity|].
    apply int_wrap_small. cbn in Hk. lia.
  - exists tvec. split; [exact H1|].
    apply trajectory_time_column_inv in Htime as [_ Hval].
    apply Hval; assumption.
  - intros i j Hj. pose proof (lookup_lt_Some _ _ _ Hj) as Hi.
    destruct (Hdm i Hi) as (x & Hx & Hcol).
    apply trajectory_column_inv in Hx as (_ & j' & Hj' & Hval).
    rewrite Hj in Hj'. injection Hj' as <-.
    destruct (Hval t k Ht Hk) as (idx & Hidx & Hread).
    exists x, idx. auto.
  - intros i j Hj. pose proof (lookup_lt_Some _ _ _ Hj) as Hi.
    destruct (Hcm i Hi) as (x & Hx & Hcol).
    apply trajectory_column_inv in Hx as (_ & j' & Hj' & Hval).
    rewrite Hj in Hj'. injection Hj' as <-.
    destruct (Hval t k Ht Hk) as (idx & Hidx & Hread).
    exists x, idx. auto.
Qed.

End TrajectoryTheorems.

Section TrajectoryDefined.
Variables (dm : list Z) (dm_i : list Z) (dm_lbl : option (list string)).
Variables (cm : list double) (cm_i : list Z) (cm_lbl : option (list string)).
Variables (tspan : list double) (c_Nn : nat) (nodes : option (list Z)).

Lemma read_defined {A : Type} (a : list A) (i : Z) :
  (0 <= i < Z.of_nat (length a))%Z -> is_Some (read a i).
Proof.
  intros Hi. unfold read. destruct (Z.ltb_spec i 0); [lia|].
  apply lookup_lt_is_Some. lia.
Qed.

Lemma trajectory_names_defined :
  (forall i j, dm_i !! i = Some j ->
     (1 <= j <= Z.of_nat (label_stride dm_lbl))%Z) ->
  (forall i j, cm_i !! i = Some j ->
     (1 <= j <= Z.of_nat (label_stride cm_lbl))%Z) ->
  is_Some (trajectory_names dm_i dm_lbl cm_i cm_lbl).
Proof.
  intros Hdm Hcm.
  assert (Hlbl : forall (m_i : list Z) (lbl : option (list string)) i,
            (forall i j, m_i !! i = Some j ->
               (1 <= j <= Z.of_nat (label_stride lbl))%Z) ->
            i < length m_i ->
            is_Some (j ← m_i !! i; l ← lbl; read l (j - 1))).
  { intros m_i lbl i Hm Hi.
    destruct (lookup_lt_is_Some_2 m_i i Hi) as [j Hj].
    rewrite Hj. cbn. specialize (Hm i j Hj).
    destruct lbl as [l|]; cbn in *; [|lia].
    apply read_defined. lia. }
  unfold trajectory_names. cbv zeta.
  edestruct (fill_defined (length dm_i) (fun i => 2 + i)
               (fun i => j ← dm_i !! i; lbl ← dm_lbl; read lbl (j - 1)))
    as [c1 ->]; [intros i Hi; apply Hlbl; assumption|].
  cbn [mbind option_bind].
  apply fill_defined. intros i Hi. apply Hlbl; assumption.
Qed.

Lemma trajectory_index_defined {A : Type} (m : list A) (stride : nat)
    (j : Z) (t node : nat) :
  (1 <= j <= Z.of_nat stride)%Z ->
  (forall p, nodes = Some p ->
     Forall (fun id => (1 <= id <= Z.of_nat c_Nn)%Z) p) ->
  length tspan * c_Nn * stride <= length m ->
  t < length tspan -> node < trajectory_Nnodes c_Nn nodes ->
  is_Some (k ← trajectory_index c_Nn stride nodes j t node; read m k).
Proof.
  intros Hj Hnodes Hm Ht Hn.
  assert (Hfit : forall n : Z, (0 <= n < Z.of_nat c_Nn)%Z ->
            (0 <= j - 1 + (Z.of_nat t * Z.of_nat c_Nn + n) * Z.of_nat stride
             < Z.of_nat (length m))%Z).
  { intros n Hn'.
    assert (Hrow : (Z.of_nat t * Z.of_nat c_Nn + n + 1
                    <= Z.of_nat (length tspan) * Z.of_nat c_Nn)%Z) by nia.
    assert (Hm' : (Z.of_nat (length tspan) * Z.of_nat c_Nn * Z.of_nat stride
                   <= Z.of_nat (length m))%Z) by nia.
    split; [nia|].
    apply Z.lt_le_trans with
      ((Z.of_nat t * Z.of_nat c_Nn + n + 1) * Z.of_nat stride)%Z; [lia|].
    etransitivity; [|exact Hm'].
    apply Z.mul_le_mono_nonneg_r; lia. }
  unfold trajectory_index. destruct nodes as [p|]; cbn in Hn |- *.
  - destruct (lookup_lt_is_Some_2 p node Hn) as [id Hid]. rewrite Hid. cbn.
    specialize (Hnodes p eq_refl).
    rewrite Forall_lookup in Hnodes. specialize (Hnodes node id Hid).
    apply read_defined.
    replace (Z.of_nat t * Z.of_nat c_Nn + id - 1)%Z
      with (Z.of_nat t * Z.of_nat c_Nn + (id - 1))%Z by lia.
    apply Hfit. lia.
  - apply read_defined, Hfit. lia.
Qed.

Lemma trajectory_column_defined {A : Type} `{!Inhabited A} (m : list A)
    (m_i : list Z) (stride i : nat) :
  (forall i j, m_i !! i = Some j -> (1 <= j <= Z.of_nat stride)%Z) ->
  (forall p, nodes = Some p ->
     Forall (fun id => (1 <= id <= Z.of_nat c_Nn)%Z) p) ->
  length tspan * c_Nn * stride <= length m ->
  i < length m_i ->
  is_Some (trajectory_column m m_i stride c_Nn (length tspan)
             (trajectory_Nnodes c_Nn nodes) nodes i).
Proof.
  intros Hm_i Hnodes Hm Hi. unfold trajectory_column.
  destruct (lookup_lt_is_Some_2 m_i i Hi) as [j Hj]. rewrite Hj. cbn.
  apply fill_rows_defined. intros t node Ht Hn.
  apply trajectory_index_defined; eauto.
Qed.

(** X18.  [SimInf_trajectory] returns a data.frame whenever its
    arguments fit together: every sample time has an integral part that
    is an [int]; every index of a compartment or of a continuous state
    is between 1 and the number of labels of its matrix; every node
    identifier given is between 1 and [Nn]; and the state matrices hold
    [tlen * Nn * stride] cells.  No cell is then read outside a matrix
    or a label vector. *)
Theorem SimInf_trajectory_defined :
  (forall t, t < length tspan -> is_Some (double_to_int (tspan !!! t))) ->
  (forall i j, dm_i !! i = Some j ->
     (1 <= j <= Z.of_nat (label_stride dm_lbl))%Z) ->
  (forall i j, cm_i !! i = Some j ->
     (1 <= j <= Z.of_nat (label_stride cm_lbl))%Z) ->
  (forall p, nodes = Some p ->
     Forall (fun id => (1 <= id <= Z.of_nat c_Nn)%Z) p) ->
  length tspan * c_Nn * label_stride dm_lbl <= length dm ->
  length tspan * c_Nn * label_stride cm_lbl <= length cm ->
  is_Some (SimInf_trajectory dm dm_i dm_lbl cm cm_i cm_lbl tspan c_Nn nodes).
Proof.
  intros Htspan Hdm_i Hcm_i Hnodes Hdm Hcm.
  destruct (trajectory_names_defined Hdm_i Hcm_i) as [colnames Hnames].
  destruct (trajectory_row_names_spec
              (length tspan * trajectory_Nnodes c_Nn nodes))
    as (rows & Hrows & _).
  assert (Hnode : is_Some (trajectory_node_column (length tspan)
                             (trajectory_Nnodes c_Nn nodes) nodes)).
  { unfold trajectory_node_column. destruct nodes as [p|]; cbn.
    - destruct (copy_rows_spec (length tspan) (length p) p
                  (replicate (length tspan * length p) 0%Z) eq_refl)
        as (vec' & -> & _); [apply length_replicate|]. eexists. reflexivity.
    - apply fill_rows_defined. intros; eexists; reflexivity. }
  destruct Hnode as [nvec Hnode].
  assert (Htime : is_Some (trajectory_time_column (length tspan)
                             (trajectory_Nnodes c_Nn nodes) tspan)).
  { unfold trajectory_time_column.
    apply fill_rows_defined. intros t node Ht Hn.
    rewrite (list_lookup_lookup_total_lt tspan t Ht). cbn.
    apply Htspan. exact Ht. }
  destruct Htime as [tvec Htime].
  unfold SimInf_trajectory. cbv zeta.
  fold (trajectory_Nnodes c_Nn nodes) (label_stride dm_lbl)
    (label_stride cm_lbl).
  rewrite Hnames. cbn [mbind option_bind].
  rewrite Hrows. cbn [mbind option_bind].
  rewrite Hnode. cbn [mbind option_bind].
  rewrite Htime. cbn [mbind option_bind].
  edestruct (fill_defined (length dm_i) (fun i => 2 + i)
               (fun i => IntColumn <$>
                  trajectory_column dm dm_i (label_stride dm_lbl) c_Nn
                    (length tspan) (trajectory_Nnodes c_Nn nodes) nodes i))
    as [r3 ->].
  { intros i Hi. apply fmap_is_Some.
    apply trajectory_column_defined; assumption. }
  cbn [mbind option_bind].
  edestruct (fill_defined (length cm_i) (fun i => 2 + length dm_i + i)
               (fun i => RealColumn <$>
                  trajectory_column cm cm_i (label_stride cm_lbl) c_Nn
                    (length tspan) (trajectory_Nnodes c_Nn nodes) nodes i))
    as [r4 ->].
  { intros i Hi. apply fmap_is_Some.
    apply trajectory_column_defined; assumption. }
  cbn [mbind option_bind]. eexists. reflexivity.
Qed.

End TrajectoryDefined.

Section TrajectoryOfRun.
Context {P : SimInf_platform} {E : SimInf_events}.

(** ** The trajectory of a run *)

Lemma run_first_column_U (args : Args.SimInf_solver_args) (days fuel : nat)
    (rc : Z) (s : list SimInf_thread_args) (out : SimInf_output)
    (Um : list Z) :
  events_keep_cursors args.(Args.Nn) args.(Args.Nc) args.(Args.Nd) ->
  length args.(Args.u0) = args.(Args.Nn) * args.(Args.Nc) ->
  (forall Um0, args.(Args.U) = Some Um0 ->
     args.(Args.Nn) * args.(Args.Nc) <= length Um0) ->
  SimInf_run_solver_ssa days fuel args = Some (rc, s, out) ->
  out.(U) = Some Um ->
  take (args.(Args.Nn) * args.(Args.Nc)) Um = args.(Args.u0).
Proof.
  intros HE Hu0 HUm Hrun HU.
  set (N := args.(Args.Nn)) in *. set (C := args.(Args.Nc)) in *.
  set (D := args.(Args.Nd)) in *.
  assert (Hfirst : first_columns N C D out
                   = first_columns N C D (setup_output args)).
  { unfold SimInf_run_solver_ssa in Hrun.
    destruct (negb _).
    - injection Hrun as _ _ <-. reflexivity.
    - eapply solver_first_columns; [exact HE| |exact Hrun].
      destruct HE as (Hsp & _). apply Hsp.
      eapply Forall_impl; [apply setup_threads_cursors|].
      intros sa (H & _). exact H. }
  unfold first_columns in Hfirst. injection Hfirst as Hfirst _.
  rewrite HU in Hfirst. unfold setup_output in Hfirst. cbn [U] in Hfirst.
  destruct args.(Args.U) as [Um0|] eqn:HU0; [|discriminate].
  cbn in Hfirst. injection Hfirst as ->.
  fold N C. rewrite <- Hu0, firstn_all.
  apply take_inserts_0. rewrite Hu0. apply HUm. reflexivity.
Qed.

(** X19.  The solver and [SimInf_trajectory] agree on the layout of the
    dense matrix [U].  When a run of [SimInf_run_solver_ssa] has
    returned [U], and [SimInf_trajectory] turns it into a data.frame for
    all [Nn] nodes with one label per compartment, then the rows of the
    first sample time hold the initial state: in the column of
    compartment [j = dm_i[i]], row [node] holds [u0[node * Nc + j - 1]],
    the count the caller gave for that compartment of that node. *)
Theorem trajectory_of_run_initial_state (args : Args.SimInf_solver_args)
    (days fuel : nat) (rc : Z) (s : list SimInf_thread_args)
    (out : SimInf_output) (Um : list Z) (lbl : list string)
    (dm_i : list Z) (df : data_frame) (i node : nat) (j : Z) :
  events_keep_cursors args.(Args.Nn) args.(Args.Nc) args.(Args.Nd) ->
  length args.(Args.u0) = args.(Args.Nn) * args.(Args.Nc) ->
  (forall Um0, args.(Args.U) = Some Um0 ->
     args.(Args.Nn) * args.(Args.Nc) <= length Um0) ->
  SimInf_run_solver_ssa days fuel args = Some (rc, s, out) ->
  out.(U) = Some Um ->
  length lbl = args.(Args.Nc) ->
  SimInf_trajectory Um dm_i (Some lbl) [] [] None args.(Args.tspan)
    args.(Args.Nn) None = Some df ->
  0 < length args.(Args.tspan) ->
  dm_i !! i = Some j -> (1 <= j <= Z.of_nat args.(Args.Nc))%Z ->
  node < args.(Args.Nn) ->
  exists x, df.(columns) !!! (2 + i) = IntColumn x /\
    x !!! node = args.(Args.u0) !!! (node * args.(Args.Nc) + Z.to_nat (j - 1)).
Proof.
  intros HE Hu0 HUm Hrun HU Hlbl Hdf Htlen Hj Hrange Hnode.
  pose proof (run_first_column_U args days fuel rc s out Um HE Hu0 HUm Hrun HU)
    as Hcol0.
  apply SimInf_trajectory_inv in Hdf
    as (colnames & rows & nvec & tvec & r3 & r4 &
        _ & _ & _ & _ & H3 & H4 & ->).
  cbn [columns].
  edestruct trajectory_columns_inv as (_ & _ & _ & Hdm & _);
    [exact H3|exact H4|].
  destruct (Hdm i (lookup_lt_Some _ _ _ Hj)) as (x & Hx & Hcol).
  apply trajectory_column_inv in Hx as (_ & j' & Hj' & Hval).
  rewrite Hj in Hj'. injection Hj' as <-.
  destruct (Hval 0 node Htlen Hnode) as (idx & Hidx & Hread).
  exists x. split; [exact Hcol|].
  cbn in Hidx, Hread. injection Hidx as <-. rewrite Hlbl in Hread.
  change (Z.of_nat 0) with 0%Z in Hread.
  rewrite Z.mul_0_l, Z.add_0_l in Hread. unfold read in Hread.
  destruct (Z.ltb_spec (j - 1 + Z.of_nat node * Z.of_nat args.(Args.Nc)) 0);
    [lia|].
  replace (Z.to_nat (j - 1 + Z.of_nat node * Z.of_nat args.(Args.Nc)))
    with (node * args.(Args.Nc) + Z.to_nat (j - 1)) in Hread by lia.
  set (k := node * args.(Args.Nc) + Z.to_nat (j - 1)) in *.
  assert (Hk : k < args.(Args.Nn) * args.(Args.Nc)) by (subst k; nia).
  symmetry. apply list_lookup_total_correct.
  rewrite <- Hcol0, lookup_take_lt by exact Hk. exact Hread.
Qed.

End TrajectoryOfRun.

(** * The further properties at work *)

(** X1 at work: with rates 2.25 and 0.5 the draw for [r = 0.25 * 2.75]
    returns transition 0, whose rate is not zero. *)
Lemma draw_transition_sound_witness :
  draw_transition (rate_of (sis_worker [] [9; 1; 0; 0]%Z) 0) 2
    (0.25 * 2.75)%float = Some 0 /\
  (rate_of (sis_worker [] [9; 1; 0; 0]%Z) 0 0 =? 0)%float = false.
Proof.
  destruct (draw_transition_sound (rate_of (sis_worker [] [9; 1; 0; 0]%Z) 0) 2
              (0.25 * 2.75)%float) as [Hsome _]; [lia|].
  destruct (Hsome 0) as (_ & _ & Hrate & _); [vm_compute; reflexivity|].
  split; [vm_compute; reflexivity|exact Hrate].
Defined.

(** X2 at work: a worker that holds an error is returned as it is. *)
Lemma ssa_worker_keeps_witness :
  ssa_worker 0 (set_errcode (sis_worker [] [9; 1; 0; 0]%Z) (-1))
    = Some (set_errcode (sis_worker [] [9; 1; 0; 0]%Z) (-1)).
Proof.
  apply (ssa_worker_keeps 0 (set_errcode (sis_worker [] [9; 1; 0; 0]%Z) (-1))).
  vm_compute. discriminate.
Defined.

(** X3 at work: the two events node 0 fires on day 0 leave the counts
    and the rate sum of node 1 alone. *)
Lemma ssa_node_stays_in_node_witness :
  exists sa',
    ssa_node 20 (sis_worker [0.5; 0.25]%float [9; 1; 5; 0]%Z) 0 = Some sa' /\
    sa'.(u) !!! 2%nat = 5%Z /\ sa'.(sum_t_rate) !!! 1%nat = 1.25%float.
Proof.
  destruct (ssa_node 20 (sis_worker [0.5; 0.25]%float [9; 1; 5; 0]%Z) 0)
    as [sa'|] eqn:Hrun; [|exfalso; vm_compute in Hrun; discriminate].
  destruct (ssa_node_stays_in_node 20
              (sis_worker [0.5; 0.25]%float [9; 1; 5; 0]%Z) sa' 0)
    as (Hu & _ & Hs & _).
  - intros j. vm_compute. destruct j as [|[|[|[|j]]]]; lia.
  - intros j. vm_compute. destruct j as [|[|[|[|j]]]]; lia.
  - exact Hrun.
  - exists sa'. split; [reflexivity|]. split.
    + rewrite Hu by (vm_compute; lia). vm_compute. reflexivity.
    + rewrite Hs by lia. vm_compute. reflexivity.
Defined.

(** X4 at work: node 1, with 5 susceptible and no infected. *)
Lemma init_worker_caches_witness :
  (sis_worker [] [4; 2; 5; 0]%Z).(t_time) !!! 1%nat = 0%float /\
  (sis_worker [] [4; 2; 5; 0]%Z).(sum_t_rate) !!! 1%nat =
    (0 + rate_of (sis_worker [] [4; 2; 5; 0]%Z) 1 0
       + rate_of (sis_worker [] [4; 2; 5; 0]%Z) 1 1)%float.
Proof.
  destruct (init_worker_caches (sis_setup [] [4; 2; 5; 0]%Z) 1)
    as (Ht & _ & Hs & _); [vm_compute; lia..|].
  split; [exact Ht|exact Hs].
Defined.

(** The worker of the example at the end of day 1, before sampling. *)
Definition sampling_worker : SimInf_thread_args :=
  set_tt (sis_worker [] [9; 1; 5; 0]%Z) 2%float.

(** X5 at work: at time 2.0 column 1 is due and column 2 is not. *)
Lemma sample_U_bounds_witness :
  (sample_U (sampling_worker.(tlen) - sampling_worker.(U_it)) sampling_worker
     (replicate 12 0%Z)).1.(U_it) <= Nat.max 1 3 /\
  length (sample_U (sampling_worker.(tlen) - sampling_worker.(U_it))
            sampling_worker (replicate 12 0%Z)).2 = 12.
Proof.
  destruct (sample_U_bounds sampling_worker (replicate 12 0%Z))
    as (_ & [_ Hmax] & _ & Hlen & _); [vm_compute; lia|].
  split; [exact Hmax|exact Hlen].
Defined.

(** X6 at work: the run of the example returns 0, and no worker holds
    an error. *)
Lemma solver_verdict_witness :
  exists rc s' out',
    SimInf_solver_ssa 3 200 (setup_threads sis_args) (setup_output sis_args)
      = Some (rc, s', out') /\
    rc = first_error s' /\
    (rc = 0%Z <-> Forall (fun sa => sa.(errcode) = 0%Z) s').
Proof.
  destruct (SimInf_solver_ssa 3 200 (setup_threads sis_args)
              (setup_output sis_args)) as [[[rc s'] out']|] eqn:Heq;
    [|exfalso; vm_compute in Heq; discriminate].
  exists rc, s', out'. split; [reflexivity|].
  destruct (solver_verdict 3 200 _ s' _ out' rc Heq) as (H1 & H2 & _).
  split; [exact H1|exact H2].
Defined.

(** Five nodes with two compartments shared by three workers. *)
Definition five_nodes_two_compartments : Args.SimInf_solver_args :=
  {| Args.u0 := [1; 2; 3; 4; 5; 6; 7; 8; 9; 10]%Z;
     Args.v0 := [0.5; 0.25; 0.125; 0.75; 1]%float;
     Args.irG := [0; 1; 0; 1]; Args.jcG := [0; 2; 4];
     Args.irS := [0; 1; 0; 1]; Args.jcS := [0; 2; 4];
     Args.prS := [-1; 1; 1; -1]%Z;
     Args.tspan := [0; 1]%float; Args.tlen := 2;
     Args.U := None; Args.V := None;
     Args.ldata := []; Args.gdata := [0.5; 0.5]%float;
     Args.Nn := 5; Args.Nc := 2; Args.Nt := 2; Args.Nd := 1; Args.Nld := 0;
     Args.Nthread := 3; Args.seed := 42%Z;
     Args.tr_fun := [SISe_S_to_I; SISe_I_to_S]; Args.pts_fun := keep_phi |}.

(** X7 at work: the three count buffers are the three parts of [u0]. *)
Lemma setup_slices_reassemble_witness :
  u <$> setup_threads five_nodes_two_compartments
    = [[1; 2]; [3; 4]; [5; 6; 7; 8; 9; 10]]%Z /\
  concat (u <$> setup_threads five_nodes_two_compartments)
    = [1; 2; 3; 4; 5; 6; 7; 8; 9; 10]%Z.
Proof.
  destruct (setup_slices_reassemble five_nodes_two_compartments)
    as [Hu _]; [vm_compute; lia|reflexivity|reflexivity|].
  split; [reflexivity|exact Hu].
Defined.


(** X10 at work: three workers, the second of which holds an error. *)
Lemma swap_and_check_spec_witness :
  swap_and_check
    [sis_setup [] [1; 0; 0; 0]%Z;
     set_errcode (sis_setup [] [2; 0; 0; 0]%Z) (-1);
     sis_setup [] [3; 0; 0; 0]%Z] =
  ([swap_v (sis_setup [] [1; 0; 0; 0]%Z);
    swap_v (set_errcode (sis_setup [] [2; 0; 0; 0]%Z) (-1));
    sis_setup [] [3; 0; 0; 0]%Z], (-1)%Z).
Proof.
  apply (proj2 (swap_and_check_spec
                  [sis_setup [] [1; 0; 0; 0]%Z;
                   set_errcode (sis_setup [] [2; 0; 0; 0]%Z) (-1);
                   sis_setup [] [3; 0; 0; 0]%Z]) 1
           (set_errcode (sis_setup [] [2; 0; 0; 0]%Z) (-1))).
  - reflexivity.
  - vm_compute. discriminate.
  - repeat constructor.
Defined.

(** X12 at work: a node without rate ends the day at [next_day]. *)
Lemma ssa_node_exit_witness :
  exists sa',
    ssa_node 1 (sis_worker [] [9; 1; 0; 0]%Z) 1 = Some sa' /\
    (sa'.(t_time) !!! 1%nat = 1%float \/
     sa'.(sum_t_rate) !!! 1%nat = 0%float).
Proof.
  destruct (ssa_node 1 (sis_worker [] [9; 1; 0; 0]%Z) 1) as [sa'|] eqn:Hrun;
    [|exfalso; vm_compute in Hrun; discriminate].
  exists sa'. split; [reflexivity|].
  apply (ssa_node_exit 1 (sis_worker [] [9; 1; 0; 0]%Z) sa' 1);
    [vm_compute; lia|vm_compute; lia|exact Hrun].
Defined.

(** X14 at work: the integer seed -5. *)
Lemma get_seed_returns_witness :
  get_seed 1700000000 (INTSXP [-5]%Z) = Returns 18446744073709551611%Z.
Proof.
  apply (proj1 (proj2 (get_seed_returns 1700000000 R_NilValue)) (-5)%Z).
  lia.
Defined.

(** X15 at work: day 364, the last of the year, uses [BETA_T4]. *)
Lemma SISe_post_time_step_quarters_witness :
  exists rc v',
    SISe_post_time_step [9; 1]%Z [0.5]%float []
      [0.5; 0.5; 1; 0.25; 0.5; 0.75; 1; 0.125]%float 0 364 0 = Some (rc, v') /\
    v' !!! PHI =
      SISe_phi [9; 1]%Z [0.5]%float
        [0.5; 0.5; 1; 0.25; 0.5; 0.75; 1; 0.125]%float 1%float.
Proof.
  destruct (SISe_post_time_step_quarters [9; 1]%Z [0.5]%float []
              [0.5; 0.5; 1; 0.25; 0.5; 0.75; 1; 0.125]%float 0 364 0 364)
    as (rc & v' & Heq & _ & _ & _ & _ & Hpos & _);
    [vm_compute; reflexivity|vm_compute; lia|].
  exists rc, v'. split; [exact Heq|]. apply Hpos. lia.
Defined.

(** The matrices of a trajectory of two nodes over two sample times. *)
Definition example_dm : list Z := [9; 1; 5; 0; 8; 2; 5; 0]%Z.
Definition example_cm : list double := [0.5; 0.5; 0.25; 0.25]%float.

(** X18 at work: the arguments of the example fit together. *)
Lemma SimInf_trajectory_defined_witness :
  is_Some (SimInf_trajectory example_dm [1; 2]%Z (Some ["S"; "I"])
             example_cm [1]%Z (Some ["phi"]) [0; 1]%float 2 None).
Proof.
  apply SimInf_trajectory_defined.
  - intros t Ht. destruct t as [|[|t]];
      [vm_compute; eexists; reflexivity..|cbn in Ht; lia].
  - intros i j Hj. destruct i as [|[|i]]; cbn in Hj;
      [injection Hj as <-; cbn; lia..|discriminate].
  - intros i j Hj. destruct i as [|i]; cbn in Hj;
      [injection Hj as <-; cbn; lia|discriminate].
  - intros p Hp. discriminate.
  - vm_compute. lia.
  - vm_compute. lia.
Defined.

(** The data.frame of the example. *)
Definition example_frame : data_frame :=
  default (mk_data_frame [] EmptyString [] [])
    (SimInf_trajectory example_dm [1; 2]%Z (Some ["S"; "I"])
       example_cm [1]%Z (Some ["phi"]) [0; 1]%float 2 None).

(** X16 at work: five columns and four rows. *)
Lemma SimInf_trajectory_frame_witness :
  example_frame.(names) = ["node"; "time"; "S"; "I"; "phi"] /\
  length example_frame.(columns) = 5 /\
  length example_frame.(row_names) = 4.
Proof.
  destruct (SimInf_trajectory_frame example_dm [1; 2]%Z (Some ["S"; "I"])
              example_cm [1]%Z (Some ["phi"]) [0; 1]%float 2 None
              example_frame)
    as (_ & _ & [Hrows _] & [Hcols _]); [vm_compute; reflexivity|].
  split; [vm_compute; reflexivity|]. split; [exact Hcols|exact Hrows].
Defined.

(** X17 at work: the row of sample time 1 and node 1 (row 2). *)
Lemma SimInf_trajectory_rows_witness :
  (exists x, example_frame.(columns) !!! 0%nat = IntColumn x /\
     x !!! 2%nat = 1%Z) /\
  (exists x idx, example_frame.(columns) !!! 2%nat = IntColumn x /\
     idx = 4%Z /\ read example_dm idx = Some (x !!! 2%nat)).
Proof.
  destruct (SimInf_trajectory_rows example_dm [1; 2]%Z (Some ["S"; "I"])
              example_cm [1]%Z (Some ["phi"]) [0; 1]%float 2 None
              example_frame 1 0)
    as (Hnode & _ & Hdm & _);
    [vm_compute; reflexivity|lia|vm_compute; lia|vm_compute; lia|].
  split; [exact Hnode|].
  destruct (Hdm 0 1%Z eq_refl) as (x & idx & Hcol & Hidx & Hread).
  exists x, idx. split; [exact Hcol|]. split; [|exact Hread].
  vm_compute in Hidx. injection Hidx as <-. reflexivity.
Defined.

(** The result of the run of the SISe example, and its trajectory. *)
Definition example_run : Z * list SimInf_thread_args * SimInf_output :=
  default (0%Z, [], mk_output None None) (SimInf_run_solver_ssa 3 200 sis_args).

Definition example_run_frame : data_frame :=
  default (mk_data_frame [] EmptyString [] [])
    (SimInf_trajectory (default [] example_run.2.(U)) [1; 2]%Z
       (Some ["S"; "I"]) [] [] None [0; 1; 2]%float 2 None).

(** X19 at work: row 1 of the trajectory of the run holds the 5
    susceptible of node 1 at the first sample time. *)
Lemma trajectory_of_run_initial_state_witness :
  exists x, example_run_frame.(columns) !!! 2%nat = IntColumn x /\
    x !!! 1%nat = 5%Z.
Proof.
  apply (trajectory_of_run_initial_state sis_args 3 200 example_run.1.1
           example_run.1.2 example_run.2 (default [] example_run.2.(U))
           ["S"; "I"] [1; 2]%Z example_run_frame 0 1 1%Z).
  - apply no_events_keep_cursors.
  - reflexivity.
  - intros Um0 [= <-]. vm_compute. lia.
  - vm_compute. reflexivity.
  - vm_compute. reflexivity.
  - reflexivity.
  - vm_compute. reflexivity.
  - vm_compute. lia.
  - reflexivity.
  - vm_compute. split; discriminate.
  - vm_compute. lia.
Defined.

(** X20 at work: no infected in node 1 of the example, [gamma = 0.5]. *)
Lemma SISe_empty_compartment_rates_witness :
  (SISe_I_to_S [5; 0]%Z [0.5]%float [] [0.5; 0.5]%float 0%float =? 0)%float
    = true /\
  invalid_rate (SISe_I_to_S [5; 0]%Z [0.5]%float [] [0.5; 0.5]%float 0%float)
    = false.
Proof.
  apply (SISe_empty_compartment_rates [5; 0]%Z [0.5]%float []
           [0.5; 0.5]%float 0%float); reflexivity.
Defined.
